(** * Pop-match: the match-chain resolution engine

    A shallow embedding of the game logic of the React component [App]
    (selection handlers, match resolution, gravity and refill, phase
    changes), with the properties of the specification proved about it.

    Two variants of the component are embedded:
    - [Power]: the variant with wildcard tiles ([rainbow], [special]),
      powerups, bonus tiers and the combo meter;
    - [Basic]: the variant of [src/App.tsx], with levels and a single
      bonus threshold, no powerups.

    React state is a record; a handler is a function from the state it
    closes over to the state after all queued updates have been applied
    (updates of one hook are applied in the order they were queued; an
    updater called from inside another updater runs at render time and so
    is queued after the updates of the handler body).  [Math.random] and
    [Date.now] are an explicit argument. *)

From stdpp Require Import base decidable countable list gmap strings.

Local Open Scope Z_scope.

(** ** Data model *)

Inductive BallColor := red | blue | yellow | green | purple | rainbow | special.

Inductive PowerupType := pmoves | pmultiplier | pbomb.

#[global] Instance BallColor_eq_dec : EqDecision BallColor.
Proof. solve_decision. Defined.

#[global] Instance PowerupType_eq_dec : EqDecision PowerupType.
Proof. solve_decision. Defined.

Definition BallColor_to_nat (k : BallColor) : nat :=
  match k with
  | red => 0 | blue => 1 | yellow => 2 | green => 3 | purple => 4
  | rainbow => 5 | special => 6
  end%nat.

Definition BallColor_of_nat (n : nat) : option BallColor :=
  match n with
  | 0 => Some red | 1 => Some blue | 2 => Some yellow | 3 => Some green
  | 4 => Some purple | 5 => Some rainbow | 6 => Some special | _ => None
  end%nat.

#[global] Instance BallColor_countable : Countable BallColor.
Proof.
  apply (inj_countable BallColor_to_nat BallColor_of_nat).
  intros []; reflexivity.
Defined.

(** [interface Ball { id; color; powerup? }] *)
Record Ball := mkBall {
  ball_id : string;
  color : BallColor;
  powerup : option PowerupType;
}.

#[global] Instance Ball_eq_dec : EqDecision Ball.
Proof. solve_decision. Defined.

(** A selection entry [{ r, c }]. *)
Record Coord := mkCoord { cr : nat; cc : nat }.

#[global] Instance Coord_eq_dec : EqDecision Coord.
Proof. solve_decision. Defined.

(** [(Ball | null)[][]]: a list of rows; [None] is [null]. *)
Abbreviation Grid := (list (list (option Ball))).

Definition ROWS : nat := 8.
Definition COLS : nat := 5.
Definition MIN_MATCH : nat := 3.

(** The shape every grid of the component has: [generateGrid(ROWS, COLS)]
    builds it and [applyGravity] keeps it. *)
Definition wfGrid (g : Grid) : Prop :=
  length g = ROWS ∧ Forall (λ row, length row = COLS) g.

Definition cellOfRow (row : list (option Ball)) (c : nat) : option Ball :=
  match row !! c with Some cell => cell | None => None end.

(** [grid[r][c]], read, for a cell of the board.  (Outside the board the
    source reads [undefined], which is as falsy as [null], or throws when
    the row does not exist; the statements below keep to the board, see
    [stableState] and [validEvent].) *)
Definition cellAt (g : Grid) (r c : nat) : option Ball :=
  match g !! r with Some row => cellOfRow row c | None => None end.

(** [newGrid[r][c] = v], for a cell of the grid. *)
Definition setCell (g : Grid) (r c : nat) (v : option Ball) : Grid :=
  alter (λ row, <[c := v]> row) r g.

(** Column [c], top row first. *)
Definition column (g : Grid) (c : nat) : list (option Ball) :=
  (λ row, cellOfRow row c) <$> g.

(** The occupied cells of a column, top row first. *)
Definition occupied (l : list (option Ball)) : list Ball := omap id l.

(** The random source: what [Math.random] and [Date.now] contribute to the
    tile created for cell [(r, c)] during a refill, and the time stamp that
    names a reward tile. *)
Record Rng := mkRng {
  rng_id : nat → nat → string;
  rng_color : nat → nat → nat;
  rng_now : string;
}.

(** [const colors: BallColor[] = ['red', 'blue', 'yellow', 'green', 'purple']] *)
Definition colors : list BallColor := [red; blue; yellow; green; purple].

(** [colors[Math.floor(Math.random() * colors.length)]]: an index below
    [colors.length], here the draw taken modulo that length. *)
Definition randomColor (draw : nat) : BallColor :=
  match colors !! (draw `mod` length colors)%nat with
  | Some k => k
  | None => red
  end.

(** ** Gravity and refill *)

(** The tile a refill puts at [(r, c)]: a fresh id, a random base color and
    no powerup. *)
Definition freshBall (rng : Rng) (r c : nat) : Ball :=
  {| ball_id := rng_id rng r c;
     color := randomColor (rng_color rng r c);
     powerup := None |}.

(** [for (let r = ROWS - 1; r >= 0; r--)] of [applyGravity], for column [c]:
    [n] rows are still to be visited, the next one is [r = n - 1]. *)
Fixpoint compactColumn (c : nat) (n : nat) (g : Grid) (emptySpaces : nat)
  : Grid * nat :=
  match n with
  | O => (g, emptySpaces)
  | S r =>
      match cellAt g r c with
      | None => compactColumn c r g (S emptySpaces)
      | Some b =>
          if (0 <? emptySpaces)%nat
          then compactColumn c r
                 (setCell (setCell g (r + emptySpaces) c (Some b)) r c None)
                 emptySpaces
          else compactColumn c r g emptySpaces
      end
  end.

(** [for (let r = 0; r < emptySpaces; r++)]: [n] cells are still to be
    filled, the next one is row [r]. *)
Fixpoint refillColumn (rng : Rng) (c : nat) (n : nat) (r : nat) (g : Grid)
  : Grid :=
  match n with
  | O => g
  | S n' => refillColumn rng c n' (S r) (setCell g r c (Some (freshBall rng r c)))
  end.

Definition gravityColumn (rng : Rng) (g : Grid) (c : nat) : Grid :=
  let '(g1, emptySpaces) := compactColumn c ROWS g 0 in
  refillColumn rng c emptySpaces 0 g1.

Definition applyGravity (rng : Rng) (currentGrid : Grid) : Grid :=
  foldl (gravityColumn rng) currentGrid (seq 0 COLS).

(** ** Phases and level configurations *)

(** [useState<'home' | 'playing' | 'won' | 'lost' | 'levelup'>] *)
Inductive Phase := home | playing | won | lost | levelup.

#[global] Instance Phase_eq_dec : EqDecision Phase.
Proof. solve_decision. Defined.

(** [interface LevelConfig { moves; targets }] *)
Record LevelConfig := mkLevel {
  cfg_moves : Z;
  cfg_targets : gmap BallColor Z;
}.

Definition LEVELS : list LevelConfig :=
  [ mkLevel 20 (<[yellow := 10]> (<[red := 10]> ∅));
    mkLevel 18 (<[yellow := 15]> (<[red := 10]> (<[blue := 5]> ∅)));
    mkLevel 15 (<[yellow := 20]> (<[red := 15]> (<[blue := 10]> (<[green := 5]> ∅))));
    mkLevel 15 (<[yellow := 25]> (<[red := 20]> (<[blue := 15]> (<[green := 10]>
                 (<[purple := 5]> ∅)))));
    mkLevel 12 (<[yellow := 30]> (<[red := 25]> (<[blue := 20]> (<[green := 15]>
                 (<[purple := 10]> ∅))))) ].

(** [Object.values(newTargets).every(count => count === 0)] *)
Definition isWon (t : gmap BallColor Z) : bool :=
  bool_decide (map_Forall (λ _ count, count = 0) t).

(** [prev.some((s) => s.r === r && s.c === c)] *)
Definition inSelection (sel : list Coord) (r c : nat) : bool :=
  existsb (λ s, (cr s =? r)%nat && (cc s =? c)%nat) sel.

(** [Math.abs(last.r - r) <= 1 && Math.abs(last.c - c) <= 1 &&
    !(last.r === r && last.c === c)] *)
Definition isAdjacent (lst : Coord) (r c : nat) : bool :=
  (Z.abs (Z.of_nat (cr lst) - Z.of_nat r) <=? 1)
  && (Z.abs (Z.of_nat (cc lst) - Z.of_nat c) <=? 1)
  && negb ((cr lst =? r)%nat && (cc lst =? c)%nat).

(** [prev.slice(0, -1)] *)
Definition dropLast (sel : list Coord) : list Coord :=
  take (length sel - 1) sel.

(** [prev.length > 1] and [prev[prev.length - 2]] is [(r, c)]. *)
Definition isBacktrack (prev : list Coord) (r c : nat) : bool :=
  (1 <? length prev)%nat &&
  match prev !! (length prev - 2)%nat with
  | Some secondLast => (cr secondLast =? r)%nat && (cc secondLast =? c)%nat
  | None => false
  end.

(** [selection.forEach(({ r, c }) => { newGrid[r][c] = null; })] *)
Definition clearCells (g : Grid) (sel : list Coord) : Grid :=
  foldl (λ acc s, setCell acc (cr s) (cc s) None) g sel.

(** * The variant with powerups, wildcards, tiers and the combo meter *)
Module Power.

Record AppState := mkApp {
  level : nat;
  grid : Grid;
  selection : list Coord;
  isDragging : bool;
  score : Z;
  moves : Z;
  targets : gmap BallColor Z;
  gameState : Phase;
  multiplierTurns : Z;
  combo : Z;
  comboMeter : Z;
}.

(** [generateLevelConfig(levelIndex)]: an authored level, or beyond the
    list the randomly generated configuration, given as [procedural]. *)
Definition generateLevelConfig (levelIndex : nat) (procedural : LevelConfig)
  : LevelConfig :=
  match LEVELS !! levelIndex with
  | Some config => config
  | None => procedural
  end.

(** [b.color !== 'rainbow' && b.color !== 'special'], negated. *)
Definition isWild (k : BallColor) : bool :=
  bool_decide (k = rainbow) || bool_decide (k = special).

(** The loop [for (const s of prev) { ... targetColor = b.color; break; }]:
    the color of the first cell of the chain that holds a tile that is
    neither [rainbow] nor [special]. *)
Fixpoint chainColorOf (g : Grid) (sel : list Coord) : option BallColor :=
  match sel with
  | [] => None
  | s :: rest =>
      match cellAt g (cr s) (cc s) with
      | Some b => if isWild (color b) then chainColorOf g rest else Some (color b)
      | None => chainColorOf g rest
      end
  end.

(** The updater that [handleCellEnter] passes to [setSelection]. *)
Definition extendSelection (g : Grid) (prev : list Coord) (r c : nat)
  : list Coord :=
  match last prev with
  | None => prev
  | Some lst =>
      if isBacktrack prev r c then dropLast prev
      else if inSelection prev r c then prev
      else if isAdjacent lst r c then
        match cellAt g r c with
        | None => prev
        | Some ball =>
            if isWild (color ball) then prev ++ [mkCoord r c]
            else
              match chainColorOf g prev with
              | None => prev ++ [mkCoord r c]
              | Some targetColor =>
                  if bool_decide (color ball = targetColor)
                  then prev ++ [mkCoord r c]
                  else prev
              end
        end
      else prev
  end.

Definition setSelection (st : AppState) (sel : list Coord) : AppState :=
  {| level := level st; grid := grid st; selection := sel;
     isDragging := isDragging st; score := score st; moves := moves st;
     targets := targets st; gameState := gameState st;
     multiplierTurns := multiplierTurns st; combo := combo st;
     comboMeter := comboMeter st |}.

Definition handleCellEnter (st : AppState) (r c : nat) : AppState :=
  if bool_decide (gameState st ≠ playing) then st
  else setSelection st (extendSelection (grid st) (selection st) r c).

Definition handlePointerDown (st : AppState) (r c : nat) : AppState :=
  if bool_decide (gameState st ≠ playing) || negb (bool_decide (is_Some (cellAt (grid st) r c)))
  then st
  else
    {| level := level st; grid := grid st; selection := [mkCoord r c];
       isDragging := true; score := score st; moves := moves st;
       targets := targets st; gameState := gameState st;
       multiplierTurns := multiplierTurns st; combo := combo st;
       comboMeter := comboMeter st |}.

(** [handlePointerMove], when the pointer is over the cell [(r, c)]. *)
Definition handlePointerMove (st : AppState) (r c : nat) : AppState :=
  if negb (isDragging st) || bool_decide (gameState st ≠ playing) then st
  else handleCellEnter st r c.

Definition hasPowerup (g : Grid) (p : PowerupType) (s : Coord) : bool :=
  match cellAt g (cr s) (cc s) with
  | Some ball => bool_decide (powerup ball = Some p)
  | None => false
  end.

(** The [selection.forEach] that collects powerups:
    [(addedMoves, activatedMultiplier, activatedBomb)]. *)
Definition collectPowerups (g : Grid) (sel : list Coord) : Z * bool * bool :=
  foldl (λ '(addedMoves, activatedMultiplier, activatedBomb) s,
           (if hasPowerup g pmoves s then addedMoves + 3 else addedMoves,
            if hasPowerup g pmultiplier s then true else activatedMultiplier,
            if hasPowerup g pbomb s then true else activatedBomb))
        (0, false, false) sel.

(** The cells [(r, c)] in the order of the two nested loops of the bomb. *)
Definition allCells : list Coord :=
  r ← seq 0 ROWS; c ← seq 0 COLS; [mkCoord r c].

Definition bombStep (g : Grid) (chainColor : BallColor)
  (finalSelection : list Coord) (s : Coord) : list Coord :=
  match cellAt g (cr s) (cc s) with
  | Some b =>
      if bool_decide (color b = chainColor)
         && negb (inSelection finalSelection (cr s) (cc s))
      then finalSelection ++ [s]
      else finalSelection
  | None => finalSelection
  end.

(** [finalSelection]: the chain, and with a bomb every tile of the chain
    color. *)
Definition finalSelectionOf (g : Grid) (sel : list Coord) : list Coord :=
  let '(_, _, activatedBomb) := collectPowerups g sel in
  match chainColorOf g sel with
  | Some chainColor =>
      if activatedBomb then foldl (bombStep g chainColor) sel allCells else sel
  | None => sel
  end.

Definition isBonus (finalSelection : list Coord) : bool :=
  (5 <=? length finalSelection)%nat.

Definition isSuperBonus (finalSelection : list Coord) : bool :=
  (10 <=? length finalSelection)%nat.

(** [Math.min(25, 10 + (finalSelection.length - 3) * 5)] *)
Definition comboIncrement (finalSelection : list Coord) : Z :=
  Z.min 25 (10 + (Z.of_nat (length finalSelection) - 3) * 5).

(** [newValue >= 100] in the updater of [setComboMeter]. *)
Definition comboBreakout (prev : Z) (finalSelection : list Coord) : bool :=
  100 <=? prev + comboIncrement finalSelection.

Definition rainbowBall (rng : Rng) : Ball :=
  {| ball_id := "rainbow-" +:+ rng_now rng; color := rainbow; powerup := None |}.

Definition specialBall (rng : Rng) : Ball :=
  {| ball_id := "special-" +:+ rng_now rng; color := special; powerup := None |}.

(** The grid after the removal and the placement of the reward tile, as it
    is handed to [applyGravity]. *)
Definition clearedGrid (rng : Rng) (g : Grid) (sel : list Coord) : Grid :=
  let finalSelection := finalSelectionOf g sel in
  let newGrid := clearCells g finalSelection in
  match last sel with
  | Some lastSelected =>
      if isSuperBonus finalSelection
      then setCell newGrid (cr lastSelected) (cc lastSelected) (Some (rainbowBall rng))
      else if isBonus finalSelection
      then setCell newGrid (cr lastSelected) (cc lastSelected) (Some (specialBall rng))
      else newGrid
  | None => newGrid
  end.

(** [finalSelection.some(s => grid[s.r][s.c]?.color === k)] *)
Definition usedColor (g : Grid) (k : BallColor) (finalSelection : list Coord) : bool :=
  existsb (λ s, match cellAt g (cr s) (cc s) with
                | Some b => bool_decide (color b = k)
                | None => false
                end) finalSelection.

(** [baseScore * bonusMultiplier] *)
Definition scoreDelta (multiplierTurns : Z) (activatedMultiplier : bool)
  (finalSelection : list Coord) : Z :=
  let baseScore := Z.of_nat (length finalSelection) * 10 in
  let bonusMultiplier :=
    if isSuperBonus finalSelection then 4
    else if isBonus finalSelection then 2 else 1 in
  let bonusMultiplier :=
    if (0 <? multiplierTurns) || activatedMultiplier
    then bonusMultiplier * 2 else bonusMultiplier in
  baseScore * bonusMultiplier.

(** [moves - 1 + addedMoves], with the [+1] of a super bonus. *)
Definition newMovesOf (moves : Z) (g : Grid) (sel : list Coord) : Z :=
  let '(addedMoves, _, _) := collectPowerups g sel in
  let addedMoves :=
    if isSuperBonus (finalSelectionOf g sel) then addedMoves + 1 else addedMoves in
  moves - 1 + addedMoves.

(** The body of the updater passed to [setTargets], up to the win check. *)
Definition updateTargets (g : Grid) (finalSelection : list Coord)
  (chainColor : option BallColor) (prev : gmap BallColor Z) : gmap BallColor Z :=
  let n := Z.of_nat (length finalSelection) in
  if usedColor g rainbow finalSelection then
    (λ t, Z.max 0 (t - n)) <$> prev
  else
    match chainColor with
    | Some k =>
        match prev !! k with
        | Some t =>
            let multiplier := if usedColor g special finalSelection then 2 else 1 in
            <[k := Z.max 0 (t - n * multiplier)]> prev
        | None => prev
        end
    | None => prev
    end.

(** The branch of [handlePointerUp] that resolves a match. *)
Definition commitSelection (rng : Rng) (st : AppState) : AppState :=
  let g := grid st in
  let sel := selection st in
  let chainColor := chainColorOf g sel in
  let '(_, activatedMultiplier, _) := collectPowerups g sel in
  let finalSelection := finalSelectionOf g sel in
  let breakout := comboBreakout (comboMeter st) finalSelection in
  let newMoves := newMovesOf (moves st) g sel in
  let newTargets := updateTargets g finalSelection chainColor (targets st) in
  {| level := level st;
     grid := applyGravity rng (clearedGrid rng g sel);
     selection := [];
     isDragging := false;
     score := score st
              + scoreDelta (multiplierTurns st) activatedMultiplier finalSelection
              + (if breakout then 500 else 0);
     moves := newMoves + (if breakout then 2 else 0);
     targets := newTargets;
     gameState := if isWon newTargets then levelup
                  else if newMoves <=? 0 then lost
                  else gameState st;
     multiplierTurns := if activatedMultiplier then 3
                        else if 0 <? multiplierTurns st then multiplierTurns st - 1
                        else multiplierTurns st;
     combo := combo st + 1;
     comboMeter := if breakout then 0
                   else comboMeter st + comboIncrement finalSelection |}.

(** The branch [else if (selection.length > 0)] of [handlePointerUp]. *)
Definition penalizeCombo (st : AppState) : AppState :=
  {| level := level st; grid := grid st; selection := [];
     isDragging := false; score := score st; moves := moves st;
     targets := targets st; gameState := gameState st;
     multiplierTurns := multiplierTurns st;
     combo := 0;
     comboMeter := Z.max 0 (comboMeter st - 15) |}.

(** [setIsDragging(false); setSelection([])] and nothing else. *)
Definition discardSelection (st : AppState) : AppState :=
  {| level := level st; grid := grid st; selection := [];
     isDragging := false; score := score st; moves := moves st;
     targets := targets st; gameState := gameState st;
     multiplierTurns := multiplierTurns st; combo := combo st;
     comboMeter := comboMeter st |}.

(** [grid[selection[0].r][selection[0].c]] *)
Definition firstBallOf (g : Grid) (sel : list Coord) : option Ball :=
  match sel with
  | s0 :: _ => cellAt g (cr s0) (cc s0)
  | [] => None
  end.

Definition handlePointerUp (rng : Rng) (st : AppState) : AppState :=
  if negb (isDragging st) then st
  else if (MIN_MATCH <=? length (selection st))%nat
          && bool_decide (gameState st = playing)
  then
    match firstBallOf (grid st) (selection st) with
    | Some firstBall => commitSelection rng st
    | None =>
        if (0 <? length (selection st))%nat then penalizeCombo st
        else discardSelection st
    end
  else discardSelection st.

Definition startGame (st : AppState) : AppState :=
  {| level := level st; grid := grid st; selection := selection st;
     isDragging := isDragging st; score := score st; moves := moves st;
     targets := targets st; gameState := playing;
     multiplierTurns := multiplierTurns st; combo := combo st;
     comboMeter := comboMeter st |}.

(** [newGrid] is the result of [generateGrid(ROWS, COLS)] and [procedural]
    what [generateLevelConfig] draws beyond the authored levels. *)
Definition startNextLevel (newGrid : Grid) (procedural : LevelConfig)
  (st : AppState) : AppState :=
  let nextLevel := S (level st) in
  let config := generateLevelConfig nextLevel procedural in
  {| level := nextLevel; grid := newGrid; selection := [];
     isDragging := isDragging st; score := score st;
     moves := cfg_moves config; targets := cfg_targets config;
     gameState := playing; multiplierTurns := 0; combo := combo st;
     comboMeter := comboMeter st |}.

Definition resetGame (newGrid : Grid) (procedural : LevelConfig)
  (st : AppState) : AppState :=
  let config := generateLevelConfig 0 procedural in
  {| level := 0; grid := newGrid; selection := [];
     isDragging := isDragging st; score := 0;
     moves := cfg_moves config; targets := cfg_targets config;
     gameState := playing; multiplierTurns := 0; combo := combo st;
     comboMeter := comboMeter st |}.

Definition goToHome (newGrid : Grid) (procedural : LevelConfig)
  (st : AppState) : AppState :=
  let config := generateLevelConfig 0 procedural in
  {| level := 0; grid := newGrid; selection := selection st;
     isDragging := isDragging st; score := 0;
     moves := cfg_moves config; targets := cfg_targets config;
     gameState := home; multiplierTurns := 0; combo := 0;
     comboMeter := 0 |}.

(** The events the component reacts to. *)
Inductive Event :=
| PointerDown (r c : nat)
| PointerMove (r c : nat)
| PointerUp (rng : Rng)
| StartGame
| StartNextLevel (newGrid : Grid) (procedural : LevelConfig)
| ResetGame (newGrid : Grid) (procedural : LevelConfig)
| GoToHome (newGrid : Grid) (procedural : LevelConfig).

Definition step (st : AppState) (e : Event) : AppState :=
  match e with
  | PointerDown r c => handlePointerDown st r c
  | PointerMove r c => handlePointerMove st r c
  | PointerUp rng => handlePointerUp rng st
  | StartGame => startGame st
  | StartNextLevel g cfg => startNextLevel g cfg st
  | ResetGame g cfg => resetGame g cfg st
  | GoToHome g cfg => goToHome g cfg st
  end.

Definition run (st : AppState) (es : list Event) : AppState := foldl step st es.

(** The state of the first render; [g0] is [generateGrid(ROWS, COLS)]. *)
Definition initialState (g0 : Grid) (procedural : LevelConfig) : AppState :=
  let config := generateLevelConfig 0 procedural in
  {| level := 0; grid := g0; selection := []; isDragging := false;
     score := 0; moves := cfg_moves config; targets := cfg_targets config;
     gameState := home; multiplierTurns := 0; combo := 0; comboMeter := 0 |}.

(** An event that starts or restarts a level. *)
Definition isLevelEvent (e : Event) : bool :=
  match e with
  | StartNextLevel _ _ | ResetGame _ _ | GoToHome _ _ => true
  | _ => false
  end.

(** A state of the first level on the board [g], in phase [phase], with no
    selection. *)
Definition initialStateOf (g : Grid) (phase : Phase) : AppState :=
  {| level := 0; grid := g; selection := []; isDragging := false;
     score := 0; moves := 20; targets := <[yellow := 10]> (<[red := 10]> ∅);
     gameState := phase; multiplierTurns := 0; combo := 0; comboMeter := 0 |}.

End Power.

(** * The variant of [src/App.tsx]: levels, one bonus threshold

    Its [BallColor] has the five base colors only and its [Ball] no
    [powerup] field: its tiles are the tiles above with a base color and
    [powerup := None].  Its [applyGravity] is the one above. *)
Module Basic.

Record AppState := mkApp {
  level : nat;
  grid : Grid;
  selection : list Coord;
  isDragging : bool;
  score : Z;
  moves : Z;
  targets : gmap BallColor Z;
  gameState : Phase;
}.

(** [grid[prev[0].r][prev[0].c]] *)
Definition firstBallOf (g : Grid) (sel : list Coord) : option Ball :=
  match sel with
  | s0 :: _ => cellAt g (cr s0) (cc s0)
  | [] => None
  end.

(** The updater that [handleCellEnter] passes to [setSelection]. *)
Definition extendSelection (g : Grid) (prev : list Coord) (r c : nat)
  : list Coord :=
  match last prev with
  | None => prev
  | Some lst =>
      if isBacktrack prev r c then dropLast prev
      else if inSelection prev r c then prev
      else if isAdjacent lst r c then
        match cellAt g r c, firstBallOf g prev with
        | Some ball, Some firstBall =>
            if bool_decide (color ball = color firstBall)
            then prev ++ [mkCoord r c]
            else prev
        | _, _ => prev
        end
      else prev
  end.

Definition setSelection (st : AppState) (sel : list Coord) : AppState :=
  {| level := level st; grid := grid st; selection := sel;
     isDragging := isDragging st; score := score st; moves := moves st;
     targets := targets st; gameState := gameState st |}.

Definition handleCellEnter (st : AppState) (r c : nat) : AppState :=
  if bool_decide (gameState st ≠ playing) then st
  else setSelection st (extendSelection (grid st) (selection st) r c).

Definition handlePointerDown (st : AppState) (r c : nat) : AppState :=
  if bool_decide (gameState st ≠ playing) || negb (bool_decide (is_Some (cellAt (grid st) r c)))
  then st
  else
    {| level := level st; grid := grid st; selection := [mkCoord r c];
       isDragging := true; score := score st; moves := moves st;
       targets := targets st; gameState := gameState st |}.

Definition handlePointerMove (st : AppState) (r c : nat) : AppState :=
  if negb (isDragging st) || bool_decide (gameState st ≠ playing) then st
  else handleCellEnter st r c.

(** [const isBonus = selection.length > 5] *)
Definition isBonus (sel : list Coord) : bool := (5 <? length sel)%nat.

(** [baseScore * bonusMultiplier] *)
Definition scoreDelta (sel : list Coord) : Z :=
  Z.of_nat (length sel) * 10 * (if isBonus sel then 2 else 1).

(** The body of the updater passed to [setTargets], up to the win check. *)
Definition updateTargets (k : BallColor) (sel : list Coord)
  (prev : gmap BallColor Z) : gmap BallColor Z :=
  match prev !! k with
  | Some t => <[k := Z.max 0 (t - Z.of_nat (length sel))]> prev
  | None => prev
  end.

Definition commitSelection (rng : Rng) (firstBall : Ball) (st : AppState)
  : AppState :=
  let sel := selection st in
  let newMoves := moves st - 1 in
  let newTargets := updateTargets (color firstBall) sel (targets st) in
  {| level := level st;
     grid := applyGravity rng (clearCells (grid st) sel);
     selection := [];
     isDragging := false;
     score := score st + scoreDelta sel;
     moves := newMoves;
     targets := newTargets;
     gameState := if isWon newTargets then
                    (if (level st <? length LEVELS - 1)%nat then levelup else won)
                  else if newMoves <=? 0 then lost
                  else gameState st |}.

Definition discardSelection (st : AppState) : AppState :=
  {| level := level st; grid := grid st; selection := [];
     isDragging := false; score := score st; moves := moves st;
     targets := targets st; gameState := gameState st |}.

Definition handlePointerUp (rng : Rng) (st : AppState) : AppState :=
  if negb (isDragging st) then st
  else if (MIN_MATCH <=? length (selection st))%nat
          && bool_decide (gameState st = playing)
  then
    match firstBallOf (grid st) (selection st) with
    | Some firstBall => commitSelection rng firstBall st
    | None => discardSelection st
    end
  else discardSelection st.

Definition startGame (st : AppState) : AppState :=
  {| level := level st; grid := grid st; selection := selection st;
     isDragging := isDragging st; score := score st; moves := moves st;
     targets := targets st; gameState := playing |}.

(** [LEVELS[nextLevel].moves] throws past the last level, after [setLevel]
    and [setGrid] have been queued. *)
Definition startNextLevel (newGrid : Grid) (st : AppState) : AppState :=
  let nextLevel := S (level st) in
  match LEVELS !! nextLevel with
  | Some config =>
      {| level := nextLevel; grid := newGrid; selection := [];
         isDragging := isDragging st; score := score st;
         moves := cfg_moves config; targets := cfg_targets config;
         gameState := playing |}
  | None =>
      {| level := nextLevel; grid := newGrid; selection := selection st;
         isDragging := isDragging st; score := score st; moves := moves st;
         targets := targets st; gameState := gameState st |}
  end.

(** [LEVELS[0]] *)
Definition level0 : LevelConfig := default (mkLevel 0 ∅) (LEVELS !! 0%nat).

Definition resetGame (newGrid : Grid) (st : AppState) : AppState :=
  {| level := 0; grid := newGrid; selection := [];
     isDragging := isDragging st; score := 0;
     moves := cfg_moves level0; targets := cfg_targets level0;
     gameState := playing |}.

Definition goToHome (newGrid : Grid) (st : AppState) : AppState :=
  {| level := 0; grid := newGrid; selection := selection st;
     isDragging := isDragging st; score := 0;
     moves := cfg_moves level0; targets := cfg_targets level0;
     gameState := home |}.

Inductive Event :=
| PointerDown (r c : nat)
| PointerMove (r c : nat)
| PointerUp (rng : Rng)
| StartGame
| StartNextLevel (newGrid : Grid)
| ResetGame (newGrid : Grid)
| GoToHome (newGrid : Grid).

Definition step (st : AppState) (e : Event) : AppState :=
  match e with
  | PointerDown r c => handlePointerDown st r c
  | PointerMove r c => handlePointerMove st r c
  | PointerUp rng => handlePointerUp rng st
  | StartGame => startGame st
  | StartNextLevel g => startNextLevel g st
  | ResetGame g => resetGame g st
  | GoToHome g => goToHome g st
  end.

Definition isLevelEvent (e : Event) : bool :=
  match e with
  | StartNextLevel _ | ResetGame _ | GoToHome _ => true
  | _ => false
  end.

End Basic.

(** ** Predicates of the statements *)

(** King-move adjacency of two cells: row and column deltas at most 1, and
    not the same cell. *)
Definition kingAdjacent (a b : Coord) : Prop :=
  Z.abs (Z.of_nat (cr a) - Z.of_nat (cr b)) ≤ 1
  ∧ Z.abs (Z.of_nat (cc a) - Z.of_nat (cc b)) ≤ 1
  ∧ a ≠ b.

(** Consecutive elements of a chain are king-adjacent. *)
Fixpoint chainLinked (sel : list Coord) : Prop :=
  match sel with
  | a :: (b :: _) as rest => kingAdjacent a b ∧ chainLinked rest
  | _ => True
  end.

(** Every element of the chain is an occupied cell of the grid. *)
Definition allOccupied (g : Grid) (sel : list Coord) : Prop :=
  Forall (λ s, is_Some (cellAt g (cr s) (cc s))) sel.

(** All tiles of the chain that are neither [rainbow] nor [special] have
    one color. *)
Definition oneColor (g : Grid) (sel : list Coord) : Prop :=
  ∀ s1 s2 b1 b2, s1 ∈ sel → s2 ∈ sel →
    cellAt g (cr s1) (cc s1) = Some b1 → cellAt g (cr s2) (cc s2) = Some b2 →
    Power.isWild (color b1) = false → Power.isWild (color b2) = false →
    color b1 = color b2.

(** Every tile of the chain has the color of the tile of its first cell. *)
Definition colorOfFirst (g : Grid) (sel : list Coord) : Prop :=
  ∀ s b, s ∈ sel → cellAt g (cr s) (cc s) = Some b →
    ∃ firstBall, Basic.firstBallOf g sel = Some firstBall
                 ∧ color b = color firstBall.

(** The invariant of a selection. *)
Definition validChain (g : Grid) (sel : list Coord) : Prop :=
  chainLinked sel ∧ NoDup sel ∧ allOccupied g sel ∧ oneColor g sel.

(** A chain of plain tiles of color [k]: occupied cells, no powerup, all of
    the base color [k]. *)
Definition plainChain (g : Grid) (k : BallColor) (sel : list Coord) : Prop :=
  Power.isWild k = false ∧
  Forall (λ s, ∃ b, cellAt g (cr s) (cc s) = Some b
                    ∧ color b = k ∧ powerup b = None) sel.

(** What gravity and refill leave in column [c] when it held [l]: fresh
    tiles in the vacated top cells, then the occupied cells of [l] in their
    order. *)
Definition settledColumn (rng : Rng) (c : nat) (l : list (option Ball))
  : list (option Ball) :=
  ((λ r, Some (freshBall rng r c)) <$> seq 0 (length l - length (occupied l)))
  ++ (Some <$> occupied l).

(** A cell of the rendered board. *)
Definition inBounds (s : Coord) : Prop := (cr s < ROWS)%nat ∧ (cc s < COLS)%nat.

(** The release of the pointer resolves a match: the handler reaches
    [commitSelection]. *)
Definition commits (st : Power.AppState) : Prop :=
  Power.isDragging st = true
  ∧ Power.gameState st = playing
  ∧ (MIN_MATCH ≤ length (Power.selection st))%nat
  ∧ is_Some (Power.firstBallOf (Power.grid st) (Power.selection st)).

(** The states in which every read and write of the grid is in range: the
    grid has the shape of the board and the selection holds cells of it. *)
Definition stableState (st : Power.AppState) : Prop :=
  wfGrid (Power.grid st) ∧ Forall inBounds (Power.selection st).

(** The events of the rendered board: pointer events carry the coordinates
    of a cell, and a new grid comes from [generateGrid(ROWS, COLS)]. *)
Definition validEvent (e : Power.Event) : Prop :=
  match e with
  | Power.PointerDown r c | Power.PointerMove r c => inBounds (mkCoord r c)
  | Power.StartNextLevel g _ | Power.ResetGame g _ | Power.GoToHome g _ => wfGrid g
  | Power.PointerUp _ | Power.StartGame => True
  end.


(** Every target of [m] is still a target in [m'], with a value that is
    not negative and not larger; no target is added. *)
Definition targetsShrink (m m' : gmap BallColor Z) : Prop :=
  ∀ k, match m !! k with
       | Some t => ∃ t', m' !! k = Some t' ∧ 0 ≤ t' ≤ t
       | None => m' !! k = None
       end.

(** The target of [k] is kept, or set to [max(0, t - d)] for some [d >= 0]. *)
Definition keptOrLowered (m m' : gmap BallColor Z) (k : BallColor) : Prop :=
  m' !! k = m !! k
  ∨ ∃ t d, 0 ≤ d ∧ m !! k = Some t ∧ m' !! k = Some (Z.max 0 (t - d)).

(** ** Sample boards

    The board of the scenario of the specification: 8 x 5, all [yellow]
    except one [red] at [(0, 0)]. *)
Definition tile (k : BallColor) : option Ball := Some (mkBall "t" k None).

Definition sampleGrid : Grid :=
  (tile red :: replicate 4 (tile yellow)) :: replicate 7 (replicate 5 (tile yellow)).

Definition sampleChain5 : list Coord :=
  [mkCoord 0 1; mkCoord 0 2; mkCoord 0 3; mkCoord 0 4; mkCoord 1 4].

Definition sampleChain10 : list Coord :=
  sampleChain5 ++ [mkCoord 1 3; mkCoord 1 2; mkCoord 1 1; mkCoord 1 0; mkCoord 2 0].

Definition sampleRng : Rng :=
  {| rng_id := λ _ _, "new"; rng_color := λ r c, (r + c)%nat; rng_now := "0" |}.

(** The pointer is down over the chain [sel] of the sample board, with the
    given multiplier turns, combo streak and combo meter. *)
Definition sampleDrag (sel : list Coord) (multiplierTurns combo comboMeter : Z)
  : Power.AppState :=
  {| Power.level := 0; Power.grid := sampleGrid; Power.selection := sel;
     Power.isDragging := true; Power.score := 0; Power.moves := 20;
     Power.targets := <[yellow := 10]> (<[red := 10]> ∅);
     Power.gameState := playing; Power.multiplierTurns := multiplierTurns;
     Power.combo := combo; Power.comboMeter := comboMeter |}.

(** The last move of a level with the targets [targets]: the pointer is
    down over the five-cell chain and one move is left. *)
Definition sampleLastMove (targets : gmap BallColor Z) : Power.AppState :=
  {| Power.level := 0; Power.grid := sampleGrid; Power.selection := sampleChain5;
     Power.isDragging := true; Power.score := 0; Power.moves := 1;
     Power.targets := targets; Power.gameState := playing;
     Power.multiplierTurns := 0; Power.combo := 0; Power.comboMeter := 0 |}.

(** The sample board with a [rainbow] tile at [(0, 0)], and the pointer
    down over a chain of three cells that starts on it. *)
Definition sampleRainbowDrag : Power.AppState :=
  {| Power.level := 0;
     Power.grid := setCell sampleGrid 0 0 (tile rainbow);
     Power.selection := [mkCoord 0 0; mkCoord 0 1; mkCoord 0 2];
     Power.isDragging := true; Power.score := 0; Power.moves := 20;
     Power.targets := <[yellow := 10]> (<[red := 10]> ∅);
     Power.gameState := playing; Power.multiplierTurns := 0;
     Power.combo := 0; Power.comboMeter := 0 |}.

(** The same release in the variant of [src/App.tsx]. *)
Definition sampleBasicDrag (sel : list Coord) : Basic.AppState :=
  {| Basic.level := 0; Basic.grid := sampleGrid; Basic.selection := sel;
     Basic.isDragging := true; Basic.score := 0; Basic.moves := 20;
     Basic.targets := <[yellow := 10]> (<[red := 10]> ∅);
     Basic.gameState := playing |}.

(** ** Grid generation, level generation and the render helpers *)

(** What [Math.random] contributes to the tile of cell [(r, c)] in
    [generateGrid]: its id, the draw of its color and the result of
    [spawnPowerup()]. *)
Record GridSource := mkGridSource {
  src_id : nat → nat → string;
  src_color : nat → nat → nat;
  src_powerup : nat → nat → option PowerupType;
}.

(** [generateGrid(rows, cols)]: the two nested loops push one tile per
    cell. *)
Definition generateGrid (src : GridSource) (rows cols : nat) : Grid :=
  (λ r, (λ c, Some {| ball_id := src_id src r c;
                      color := randomColor (src_color src r c);
                      powerup := src_powerup src r c |})
          <$> seq 0 cols)
  <$> seq 0 rows.

(** A board of the right shape without an empty cell. *)
Definition fullGrid (g : Grid) : Prop :=
  wfGrid g ∧ Forall (Forall is_Some) g.

(** The events of the rendered board whose new grids are full, as
    [generateGrid] builds them. *)
Definition fullEvent (e : Power.Event) : Prop :=
  match e with
  | Power.PointerDown r c | Power.PointerMove r c => inBounds (mkCoord r c)
  | Power.StartNextLevel g _ | Power.ResetGame g _ | Power.GoToHome g _ => fullGrid g
  | Power.PointerUp _ | Power.StartGame => True
  end.

(** [20 + Math.floor((levelIndex - LEVELS.length + 1) * 5)] *)
Definition baseTargetsOf (levelIndex : nat) : Z :=
  20 + (Z.of_nat levelIndex - Z.of_nat (length LEVELS) + 1) * 5.

(** [Math.min(5, 3 + Math.floor(levelIndex / 3))] *)
Definition numColorsOf (levelIndex : nat) : nat :=
  Nat.min 5 (3 + levelIndex / 3).

(** The [shuffledColors.forEach] of [generateLevelConfig]: [(targets,
    totalTargets)] after the colors [cs], the first of which is the [i]-th
    of the shuffled list; [draw j] is the draw of [Math.random()] for the
    [j]-th color. *)
Fixpoint assignTargets (levelIndex : nat) (draw : nat → nat) (i : nat)
  (cs : list BallColor) (acc : gmap BallColor Z * Z) : gmap BallColor Z * Z :=
  match cs with
  | [] => acc
  | k :: rest =>
      let count :=
        baseTargetsOf levelIndex / Z.of_nat (numColorsOf levelIndex)
        + Z.of_nat (draw i `mod` 5) in
      assignTargets levelIndex draw (S i) rest (<[k := count]> acc.1, acc.2 + count)
  end.

(** The part of [generateLevelConfig] past the authored levels.
    [shuffled] is [[...colors].sort(() => Math.random() - 0.5)], some
    permutation of [colors]. *)
Definition proceduralConfig (levelIndex : nat) (shuffled : list BallColor)
  (draw : nat → nat) : LevelConfig :=
  let shuffledColors := take (numColorsOf levelIndex) shuffled in
  let '(targets, totalTargets) :=
    assignTargets levelIndex draw 0 shuffledColors (∅, 0) in
  {| cfg_moves := Z.max 12 (totalTargets / 3 + 2); cfg_targets := targets |}.

(** [selection.findIndex((s) => s.r === r && s.c === c)], counting from
    [i]. *)
Fixpoint findIndexFrom (i : Z) (sel : list Coord) (r c : nat) : Z :=
  match sel with
  | [] => -1
  | s :: rest =>
      if (cr s =? r)%nat && (cc s =? c)%nat then i
      else findIndexFrom (i + 1) rest r c
  end.

Definition getSelectionIndex (sel : list Coord) (r c : nat) : Z :=
  findIndexFrom 0 sel r c.

(** [isSelected(r, c)] *)
Definition isSelected (sel : list Coord) (r c : nat) : bool := inSelection sel r c.

(** [isAdjacentToLast(r, c)] *)
Definition isAdjacentToLast (sel : list Coord) (r c : nat) : bool :=
  match last sel with
  | None => false
  | Some lst => isAdjacent lst r c
  end.

(** The ring drawn around a tile that can be connected:
    [isDragging && isAdjacentToLast(r, c) && (ball.color === 'rainbow' ||
    ball.color === 'special' || !chainColor || ball.color === chainColor)],
    for a cell that holds a tile; [getChainColor()] is the loop of
    [chainColorOf]. *)
Definition connectHint (st : Power.AppState) (r c : nat) : bool :=
  match cellAt (Power.grid st) r c with
  | None => false
  | Some ball =>
      Power.isDragging st
      && isAdjacentToLast (Power.selection st) r c
      && (Power.isWild (color ball)
          || match Power.chainColorOf (Power.grid st) (Power.selection st) with
             | None => true
             | Some chainColor => bool_decide (color ball = chainColor)
             end)
  end.

(** The number of cells of the chain whose tile has the powerup [p]. *)
Definition countPowerup (g : Grid) (p : PowerupType) (sel : list Coord) : nat :=
  length (filter (λ s, Power.hasPowerup g p s = true) sel).

(** * The variant with a required chain length per color
      ([COLOR_REQS], no moves, no phases) *)
Module Reqs.

Record AppState := mkApp {
  grid : Grid;
  selection : list Coord;
  isDragging : bool;
  score : Z;
  targets : gmap BallColor Z;
}.

(** [COLOR_REQS[color]]; this variant has the five base colors only. *)
Definition COLOR_REQS (k : BallColor) : option nat :=
  match k with
  | red => Some 4 | blue => Some 2 | yellow => Some 7 | green => Some 3
  | purple => Some 5
  | rainbow | special => None
  end%nat.

(** The first render: targets [{ yellow: 7, red: 4, blue: 2 }]. *)
Definition initialState (g0 : Grid) : AppState :=
  {| grid := g0; selection := []; isDragging := false; score := 0;
     targets := <[yellow := 7]> (<[red := 4]> (<[blue := 2]> ∅)) |}.

Definition handleCellEnter (st : AppState) (r c : nat) : AppState :=
  {| grid := grid st;
     selection := Basic.extendSelection (grid st) (selection st) r c;
     isDragging := isDragging st; score := score st; targets := targets st |}.

Definition handlePointerDown (st : AppState) (r c : nat) : AppState :=
  if negb (bool_decide (is_Some (cellAt (grid st) r c))) then st
  else
    {| grid := grid st; selection := [mkCoord r c]; isDragging := true;
       score := score st; targets := targets st |}.

Definition handlePointerMove (st : AppState) (r c : nat) : AppState :=
  if negb (isDragging st) then st else handleCellEnter st r c.

(** [selection.length >= req] *)
Definition meetsReq (k : BallColor) (sel : list Coord) : bool :=
  match COLOR_REQS k with
  | Some req => (req <=? length sel)%nat
  | None => false
  end.

Definition discardSelection (st : AppState) : AppState :=
  {| grid := grid st; selection := []; isDragging := false;
     score := score st; targets := targets st |}.

Definition handlePointerUp (rng : Rng) (st : AppState) : AppState :=
  if negb (isDragging st) then st
  else if (0 <? length (selection st))%nat then
    match Basic.firstBallOf (grid st) (selection st) with
    | Some firstBall =>
        if meetsReq (color firstBall) (selection st) then
          {| grid := applyGravity rng (clearCells (grid st) (selection st));
             selection := [];
             isDragging := false;
             score := score st + Z.of_nat (length (selection st)) * 10;
             targets := Basic.updateTargets (color firstBall) (selection st)
                          (targets st) |}
        else discardSelection st
    | None => discardSelection st
    end
  else discardSelection st.

(** [selectedColor ? selection.length >= COLOR_REQS[selectedColor] : false] *)
Definition isValidSelection (st : AppState) : bool :=
  match selection st with
  | [] => false
  | _ :: _ =>
      match Basic.firstBallOf (grid st) (selection st) with
      | Some firstBall => meetsReq (color firstBall) (selection st)
      | None => false
      end
  end.

End Reqs.

(** The pointer is down over the chain [sel] of the sample board in the
    variant with [COLOR_REQS]. *)
Definition sampleReqsDrag (sel : list Coord) : Reqs.AppState :=
  {| Reqs.grid := sampleGrid; Reqs.selection := sel; Reqs.isDragging := true;
     Reqs.score := 0;
     Reqs.targets := <[yellow := 7]> (<[red := 4]> (<[blue := 2]> ∅)) |}.

(** A source of tiles for [generateGrid]. *)
Definition sampleSource : GridSource :=
  {| src_id := λ _ _, "t"; src_color := λ r c, (r + 2 * c)%nat;
     src_powerup := λ r c, if (r =? c)%nat then Some pbomb else None |}.

(** The events that set the score back to 0. *)
Definition resetsScore (e : Power.Event) : bool :=
  match e with
  | Power.ResetGame _ _ | Power.GoToHome _ _ => true
  | _ => false
  end.

(** The pointer is down over the chain [sel] of the board [g], with the
    given moves, targets and combo meter. *)
Definition sampleState (g : Grid) (sel : list Coord) (moves : Z)
  (targets : gmap BallColor Z) (comboMeter : Z) : Power.AppState :=
  {| Power.level := 0; Power.grid := g; Power.selection := sel;
     Power.isDragging := true; Power.score := 0; Power.moves := moves;
     Power.targets := targets; Power.gameState := playing;
     Power.multiplierTurns := 0; Power.combo := 0;
     Power.comboMeter := comboMeter |}.

(** The sample board with [special] tiles in the first three cells of the
    top row, and the chain over them. *)
Definition sampleSpecialGrid : Grid :=
  setCell (setCell (setCell sampleGrid 0 0 (tile special)) 0 1 (tile special))
    0 2 (tile special).

Definition sampleSpecialChain : list Coord :=
  [mkCoord 0 0; mkCoord 0 1; mkCoord 0 2].

(** The sample board with a bomb on the yellow tile at [(0, 1)]. *)
Definition sampleBombGrid : Grid :=
  setCell sampleGrid 0 1 (Some (mkBall "b" yellow (Some pbomb))).

(** The variant of [src/App.tsx] one release away from finishing the first
    level: the only target left is 5 yellow tiles. *)
Definition sampleBasicWin (sel : list Coord) : Basic.AppState :=
  {| Basic.level := 0; Basic.grid := sampleGrid; Basic.selection := sel;
     Basic.isDragging := true; Basic.score := 0; Basic.moves := 20;
     Basic.targets := <[yellow := 5]> ∅; Basic.gameState := playing |}.

(** The number of cells of [fs] in column [c] below row [r]: the rows a
    tile at [(r, c)] falls when the cells of [fs] are emptied on a full
    board. *)
Definition removedBelow (fs : list Coord) (r c : nat) : nat :=
  length (filter (λ r', inSelection fs r' c = true) (seq (S r) (ROWS - S r))).

(** A chain of ten cells of the sample board that runs down column 1 and
    ends at [(6, 2)], right above its ninth cell [(7, 2)]. *)
Definition sampleChainFalling : list Coord :=
  ((λ r, mkCoord r 1) <$> seq 0 8) ++ [mkCoord 7 2; mkCoord 6 2].

(** * Grid reads and writes *)

Section grid_facts.
Implicit Types (g : Grid) (row l : list (option Ball)) (r c : nat)
  (v : option Ball).

Lemma cellAt_column g r c :
  cellAt g r c = match column g c !! r with Some x => x | None => None end.
Proof.
  unfold cellAt, column. rewrite list_lookup_fmap.
  destruct (g !! r); simpl; reflexivity.
Qed.

Lemma length_column g c : length (column g c) = length g.
Proof. unfold column. apply length_fmap. Qed.

Lemma wfGrid_row g r row : wfGrid g → g !! r = Some row → length row = COLS.
Proof.
  intros [_ Hrows] Hr. rewrite Forall_lookup in Hrows. eauto.
Qed.

Lemma wfGrid_setCell g r c v : wfGrid g → wfGrid (setCell g r c v).
Proof.
  intros [Hlen Hrows]. unfold setCell. split.
  - by rewrite length_alter.
  - rewrite Forall_lookup in Hrows. apply Forall_lookup. intros i row Hi.
    destruct (decide (i = r)) as [->|Hne].
    + rewrite list_lookup_alter_eq in Hi.
      destruct (g !! r) as [row0|] eqn:Hr; [|discriminate Hi].
      injection Hi as <-. rewrite length_insert. eauto.
    + rewrite list_lookup_alter_ne in Hi by done. eauto.
Qed.

Lemma column_setCell_other g r c c' v :
  c ≠ c' → column (setCell g r c v) c' = column g c'.
Proof.
  intros Hne. unfold column, setCell. apply list_eq. intros i.
  rewrite !list_lookup_fmap.
  destruct (decide (i = r)) as [->|Hir].
  - rewrite list_lookup_alter_eq. destruct (g !! r) as [row|]; simpl; [|done].
    unfold cellOfRow. by rewrite list_lookup_insert_ne.
  - by rewrite list_lookup_alter_ne.
Qed.

Lemma column_setCell_same g r c v :
  wfGrid g → (c < COLS)%nat →
  column (setCell g r c v) c = <[r := v]> (column g c).
Proof.
  intros Hwf Hc. unfold column, setCell. apply list_eq. intros i.
  rewrite list_lookup_fmap.
  destruct (decide (i = r)) as [->|Hir].
  - rewrite list_lookup_alter_eq.
    destruct (g !! r) as [row|] eqn:Hr; simpl.
    + rewrite list_lookup_insert_eq.
      * unfold cellOfRow. rewrite list_lookup_insert_eq; [done|].
        rewrite (wfGrid_row g r row); done.
      * rewrite length_fmap. by eapply lookup_lt_Some.
    + rewrite list_insert_ge; [by rewrite list_lookup_fmap, Hr|].
      rewrite length_fmap. by apply lookup_ge_None.
  - rewrite list_lookup_alter_ne by done.
    rewrite list_lookup_insert_ne by done. by rewrite list_lookup_fmap.
Qed.

Lemma cellAt_setCell_other g r c r' c' v :
  (r, c) ≠ (r', c') → cellAt (setCell g r c v) r' c' = cellAt g r' c'.
Proof.
  intros Hne. unfold cellAt, setCell.
  destruct (decide (r' = r)) as [->|Hr].
  - rewrite list_lookup_alter_eq. destruct (g !! r) as [row|]; simpl; [|done].
    unfold cellOfRow. rewrite list_lookup_insert_ne; [done|congruence].
  - by rewrite list_lookup_alter_ne.
Qed.

Lemma cellAt_setCell_same g r c v :
  wfGrid g → (r < ROWS)%nat → (c < COLS)%nat → cellAt (setCell g r c v) r c = v.
Proof.
  intros Hwf Hr Hc. rewrite cellAt_column, column_setCell_same by done.
  rewrite list_lookup_insert_eq; [done|].
  rewrite length_column. by rewrite (proj1 Hwf).
Qed.

Lemma cellAt_Some_bounds g r c b :
  wfGrid g → cellAt g r c = Some b → (r < ROWS)%nat ∧ (c < COLS)%nat.
Proof.
  intros Hwf. unfold cellAt, cellOfRow.
  destruct (g !! r) as [row|] eqn:Hr; [|done].
  destruct (row !! c) as [cell|] eqn:Hc; [|done]. intros _.
  pose proof (wfGrid_row g r row Hwf Hr) as Hlen.
  apply lookup_lt_Some in Hr, Hc.
  rewrite (proj1 Hwf) in Hr. rewrite Hlen in Hc. done.
Qed.
End grid_facts.

(** * Gravity and refill: the result, column by column *)

Section gravity_facts.
Variable rng : Rng.
Implicit Types (g : Grid) (l pre : list (option Ball)) (r c e : nat).

Lemma occupied_snoc_None pre : occupied (pre ++ [None]) = occupied pre.
Proof. unfold occupied. rewrite omap_app. simpl. by rewrite app_nil_r. Qed.

Lemma occupied_snoc_Some pre b :
  occupied (pre ++ [Some b]) = occupied pre ++ [b].
Proof. unfold occupied. by rewrite omap_app. Qed.

Lemma occupied_length pre : (length (occupied pre) ≤ length pre)%nat.
Proof.
  induction pre as [|[b|] pre IH]; simpl; [lia| |];
    unfold occupied in *; simpl; lia.
Qed.

Lemma occupied_fmap_Some (bs : list Ball) : occupied (Some <$> bs) = bs.
Proof.
  unfold occupied. induction bs as [|b bs IH]; [done|]. cbn. by f_equal.
Qed.

(** One ball falls over [e] empty cells. *)
Lemma fall_one pre (b : Ball) e (rest : list (option Ball)) :
  (0 < e)%nat →
  <[length pre := None]>
    (<[(length pre + e)%nat := Some b]>
       (pre ++ [Some b] ++ replicate e None ++ rest))
  = pre ++ replicate e None ++ Some b :: rest.
Proof.
  intros He. destruct e as [|e]; [lia|].
  rewrite replicate_S_end.
  replace (pre ++ [Some b] ++ (replicate e None ++ [None]) ++ rest)
    with ((pre ++ Some b :: replicate e None) ++ None :: rest)
    by (rewrite <- !app_assoc; reflexivity).
  replace (length pre + S e)%nat
    with (length (pre ++ Some b :: replicate e (@None Ball)) + 0)%nat
    by (rewrite length_app; simpl; rewrite length_replicate; lia).
  rewrite insert_app_r. simpl.
  rewrite <- app_assoc. simpl.
  replace (length pre) with (length pre + 0)%nat at 1 by lia.
  rewrite insert_app_r. simpl. f_equal.
  change (None :: replicate e None ++ Some b :: rest)
    with (replicate (S e) None ++ Some b :: rest).
  rewrite replicate_S_end. by rewrite <- !app_assoc.
Qed.

Lemma compactColumn_spec pre : ∀ g e (done : list Ball) c,
  wfGrid g → (c < COLS)%nat →
  column g c = pre ++ replicate e None ++ (Some <$> done) →
  ∃ g',
    compactColumn c (length pre) g e
      = (g', (e + (length pre - length (occupied pre)))%nat)
    ∧ wfGrid g'
    ∧ column g' c
      = replicate (e + (length pre - length (occupied pre))) None
        ++ (Some <$> (occupied pre ++ done))
    ∧ ∀ c', c' ≠ c → column g' c' = column g c'.
Proof.
  induction pre as [|x pre IH] using rev_ind; intros g e done c Hwf Hc Hcol.
  - exists g. simpl. rewrite Nat.add_0_r. done.
  - assert (Hlen : length (pre ++ [x]) = S (length pre))
      by (rewrite length_app; simpl; lia).
    pose proof (occupied_length pre) as Hocc.
    rewrite Hlen. simpl.
    assert (Hx : cellAt g (length pre) c = x).
    { rewrite cellAt_column, Hcol, <- app_assoc. simpl.
      by rewrite list_lookup_middle. }
    rewrite Hx. destruct x as [b|].
    + rewrite occupied_snoc_Some, length_app. simpl.
      destruct (0 <? e)%nat eqn:He.
      * apply Nat.ltb_lt in He.
        set (g2 := setCell (setCell g (length pre + e) c (Some b)) (length pre) c None).
        assert (Hwf2 : wfGrid g2) by (by do 2 apply wfGrid_setCell).
        destruct (IH g2 e (b :: done) c Hwf2 Hc) as (g' & Hrun & Hwf' & Hcol' & Hoth).
        { unfold g2. rewrite !column_setCell_same by (done || by apply wfGrid_setCell).
          rewrite Hcol, <- app_assoc. apply fall_one. done. }
        exists g'. split_and!; [|done| |].
        -- rewrite Hrun. f_equal. lia.
        -- rewrite Hcol'. rewrite <- app_assoc. simpl. f_equal. f_equal. lia.
        -- intros c' Hc'. rewrite Hoth by done. unfold g2.
           by rewrite !column_setCell_other.
      * apply Nat.ltb_ge in He. assert (e = 0)%nat as -> by lia.
        destruct (IH g 0%nat (b :: done) c Hwf Hc) as (g' & Hrun & Hwf' & Hcol' & Hoth).
        { rewrite Hcol, <- app_assoc. done. }
        exists g'. split_and!; [|done| |done].
        -- rewrite Hrun. f_equal. lia.
        -- rewrite Hcol'. rewrite <- app_assoc. simpl. f_equal. f_equal. lia.
    + rewrite occupied_snoc_None.
      destruct (IH g (S e) done c Hwf Hc) as (g' & Hrun & Hwf' & Hcol' & Hoth).
      { rewrite Hcol, <- app_assoc. simpl. done. }
      exists g'. split_and!; [|done| |done].
      * rewrite Hrun. f_equal. lia.
      * rewrite Hcol'. f_equal. f_equal. lia.
Qed.

Lemma refillColumn_spec n : ∀ r g (filled mid rest : list (option Ball)) c,
  wfGrid g → (c < COLS)%nat → length filled = r → length mid = n →
  column g c = filled ++ mid ++ rest →
  wfGrid (refillColumn rng c n r g)
  ∧ column (refillColumn rng c n r g) c
    = filled ++ ((λ i, Some (freshBall rng i c)) <$> seq r n) ++ rest
  ∧ ∀ c', c' ≠ c → column (refillColumn rng c n r g) c' = column g c'.
Proof.
  induction n as [|n IH]; intros r g filled mid rest c Hwf Hc Hr Hn Hcol.
  - destruct mid; [|done]. simpl. by rewrite Hcol.
  - destruct mid as [|x mid]; [done|]. simpl in Hn. simpl.
    set (v := Some (freshBall rng r c)).
    destruct (IH (S r) (setCell g r c v) (filled ++ [v]) mid rest c)
      as (Hwf' & Hcol' & Hoth).
    + by apply wfGrid_setCell.
    + done.
    + rewrite length_app. simpl. lia.
    + lia.
    + rewrite column_setCell_same, Hcol by done.
      replace r with (length filled + 0)%nat by lia.
      rewrite insert_app_r. simpl. by rewrite <- app_assoc.
    + split_and!; [done| |].
      * rewrite Hcol', <- app_assoc. done.
      * intros c' Hc'. rewrite Hoth by done. by rewrite column_setCell_other.
Qed.

Lemma gravityColumn_spec g c :
  wfGrid g → (c < COLS)%nat →
  wfGrid (gravityColumn rng g c)
  ∧ column (gravityColumn rng g c) c = settledColumn rng c (column g c)
  ∧ ∀ c', c' ≠ c → column (gravityColumn rng g c) c' = column g c'.
Proof.
  intros Hwf Hc. unfold gravityColumn.
  destruct (compactColumn_spec (column g c) g 0%nat [] c Hwf Hc)
    as (g1 & Hrun & Hwf1 & Hcol1 & Hoth1).
  { simpl. by rewrite app_nil_r. }
  rewrite length_column, (proj1 Hwf) in Hrun. rewrite Hrun.
  rewrite length_column in Hcol1. simpl in Hcol1. rewrite app_nil_r in Hcol1.
  destruct (refillColumn_spec (length g - length (occupied (column g c))) 0%nat
              g1 [] (replicate (length g - length (occupied (column g c))) None)
              (Some <$> occupied (column g c)) c)
    as (Hwf2 & Hcol2 & Hoth2); try done.
  { by rewrite length_replicate. }
  rewrite (proj1 Hwf) in *. simpl.
  split_and!; [done| |].
  - rewrite Hcol2. unfold settledColumn. by rewrite length_column, (proj1 Hwf).
  - intros c' Hc'. rewrite Hoth2 by done. by apply Hoth1.
Qed.

Lemma gravity_fold cs : ∀ g,
  wfGrid g → NoDup cs → Forall (λ c, (c < COLS)%nat) cs →
  wfGrid (foldl (gravityColumn rng) g cs)
  ∧ ∀ c, column (foldl (gravityColumn rng) g cs) c
         = if decide (c ∈ cs) then settledColumn rng c (column g c)
           else column g c.
Proof.
  induction cs as [|c0 cs IH]; intros g Hwf Hnd Hlt.
  - split; [done|]. intros c. case_decide; [set_solver|done].
  - apply NoDup_cons in Hnd as [Hc0 Hnd]. apply Forall_cons in Hlt as [Hc0lt Hlt].
    destruct (gravityColumn_spec g c0 Hwf Hc0lt) as (Hwf1 & Hcol1 & Hoth1).
    destruct (IH (gravityColumn rng g c0) Hwf1 Hnd Hlt) as [Hwf2 Hcols].
    simpl. split; [done|]. intros c. rewrite Hcols.
    destruct (decide (c = c0)) as [->|Hne].
    + rewrite (decide_False (P := c0 ∈ cs)) by done.
      rewrite (decide_True (P := c0 ∈ c0 :: cs)) by (apply elem_of_cons; by left).
      done.
    + rewrite Hoth1 by done. destruct (decide (c ∈ cs)) as [Hin|Hin].
      * rewrite (decide_True (P := c ∈ c0 :: cs)); [done|].
        apply elem_of_cons. by right.
      * rewrite (decide_False (P := c ∈ c0 :: cs)); [done|].
        intros [?|?]%elem_of_cons; done.
Qed.

Lemma applyGravity_columns g :
  wfGrid g →
  wfGrid (applyGravity rng g)
  ∧ ∀ c, (c < COLS)%nat →
         column (applyGravity rng g) c = settledColumn rng c (column g c).
Proof.
  intros Hwf. unfold applyGravity.
  destruct (gravity_fold (seq 0 COLS) g Hwf) as [Hwf' Hcols].
  - apply NoDup_seq.
  - apply Forall_forall. intros c Hin. apply elem_of_seq in Hin. lia.
  - split; [done|]. intros c Hc. rewrite Hcols.
    rewrite decide_True; [done|]. apply elem_of_seq. lia.
Qed.

Lemma freshBall_base r c :
  color (freshBall rng r c) ∈ colors ∧ powerup (freshBall rng r c) = None.
Proof.
  split; [|done]. unfold freshBall. cbn [color]. unfold randomColor.
  change (length colors) with 5%nat.
  pose proof (Nat.mod_upper_bound (rng_color rng r c) 5 ltac:(lia)) as Hlt.
  set (i := (rng_color rng r c `mod` 5)%nat) in *. clearbody i.
  destruct i as [|[|[|[|[|n]]]]]; [..|lia];
    unfold colors; cbn; rewrite !elem_of_cons; tauto.
Qed.
End gravity_facts.

(** * Gravity and refill leave a full, stably compacted board *)

(** C4. For every grid of the board's shape, after [applyGravity] no cell
    of any column is empty, and each column holds, top row first, freshly
    generated tiles in the vacated cells (as many as the column had empty
    cells) followed by the tiles the column held before, in their order;
    the fresh tiles have one of the five base colors. *)
Theorem applyGravity_full_and_stable (rng : Rng) (g : Grid) :
  wfGrid g →
  wfGrid (applyGravity rng g)
  ∧ (∀ r c, (r < ROWS)%nat → (c < COLS)%nat →
       is_Some (cellAt (applyGravity rng g) r c))
  ∧ (∀ c, (c < COLS)%nat →
       column (applyGravity rng g) c
       = ((λ r, Some (freshBall rng r c))
            <$> seq 0 (ROWS - length (occupied (column g c))))
         ++ (Some <$> occupied (column g c)))
  ∧ (∀ r c, color (freshBall rng r c) ∈ colors).
Proof.
  intros Hwf. destruct (applyGravity_columns rng g Hwf) as [Hwf' Hcols].
  split_and!; [done| | |].
  - intros r c Hr Hc. rewrite cellAt_column.
    destruct (column (applyGravity rng g) c !! r) as [x|] eqn:Hx.
    + rewrite Hcols in Hx by done. unfold settledColumn in Hx.
      apply lookup_app_Some in Hx as [Hx|[_ Hx]];
        apply list_lookup_fmap_Some in Hx as (y & -> & _); by eexists.
    + apply lookup_ge_None in Hx. rewrite length_column, (proj1 Hwf') in Hx. lia.
  - intros c Hc. rewrite Hcols by done. unfold settledColumn.
    by rewrite length_column, (proj1 Hwf).
  - intros r c. apply freshBall_base.
Qed.

Lemma wfGrid_sampleGrid : wfGrid sampleGrid.
Proof. split; [reflexivity|]. unfold sampleGrid. simpl. repeat constructor. Qed.

Lemma applyGravity_full_and_stable_witness :
  wfGrid (clearCells sampleGrid sampleChain5)
  ∧ ∀ r c, (r < ROWS)%nat → (c < COLS)%nat →
      is_Some (cellAt (applyGravity sampleRng (clearCells sampleGrid sampleChain5)) r c).
Proof.
  assert (Hwf : wfGrid (clearCells sampleGrid sampleChain5)).
  { split; [reflexivity|]. vm_compute. repeat constructor. }
  split; [exact Hwf|].
  exact (proj1 (proj2 (applyGravity_full_and_stable sampleRng _ Hwf))).
Defined.

(** * The selection state machine *)

Section selection_facts.
Implicit Types (g : Grid) (sel prev : list Coord) (r c : nat).

Lemma last_Some_snoc prev lst :
  last prev = Some lst → ∃ init, prev = init ++ [lst].
Proof.
  destruct prev as [|x prev _] using rev_ind; [done|].
  rewrite last_snoc. intros [= ->]. by eexists.
Qed.

Lemma dropLast_snoc sel x : dropLast (sel ++ [x]) = sel.
Proof.
  unfold dropLast. rewrite length_app. simpl.
  replace (length sel + 1 - 1)%nat with (length sel) by lia.
  by rewrite take_app_length.
Qed.

Lemma inSelection_false sel r c :
  inSelection sel r c = false → mkCoord r c ∉ sel.
Proof.
  unfold inSelection. intros Hex Hin.
  assert (existsb (λ s, (cr s =? r)%nat && (cc s =? c)%nat) sel = true) as Ht.
  { apply existsb_exists. exists (mkCoord r c). split.
    - by apply list_elem_of_In.
    - simpl. by rewrite !Nat.eqb_refl. }
  congruence.
Qed.

Lemma isAdjacent_king lst r c :
  isAdjacent lst r c = true → kingAdjacent lst (mkCoord r c).
Proof.
  unfold isAdjacent, kingAdjacent. simpl.
  rewrite !andb_true_iff, negb_true_iff, andb_false_iff.
  intros [[Hr Hc] Hne]. apply Z.leb_le in Hr, Hc.
  split_and!; [done..|]. intros ->. simpl in Hne.
  rewrite !Nat.eqb_refl in Hne. by destruct Hne.
Qed.

Lemma chainLinked_snoc sel x :
  chainLinked sel → (∀ y, last sel = Some y → kingAdjacent y x) →
  chainLinked (sel ++ [x]).
Proof.
  induction sel as [|a [|b sel] IH]; intros Hl Hlast; simpl.
  - done.
  - split; [|done]. by apply Hlast.
  - destruct Hl as [Hab Hl]. split; [done|]. apply IH; [done|].
    intros y Hy. apply Hlast. done.
Qed.

Lemma chainLinked_init sel x : chainLinked (sel ++ [x]) → chainLinked sel.
Proof.
  induction sel as [|a [|b sel] IH]; simpl; [done..|].
  intros [Hab Hl]. split; [done|]. by apply IH.
Qed.

Lemma chainColorOf_Some g sel k :
  Power.chainColorOf g sel = Some k →
  ∃ s b, s ∈ sel ∧ cellAt g (cr s) (cc s) = Some b
         ∧ Power.isWild (color b) = false ∧ color b = k.
Proof.
  induction sel as [|s sel IH]; simpl; [done|].
  destruct (cellAt g (cr s) (cc s)) as [b|] eqn:Hb.
  - destruct (Power.isWild (color b)) eqn:Hw.
    + intros (s' & b' & Hin & H')%IH. exists s', b'. split; [by right|done].
    + intros [= <-]. exists s, b. split; [by left|done].
  - intros (s' & b' & Hin & H')%IH. exists s', b'. split; [by right|done].
Qed.

Lemma chainColorOf_None g sel :
  Power.chainColorOf g sel = None →
  ∀ s b, s ∈ sel → cellAt g (cr s) (cc s) = Some b →
         Power.isWild (color b) = true.
Proof.
  induction sel as [|s sel IH]; simpl; intros Hnone s' b' Hin Hb'.
  - by apply elem_of_nil in Hin.
  - apply elem_of_cons in Hin as [->|Hin].
    + rewrite Hb' in Hnone. by destruct (Power.isWild (color b')).
    + destruct (cellAt g (cr s) (cc s)) as [b|];
        [destruct (Power.isWild (color b)); [|done]|]; by eapply IH.
Qed.

Lemma validChain_init g sel x : validChain g (sel ++ [x]) → validChain g sel.
Proof.
  intros (Hl & Hnd & Hocc & Hone). split_and!.
  - by eapply chainLinked_init.
  - by apply NoDup_app in Hnd as (? & _ & _).
  - by apply Forall_app in Hocc as [? _].
  - intros s1 s2 b1 b2 H1 H2. apply Hone; apply elem_of_app; by left.
Qed.

(** Appending a cell that the checks of [handleCellEnter] accept. *)
Lemma validChain_snoc g sel lst r c ball :
  validChain g sel → last sel = Some lst →
  inSelection sel r c = false → isAdjacent lst r c = true →
  cellAt g r c = Some ball →
  (Power.isWild (color ball) = false →
   ∀ s b, s ∈ sel → cellAt g (cr s) (cc s) = Some b →
          Power.isWild (color b) = false → color b = color ball) →
  validChain g (sel ++ [mkCoord r c]).
Proof.
  intros (Hl & Hnd & Hocc & Hone) Hlast Hnew Hadj Hball Hcol. split_and!.
  - apply chainLinked_snoc; [done|]. intros y Hy.
    rewrite Hlast in Hy. injection Hy as <-. by apply isAdjacent_king.
  - apply NoDup_app. split_and!; [done| |apply NoDup_singleton].
    intros x Hx ->%list_elem_of_singleton.
    by apply (inSelection_false sel r c).
  - apply Forall_app. split; [done|]. apply Forall_singleton. simpl.
    rewrite Hball. by eexists.
  - intros s1 s2 b1 b2 [H1| ->%list_elem_of_singleton]%elem_of_app
      [H2| ->%list_elem_of_singleton]%elem_of_app; simpl; intros Hb1 Hb2 Hw1 Hw2.
    + exact (Hone s1 s2 b1 b2 H1 H2 Hb1 Hb2 Hw1 Hw2).
    + rewrite Hball in Hb2. injection Hb2 as <-.
      exact (Hcol Hw2 s1 b1 H1 Hb1 Hw1).
    + rewrite Hball in Hb1. injection Hb1 as <-. symmetry.
      exact (Hcol Hw1 s2 b2 H2 Hb2 Hw2).
    + congruence.
Qed.

Lemma extendSelection_valid g prev r c :
  validChain g prev → validChain g (Power.extendSelection g prev r c).
Proof.
  intros Hv. unfold Power.extendSelection.
  destruct (last prev) as [lst|] eqn:Hlast; [|done].
  destruct (isBacktrack prev r c).
  { destruct (last_Some_snoc prev lst Hlast) as [init ->].
    rewrite dropLast_snoc. by eapply validChain_init. }
  destruct (inSelection prev r c) eqn:Hin; [done|].
  destruct (isAdjacent lst r c) eqn:Hadj; [|done].
  destruct (cellAt g r c) as [ball|] eqn:Hball; [|done].
  destruct (Power.isWild (color ball)) eqn:Hwild.
  { eapply validChain_snoc; try done. intros Hf. congruence. }
  destruct (Power.chainColorOf g prev) as [targetColor|] eqn:Hcc.
  - case_bool_decide as Hcol; [|done].
    eapply validChain_snoc; try done. intros _ s b Hs Hb Hw.
    destruct (chainColorOf_Some g prev targetColor Hcc) as (s' & b' & Hs' & Hb' & Hw' & <-).
    rewrite Hcol. destruct Hv as (_ & _ & _ & Hone).
    exact (Hone s s' b b' Hs Hs' Hb Hb' Hw Hw').
  - eapply validChain_snoc; try done. intros _ s b Hs Hb Hw.
    rewrite (chainColorOf_None g prev Hcc s b Hs Hb) in Hw. done.
Qed.

Lemma extendSelection_cases g prev r c :
  prev ≠ [] →
  (Power.extendSelection g prev r c = dropLast prev ∧ (2 ≤ length prev)%nat)
  ∨ Power.extendSelection g prev r c = prev ++ [mkCoord r c]
  ∨ Power.extendSelection g prev r c = prev.
Proof.
  intros Hne. unfold Power.extendSelection.
  destruct (last prev) as [lst|]; [|by right; right].
  destruct (isBacktrack prev r c) eqn:Hb.
  { left. split; [done|]. unfold isBacktrack in Hb.
    apply andb_true_iff in Hb as [Hb _]. apply Nat.ltb_lt in Hb. lia. }
  destruct (inSelection prev r c); [by right; right|].
  destruct (isAdjacent lst r c); [|by right; right].
  destruct (cellAt g r c) as [ball|]; [|by right; right].
  destruct (Power.isWild (color ball)); [by right; left|].
  destruct (Power.chainColorOf g prev); [|by right; left].
  case_bool_decide; [by right; left|by right; right].
Qed.

Lemma basic_extendSelection_cases g prev r c :
  prev ≠ [] →
  (Basic.extendSelection g prev r c = dropLast prev ∧ (2 ≤ length prev)%nat)
  ∨ Basic.extendSelection g prev r c = prev ++ [mkCoord r c]
  ∨ Basic.extendSelection g prev r c = prev.
Proof.
  intros Hne. unfold Basic.extendSelection.
  destruct (last prev) as [lst|]; [|by right; right].
  destruct (isBacktrack prev r c) eqn:Hb.
  { left. split; [done|]. unfold isBacktrack in Hb.
    apply andb_true_iff in Hb as [Hb _]. apply Nat.ltb_lt in Hb. lia. }
  destruct (inSelection prev r c); [by right; right|].
  destruct (isAdjacent lst r c); [|by right; right].
  destruct (cellAt g r c) as [ball|]; [|by right; right].
  destruct (Basic.firstBallOf g prev) as [firstBall|]; [|by right; right].
  case_bool_decide; [by right; left|by right; right].
Qed.

Lemma cases_nonempty prev (next : list Coord) x :
  prev ≠ [] →
  (next = dropLast prev ∧ (2 ≤ length prev)%nat) ∨ next = prev ++ [x] ∨ next = prev →
  (1 ≤ length next)%nat.
Proof.
  intros Hne [[-> Hlen]|[->| ->]].
  - unfold dropLast. rewrite length_take. lia.
  - rewrite length_app. simpl. lia.
  - destruct prev; [done|simpl; lia].
Qed.
End selection_facts.

Lemma validChain_singleton (g : Grid) (r c : nat) :
  is_Some (cellAt g r c) → validChain g [mkCoord r c].
Proof.
  intros Hocc. split_and!.
  - done.
  - apply NoDup_singleton.
  - by apply Forall_singleton.
  - intros s1 s2 b1 b2 ->%list_elem_of_singleton ->%list_elem_of_singleton.
    congruence.
Qed.

Lemma power_enter_cells (cells : list Coord) : ∀ st : Power.AppState,
  Power.gameState st = playing → Power.selection st ≠ [] →
  validChain (Power.grid st) (Power.selection st) →
  let st' := foldl (λ s x, Power.handleCellEnter s (cr x) (cc x)) st cells in
  Power.grid st' = Power.grid st
  ∧ Power.selection st' ≠ []
  ∧ validChain (Power.grid st) (Power.selection st').
Proof.
  induction cells as [|x cells IH]; intros st Hplay Hne Hv; simpl; [done|].
  set (st1 := Power.handleCellEnter st (cr x) (cc x)).
  assert (Hst1 : st1 = Power.setSelection st
            (Power.extendSelection (Power.grid st) (Power.selection st) (cr x) (cc x))).
  { unfold st1, Power.handleCellEnter. rewrite bool_decide_false; [done|].
    intros Hn. by apply Hn. }
  destruct (IH st1) as (Hg & Hne' & Hv').
  - by rewrite Hst1.
  - rewrite Hst1. simpl. intros Hnil.
    pose proof (cases_nonempty _ _ _ Hne
      (extendSelection_cases (Power.grid st) _ (cr x) (cc x) Hne)) as Hlen.
    rewrite Hnil in Hlen. simpl in Hlen. lia.
  - rewrite Hst1. simpl. by apply extendSelection_valid.
  - cbv zeta in *. split_and!; [|done|].
    + rewrite Hg, Hst1. done.
    + rewrite Hst1 in Hv' at 1. done.
Qed.

(** C5. A chain started by [handlePointerDown] on an occupied cell while
    playing and extended by any sequence of [handleCellEnter] events stays
    a valid chain of the (unchanged) grid: consecutive elements are
    king-adjacent, no element occurs twice, every element is an occupied
    cell, and all tiles that are neither [rainbow] nor [special] have one
    color. *)
Theorem selection_is_valid_chain (st : Power.AppState) (r0 c0 : nat)
  (cells : list Coord) :
  wfGrid (Power.grid st) → Forall inBounds cells →
  Power.gameState st = playing → is_Some (cellAt (Power.grid st) r0 c0) →
  let st' := foldl (λ s x, Power.handleCellEnter s (cr x) (cc x))
               (Power.handlePointerDown st r0 c0) cells in
  Power.grid st' = Power.grid st
  ∧ Power.selection st' ≠ []
  ∧ validChain (Power.grid st) (Power.selection st').
Proof.
  intros _ _ Hplay Hocc.
  assert (Hdown : Power.handlePointerDown st r0 c0
    = {| Power.level := Power.level st; Power.grid := Power.grid st;
         Power.selection := [mkCoord r0 c0]; Power.isDragging := true;
         Power.score := Power.score st; Power.moves := Power.moves st;
         Power.targets := Power.targets st; Power.gameState := Power.gameState st;
         Power.multiplierTurns := Power.multiplierTurns st;
         Power.combo := Power.combo st; Power.comboMeter := Power.comboMeter st |}).
  { unfold Power.handlePointerDown.
    rewrite bool_decide_false by (intros Hn; by apply Hn).
    by rewrite bool_decide_true. }
  rewrite Hdown. clear Hdown.
  match goal with |- context [foldl _ ?s _] => set (st1 := s) end.
  apply (power_enter_cells cells st1); unfold st1; simpl; [done|done|].
  by apply validChain_singleton.
Qed.

Lemma selection_is_valid_chain_witness :
  wfGrid sampleGrid
  ∧ Forall inBounds [mkCoord 0 2; mkCoord 0 0; mkCoord 1 3; mkCoord 0 2; mkCoord 1 1]
  ∧ validChain sampleGrid
      (Power.selection
         (foldl (λ s x, Power.handleCellEnter s (cr x) (cc x))
            (Power.handlePointerDown
               (Power.initialStateOf sampleGrid playing) 0 1)
            [mkCoord 0 2; mkCoord 0 0; mkCoord 1 3; mkCoord 0 2; mkCoord 1 1])).
Proof.
  assert (Hwf : wfGrid sampleGrid).
  { split; [reflexivity|]. vm_compute. repeat constructor. }
  assert (Hb : Forall inBounds
            [mkCoord 0 2; mkCoord 0 0; mkCoord 1 3; mkCoord 0 2; mkCoord 1 1]).
  { repeat constructor; vm_compute; lia. }
  split_and!; [exact Hwf|exact Hb|].
  refine (proj2 (proj2 (selection_is_valid_chain
    (Power.initialStateOf sampleGrid playing) 0 1 _ Hwf Hb eq_refl _))).
  vm_compute. by eexists.
Defined.

(** C10. [handleCellEnter] never empties a chain: it drops the last
    element only of a chain of at least two elements, and otherwise appends
    the entered cell or leaves the chain as it is; a non-empty chain stays
    non-empty. *)
Theorem handleCellEnter_keeps_chain_nonempty (st : Power.AppState) (r c : nat) :
  Power.selection st ≠ [] →
  let prev := Power.selection st in
  let next := Power.selection (Power.handleCellEnter st r c) in
  ((next = dropLast prev ∧ (2 ≤ length prev)%nat)
   ∨ next = prev ++ [mkCoord r c]
   ∨ next = prev)
  ∧ (1 ≤ length next)%nat.
Proof.
  intros Hne prev next.
  assert (Hcases : (next = dropLast prev ∧ (2 ≤ length prev)%nat)
                   ∨ next = prev ++ [mkCoord r c] ∨ next = prev).
  { unfold next, Power.handleCellEnter. case_bool_decide.
    - by right; right.
    - simpl. by apply extendSelection_cases. }
  split; [done|]. by eapply cases_nonempty.
Qed.

Lemma handleCellEnter_keeps_chain_nonempty_witness :
  [mkCoord 0 1; mkCoord 0 2] ≠ []
  ∧ (1 ≤ length (Power.selection (Power.handleCellEnter
          (Power.setSelection (Power.initialStateOf sampleGrid playing)
             [mkCoord 0 1; mkCoord 0 2]) 0 1)))%nat.
Proof.
  split; [discriminate|].
  refine (proj2 (handleCellEnter_keeps_chain_nonempty
    (Power.setSelection (Power.initialStateOf sampleGrid playing)
       [mkCoord 0 1; mkCoord 0 2]) 0 1 _)).
  discriminate.
Defined.

(** The same in the variant of [src/App.tsx]. *)
Lemma basic_handleCellEnter_keeps_chain_nonempty (st : Basic.AppState) (r c : nat) :
  Basic.selection st ≠ [] →
  let prev := Basic.selection st in
  let next := Basic.selection (Basic.handleCellEnter st r c) in
  ((next = dropLast prev ∧ (2 ≤ length prev)%nat)
   ∨ next = prev ++ [mkCoord r c]
   ∨ next = prev)
  ∧ (1 ≤ length next)%nat.
Proof.
  intros Hne prev next.
  assert (Hcases : (next = dropLast prev ∧ (2 ≤ length prev)%nat)
                   ∨ next = prev ++ [mkCoord r c] ∨ next = prev).
  { unfold next, Basic.handleCellEnter. case_bool_decide.
    - by right; right.
    - simpl. by apply basic_extendSelection_cases. }
  split; [done|]. by eapply cases_nonempty.
Qed.

(** * Resolution of a match *)

Section commit_facts.
Implicit Types (g : Grid) (sel : list Coord) (st : Power.AppState).

Lemma handlePointerUp_commits rng st :
  commits st → Power.handlePointerUp rng st = Power.commitSelection rng st.
Proof.
  intros (Hdrag & Hplay & Hlen & [b Hb]). unfold Power.handlePointerUp.
  rewrite Hdrag, (proj2 (Nat.leb_le _ _) Hlen), bool_decide_true by done.
  cbn [negb andb]. by rewrite Hb.
Qed.

Lemma plainChain_cell g k sel s :
  plainChain g k sel → s ∈ sel →
  ∃ b, cellAt g (cr s) (cc s) = Some b ∧ color b = k ∧ powerup b = None.
Proof. intros [_ Hall] Hin. rewrite Forall_forall in Hall. by apply Hall. Qed.

Lemma plainChain_tail g k s sel : plainChain g k (s :: sel) → plainChain g k sel.
Proof. intros [Hk Hall]. split; [done|]. by apply Forall_cons in Hall as [_ ?]. Qed.

Lemma plainChain_hasPowerup g k sel s p :
  plainChain g k sel → s ∈ sel → Power.hasPowerup g p s = false.
Proof.
  intros Hp Hin. destruct (plainChain_cell g k sel s Hp Hin) as (b & Hb & _ & Hpu).
  unfold Power.hasPowerup. rewrite Hb, Hpu. by apply bool_decide_false.
Qed.

Lemma collectPowerups_plain g k sel :
  plainChain g k sel → Power.collectPowerups g sel = (0, false, false).
Proof.
  unfold Power.collectPowerups. generalize (0, false, false).
  induction sel as [|s sel IH]; intros acc Hp; simpl; [done|].
  destruct acc as [[addedMoves activatedMultiplier] activatedBomb].
  rewrite !(plainChain_hasPowerup g k (s :: sel) s) by (done || by left).
  apply IH. by eapply plainChain_tail.
Qed.

Lemma chainColorOf_plain g k sel :
  plainChain g k sel → sel ≠ [] → Power.chainColorOf g sel = Some k.
Proof.
  intros Hp Hne. destruct sel as [|s sel]; [done|]. simpl.
  destruct (plainChain_cell g k (s :: sel) s Hp) as (b & Hb & Hk & _); [by left|].
  rewrite Hb, Hk. by rewrite (proj1 Hp).
Qed.

Lemma finalSelectionOf_plain g k sel :
  plainChain g k sel → Power.finalSelectionOf g sel = sel.
Proof.
  intros Hp. unfold Power.finalSelectionOf.
  rewrite (collectPowerups_plain g k sel Hp).
  by destruct (Power.chainColorOf g sel).
Qed.

Lemma usedColor_plain g k k' sel :
  plainChain g k sel → k' ≠ k → Power.usedColor g k' sel = false.
Proof.
  intros Hp Hne. unfold Power.usedColor.
  induction sel as [|s sel IH]; simpl; [done|].
  destruct (plainChain_cell g k (s :: sel) s Hp) as (b & Hb & Hk & _); [by left|].
  rewrite Hb, Hk, bool_decide_false by done. simpl.
  apply IH. by eapply plainChain_tail.
Qed.

Lemma plainChain_not_wild g k sel :
  plainChain g k sel → k ≠ rainbow ∧ k ≠ special.
Proof.
  intros [Hk _]. unfold Power.isWild in Hk.
  apply orb_false_iff in Hk as [H1 H2].
  apply bool_decide_eq_false in H1, H2. done.
Qed.

Lemma plainChain_commits st k :
  Power.isDragging st = true → Power.gameState st = playing →
  plainChain (Power.grid st) k (Power.selection st) →
  (MIN_MATCH ≤ length (Power.selection st))%nat → commits st.
Proof.
  intros Hd Hplay Hp Hlen. split_and!; [done..|].
  destruct (Power.selection st) as [|s sel] eqn:Hsel; [simpl in Hlen; unfold MIN_MATCH in Hlen; lia|].
  destruct (plainChain_cell _ k _ s Hp) as (b & Hb & _); [by left|].
  simpl. rewrite Hb. by eexists.
Qed.

(** The state after the commit of a chain of plain tiles. *)
Lemma commit_plain_score rng st k :
  plainChain (Power.grid st) k (Power.selection st) → commits st →
  Power.score (Power.handlePointerUp rng st)
  = Power.score st
    + Power.scoreDelta (Power.multiplierTurns st) false (Power.selection st)
    + (if Power.comboBreakout (Power.comboMeter st) (Power.selection st)
       then 500 else 0).
Proof.
  intros Hp Hc. rewrite handlePointerUp_commits by done.
  unfold Power.commitSelection.
  rewrite (collectPowerups_plain _ k _ Hp), (finalSelectionOf_plain _ k _ Hp).
  reflexivity.
Qed.

Lemma commit_plain_moves rng st k :
  plainChain (Power.grid st) k (Power.selection st) → commits st →
  Power.moves (Power.handlePointerUp rng st)
  = Power.moves st - 1
    + (if Power.isSuperBonus (Power.selection st) then 1 else 0)
    + (if Power.comboBreakout (Power.comboMeter st) (Power.selection st)
       then 2 else 0).
Proof.
  intros Hp Hc. rewrite handlePointerUp_commits by done.
  unfold Power.commitSelection, Power.newMovesOf.
  rewrite (collectPowerups_plain _ k _ Hp), (finalSelectionOf_plain _ k _ Hp).
  simpl. destruct (Power.isSuperBonus (Power.selection st)); lia.
Qed.

Lemma commit_plain_targets rng st k :
  plainChain (Power.grid st) k (Power.selection st) → commits st →
  Power.targets (Power.handlePointerUp rng st)
  = match Power.targets st !! k with
    | Some t => <[k := Z.max 0 (t - Z.of_nat (length (Power.selection st)))]>
                  (Power.targets st)
    | None => Power.targets st
    end.
Proof.
  intros Hp Hc. rewrite handlePointerUp_commits by done.
  destruct (plainChain_not_wild _ _ _ Hp) as [Hr Hs].
  assert (Hne : Power.selection st ≠ []).
  { destruct Hc as (_ & _ & Hlen & _). intros Hnil. rewrite Hnil in Hlen.
    simpl in Hlen. unfold MIN_MATCH in Hlen. lia. }
  unfold Power.commitSelection.
  rewrite (collectPowerups_plain _ k _ Hp), (finalSelectionOf_plain _ k _ Hp).
  simpl. unfold Power.updateTargets.
  rewrite (usedColor_plain _ k rainbow _ Hp), (usedColor_plain _ k special _ Hp),
    (chainColorOf_plain _ k _ Hp) by done.
  destruct (Power.targets st !! k); [|done]. by rewrite Z.mul_1_r.
Qed.
End commit_facts.

Lemma plainChain_sample5 : plainChain sampleGrid yellow sampleChain5.
Proof.
  split; [reflexivity|].
  repeat (constructor; [exists (mkBall "t" yellow None); by vm_compute|]).
  constructor.
Qed.

Lemma plainChain_sample10 : plainChain sampleGrid yellow sampleChain10.
Proof.
  split; [reflexivity|].
  repeat (constructor; [exists (mkBall "t" yellow None); by vm_compute|]).
  constructor.
Qed.

(** C1, as amended.  In the variant with tiers, the commit of a chain of
    exactly five plain tiles of one color has [isBonus] and not
    [isSuperBonus], and adds [5 * 10 * 2 = 100] points, doubled while a
    score multiplier is active ([multiplierTurns > 0]), plus the 500 of a
    combo breakout when the meter reaches 100; with no active multiplier
    and a meter below 80 it adds exactly 100.  [isBonus] holds exactly
    when the final removal set has at least five cells. *)
Theorem five_chain_is_bonus_tier (rng : Rng) (st : Power.AppState) (k : BallColor) :
  wfGrid (Power.grid st) →
  Power.isDragging st = true → Power.gameState st = playing →
  plainChain (Power.grid st) k (Power.selection st) →
  length (Power.selection st) = 5%nat →
  let finalSelection :=
    Power.finalSelectionOf (Power.grid st) (Power.selection st) in
  let st' := Power.handlePointerUp rng st in
  finalSelection = Power.selection st
  ∧ Power.isBonus finalSelection = true
  ∧ Power.isSuperBonus finalSelection = false
  ∧ Power.score st'
    = Power.score st
      + 100 * (if 0 <? Power.multiplierTurns st then 2 else 1)
      + (if 100 <=? Power.comboMeter st + 20 then 500 else 0)
  ∧ (Power.multiplierTurns st ≤ 0 → Power.comboMeter st < 80 →
     Power.score st' = Power.score st + 100)
  ∧ ∀ fs, Power.isBonus fs = true ↔ (5 ≤ length fs)%nat.
Proof.
  intros _ Hd Hplay Hp Hlen finalSelection st'.
  assert (Hc : commits st).
  { eapply plainChain_commits; try done. rewrite Hlen. unfold MIN_MATCH. lia. }
  assert (Hfs : finalSelection = Power.selection st)
    by (by eapply finalSelectionOf_plain).
  assert (Hscore : Power.score st'
    = Power.score st
      + 100 * (if 0 <? Power.multiplierTurns st then 2 else 1)
      + (if 100 <=? Power.comboMeter st + 20 then 500 else 0)).
  { unfold st'. rewrite (commit_plain_score rng st k Hp Hc).
    unfold Power.scoreDelta, Power.comboBreakout, Power.comboIncrement,
      Power.isSuperBonus, Power.isBonus.
    rewrite Hlen. simpl.
    destruct (0 <? Power.multiplierTurns st); simpl; reflexivity. }
  split_and!.
  - done.
  - rewrite Hfs. unfold Power.isBonus. by rewrite Hlen.
  - rewrite Hfs. unfold Power.isSuperBonus. by rewrite Hlen.
  - done.
  - intros Hm Hcm. rewrite Hscore.
    rewrite (proj2 (Z.ltb_ge _ _)) by lia.
    rewrite (proj2 (Z.leb_gt _ _)) by lia. lia.
  - intros fs. unfold Power.isBonus. apply Nat.leb_le.
Qed.

Lemma five_chain_is_bonus_tier_witness :
  wfGrid sampleGrid
  ∧ plainChain sampleGrid yellow sampleChain5
  ∧ Power.score (Power.handlePointerUp sampleRng (sampleDrag sampleChain5 0 0 0))
    = 100.
Proof.
  assert (Hwf : wfGrid sampleGrid).
  { split; [reflexivity|]. vm_compute. repeat constructor. }
  split_and!; [exact Hwf|exact plainChain_sample5|].
  refine (proj1 (proj2 (proj2 (proj2 (proj2
    (five_chain_is_bonus_tier sampleRng (sampleDrag sampleChain5 0 0 0) yellow
       Hwf eq_refl eq_refl plainChain_sample5 eq_refl))))) _ _);
    simpl; lia.
Defined.

(** While a score multiplier is active the five-cell chain of the sample
    board adds 200 points; and in the variant of [src/App.tsx] the same
    chain adds 50. *)
Lemma five_chain_with_multiplier_adds_200 :
  let st := sampleDrag sampleChain5 2 0 0 in
  let bst := sampleBasicDrag sampleChain5 in
  commits st
  ∧ plainChain (Power.grid st) yellow (Power.selection st)
  ∧ length (Power.selection st) = 5%nat
  ∧ Power.score (Power.handlePointerUp sampleRng st) = Power.score st + 200
  ∧ Power.score (Power.handlePointerUp sampleRng st) ≠ Power.score st + 100
  ∧ Basic.score (Basic.handlePointerUp sampleRng bst) = Basic.score bst + 50.
Proof.
  split_and!.
  - split_and!; [reflexivity..| |vm_compute; by eexists].
    vm_compute. lia.
  - exact plainChain_sample5.
  - reflexivity.
  - by vm_compute.
  - by vm_compute.
  - by vm_compute.
Qed.

(** In the variant of [src/App.tsx] the bonus needs more than five cells:
    a chain of exactly five adds 50 points. *)
Lemma basic_five_chain_adds_50 (rng : Rng) (st : Basic.AppState) :
  Basic.isDragging st = true → Basic.gameState st = playing →
  is_Some (Basic.firstBallOf (Basic.grid st) (Basic.selection st)) →
  length (Basic.selection st) = 5%nat →
  Basic.score (Basic.handlePointerUp rng st) = Basic.score st + 50.
Proof.
  intros Hd Hplay [b Hb] Hlen. unfold Basic.handlePointerUp.
  rewrite Hd, Hlen, Hplay, Hb. simpl.
  unfold Basic.scoreDelta, Basic.isBonus. rewrite Hlen. simpl. lia.
Qed.

(** C2, as amended.  The commit of a chain of [L >= 3] plain tiles of a
    color with an active target lowers that target by [min t L], leaves
    every other target as it is, and changes the moves by
    [-1], [+1] when [L >= 10] (super bonus) and [+2] on a combo breakout;
    so by exactly [-1] when [L < 10] and the combo meter stays below 100. *)
Theorem plain_commit_target_and_moves (rng : Rng) (st : Power.AppState)
  (k : BallColor) (t : Z) :
  wfGrid (Power.grid st) →
  Power.isDragging st = true → Power.gameState st = playing →
  plainChain (Power.grid st) k (Power.selection st) →
  (3 ≤ length (Power.selection st))%nat →
  Power.targets st !! k = Some t →
  let L := Z.of_nat (length (Power.selection st)) in
  let increment := Z.min 25 (10 + (L - 3) * 5) in
  let st' := Power.handlePointerUp rng st in
  Power.targets st' !! k = Some (t - Z.min t L)
  ∧ (∀ k', k' ≠ k → Power.targets st' !! k' = Power.targets st !! k')
  ∧ Power.moves st'
    = Power.moves st - 1
      + (if 10 <=? L then 1 else 0)
      + (if 100 <=? Power.comboMeter st + increment then 2 else 0)
  ∧ (L < 10 → Power.comboMeter st + increment < 100 →
     Power.moves st' = Power.moves st - 1).
Proof.
  intros _ Hd Hplay Hp Hlen Ht L increment st'.
  assert (Hc : commits st) by (by eapply plainChain_commits).
  assert (Hmoves : Power.moves st'
    = Power.moves st - 1
      + (if 10 <=? L then 1 else 0)
      + (if 100 <=? Power.comboMeter st + increment then 2 else 0)).
  { unfold st'. rewrite (commit_plain_moves rng st k Hp Hc).
    unfold Power.isSuperBonus, Power.comboBreakout, Power.comboIncrement.
    fold L. fold increment. f_equal. f_equal.
    destruct (10 <=? length (Power.selection st))%nat eqn:E.
    - apply Nat.leb_le in E. rewrite (proj2 (Z.leb_le _ _)); [done|]. unfold L. lia.
    - apply Nat.leb_gt in E. rewrite (proj2 (Z.leb_gt _ _)); [done|]. unfold L. lia. }
  unfold st'. rewrite (commit_plain_targets rng st k Hp Hc), Ht. split_and!.
  - rewrite lookup_insert_eq. f_equal. fold L. lia.
  - intros k' Hk'. by rewrite lookup_insert_ne.
  - done.
  - intros HL Hcm. fold st'. rewrite Hmoves.
    rewrite (proj2 (Z.leb_gt _ _)) by lia.
    rewrite (proj2 (Z.leb_gt _ _)) by lia. lia.
Qed.

Lemma plain_commit_target_and_moves_witness :
  wfGrid sampleGrid
  ∧ plainChain sampleGrid yellow sampleChain5
  ∧ Power.targets (Power.handlePointerUp sampleRng (sampleDrag sampleChain5 0 0 0))
      !! yellow = Some (10 - Z.min 10 5)
  ∧ Power.moves (Power.handlePointerUp sampleRng (sampleDrag sampleChain5 0 0 0))
    = 20 - 1.
Proof.
  assert (Hwf : wfGrid sampleGrid).
  { split; [reflexivity|]. vm_compute. repeat constructor. }
  assert (Hlen : (3 ≤ length sampleChain5)%nat) by (simpl; lia).
  pose proof (plain_commit_target_and_moves sampleRng
    (sampleDrag sampleChain5 0 0 0) yellow 10
    Hwf eq_refl eq_refl plainChain_sample5 Hlen eq_refl) as (Ht & _ & _ & Hm).
  split_and!; [exact Hwf|exact plainChain_sample5|exact Ht|].
  apply Hm; simpl; lia.
Defined.

(** A chain of ten plain tiles gives the move back. *)
Lemma ten_chain_keeps_moves :
  let st := sampleDrag sampleChain10 0 0 0 in
  commits st
  ∧ plainChain (Power.grid st) yellow (Power.selection st)
  ∧ length (Power.selection st) = 10%nat
  ∧ is_Some (Power.targets st !! yellow)
  ∧ Power.moves (Power.handlePointerUp sampleRng st) = Power.moves st
  ∧ Power.moves (Power.handlePointerUp sampleRng st) ≠ Power.moves st - 1.
Proof.
  split_and!.
  - split_and!; [reflexivity..| |vm_compute; by eexists].
    vm_compute. lia.
  - exact plainChain_sample10.
  - reflexivity.
  - vm_compute. by eexists.
  - by vm_compute.
  - by vm_compute.
Qed.

(** In the variant of [src/App.tsx] every commit costs exactly one move and
    lowers the target of the chain's color by [min t L]. *)
Lemma basic_commit_target_and_moves (rng : Rng) (st : Basic.AppState)
  (firstBall : Ball) (t : Z) :
  Basic.isDragging st = true → Basic.gameState st = playing →
  (3 ≤ length (Basic.selection st))%nat →
  Basic.firstBallOf (Basic.grid st) (Basic.selection st) = Some firstBall →
  Basic.targets st !! color firstBall = Some t →
  let L := Z.of_nat (length (Basic.selection st)) in
  let st' := Basic.handlePointerUp rng st in
  Basic.targets st' !! color firstBall = Some (t - Z.min t L)
  ∧ (∀ k', k' ≠ color firstBall → Basic.targets st' !! k' = Basic.targets st !! k')
  ∧ Basic.moves st' = Basic.moves st - 1.
Proof.
  intros Hd Hplay Hlen Hb Ht L st'. unfold st', Basic.handlePointerUp.
  change 3%nat with MIN_MATCH in Hlen.
  rewrite Hd, (proj2 (Nat.leb_le _ _) Hlen), bool_decide_true, Hb by done.
  cbn [negb andb]. unfold Basic.commitSelection. simpl.
  unfold Basic.updateTargets. rewrite Ht. split_and!.
  - rewrite lookup_insert_eq. f_equal. fold L. lia.
  - intros k' Hk'. by rewrite lookup_insert_ne.
  - done.
Qed.

(** * Reachable states stay in range *)

Section stability.
Implicit Types (g : Grid) (sel : list Coord) (st : Power.AppState).

Local Ltac stable_split :=
  split; simpl; [try done | first [done | apply Forall_nil_2]].

Lemma wfGrid_clearCells sel : ∀ g, wfGrid g → wfGrid (clearCells g sel).
Proof.
  unfold clearCells. induction sel as [|s sel IH]; intros g Hwf; simpl; [done|].
  apply IH. by apply wfGrid_setCell.
Qed.

Lemma wfGrid_clearedGrid rng g sel : wfGrid g → wfGrid (Power.clearedGrid rng g sel).
Proof.
  intros Hwf. unfold Power.clearedGrid.
  pose proof (wfGrid_clearCells (Power.finalSelectionOf g sel) g Hwf) as Hwf'.
  destruct (last sel) as [lastSelected|]; [|done].
  destruct (Power.isSuperBonus _); [by apply wfGrid_setCell|].
  destruct (Power.isBonus _); [by apply wfGrid_setCell|done].
Qed.

Lemma extendSelection_inBounds g sel r c :
  Forall inBounds sel → inBounds (mkCoord r c) →
  Forall inBounds (Power.extendSelection g sel r c).
Proof.
  intros Hsel Hrc. destruct sel as [|s0 sel0] eqn:Hs; [done|]. rewrite <- Hs in *.
  assert (Hne : sel ≠ []) by (by rewrite Hs).
  destruct (extendSelection_cases g sel r c Hne) as [[-> _]|[->| ->]].
  - by apply Forall_take.
  - apply Forall_app. split; [done|]. by apply Forall_singleton.
  - done.
Qed.

Lemma handlePointerUp_stable rng st :
  stableState st → stableState (Power.handlePointerUp rng st).
Proof.
  intros [Hwf Hsel]. unfold Power.handlePointerUp.
  destruct (negb (Power.isDragging st)); [done|].
  destruct (_ && _); [|by stable_split].
  destruct (Power.firstBallOf _ _).
  - unfold Power.commitSelection.
    destruct (Power.collectPowerups _ _) as [[? ?] ?].
    stable_split. apply applyGravity_columns. by apply wfGrid_clearedGrid.
  - destruct (0 <? _)%nat; by stable_split.
Qed.

Lemma step_stable st e :
  stableState st → validEvent e → stableState (Power.step st e).
Proof.
  intros Hst He. destruct e as [r c|r c|rng| |newGrid cfg|newGrid cfg|newGrid cfg]; simpl in *.
  - unfold Power.handlePointerDown. destruct (_ || _); [done|].
    destruct Hst as [Hwf _]. split; simpl; [done|]. by apply Forall_singleton.
  - unfold Power.handlePointerMove. destruct (_ || _); [done|].
    unfold Power.handleCellEnter. case_bool_decide; [done|].
    destruct Hst as [Hwf Hsel]. split; simpl; [done|].
    by apply extendSelection_inBounds.
  - by apply handlePointerUp_stable.
  - done.
  - by stable_split.
  - by stable_split.
  - destruct Hst as [_ Hsel]. by stable_split.
Qed.

Lemma run_stable es : ∀ st,
  stableState st → Forall validEvent es → stableState (Power.run st es).
Proof.
  unfold Power.run. induction es as [|e es IH]; intros st Hst Hes; simpl; [done|].
  apply Forall_cons in Hes as [He Hes]. apply IH; [|done]. by apply step_stable.
Qed.

Lemma run_snoc st es e : Power.run st (es ++ [e]) = Power.step (Power.run st es) e.
Proof. unfold Power.run. by rewrite foldl_app. Qed.
End stability.

(** * The combo meter *)

Section combo_facts.
Implicit Types (g : Grid) (sel : list Coord) (st : Power.AppState).

Lemma bombStep_length g k acc s :
  (length acc ≤ length (Power.bombStep g k acc s))%nat.
Proof.
  unfold Power.bombStep. destruct (cellAt g (cr s) (cc s)); [|done].
  destruct (_ && _); [|done]. rewrite length_app. simpl. lia.
Qed.

Lemma bomb_fold_length g k cells : ∀ acc,
  (length acc ≤ length (foldl (Power.bombStep g k) acc cells))%nat.
Proof.
  induction cells as [|s cells IH]; intros acc; simpl; [done|].
  etrans; [apply (bombStep_length g k acc s)|apply IH].
Qed.

Lemma finalSelectionOf_length g sel :
  (length sel ≤ length (Power.finalSelectionOf g sel))%nat.
Proof.
  unfold Power.finalSelectionOf.
  destruct (Power.collectPowerups g sel) as [[? ?] activatedBomb].
  destruct (Power.chainColorOf g sel); [|done].
  destruct activatedBomb; [|done]. apply bomb_fold_length.
Qed.

Lemma comboIncrement_bounds (fs : list Coord) :
  (3 ≤ length fs)%nat → 10 ≤ Power.comboIncrement fs ≤ 25.
Proof. unfold Power.comboIncrement. lia. Qed.

Lemma commitSelection_comboMeter rng st :
  (MIN_MATCH ≤ length (Power.selection st))%nat →
  0 ≤ Power.comboMeter st < 100 →
  0 ≤ Power.comboMeter (Power.commitSelection rng st) < 100.
Proof.
  intros Hlen Hcm. unfold Power.commitSelection.
  destruct (Power.collectPowerups _ _) as [[? activatedMultiplier] ?]. simpl.
  unfold Power.comboBreakout.
  pose proof (finalSelectionOf_length (Power.grid st) (Power.selection st)) as Hfs.
  pose proof (comboIncrement_bounds
    (Power.finalSelectionOf (Power.grid st) (Power.selection st))) as Hinc.
  unfold MIN_MATCH in Hlen.
  destruct (100 <=? _) eqn:E; [lia|]. apply Z.leb_gt in E. lia.
Qed.

Lemma step_comboMeter st e :
  0 ≤ Power.comboMeter st < 100 → 0 ≤ Power.comboMeter (Power.step st e) < 100.
Proof.
  intros Hcm. destruct e as [r c|r c|rng| |newGrid cfg|newGrid cfg|newGrid cfg]; simpl.
  - unfold Power.handlePointerDown. by destruct (_ || _).
  - unfold Power.handlePointerMove. destruct (_ || _); [done|].
    unfold Power.handleCellEnter. by case_bool_decide.
  - unfold Power.handlePointerUp.
    destruct (negb (Power.isDragging st)); [done|].
    destruct (MIN_MATCH <=? length (Power.selection st))%nat eqn:Hlen; [|done].
    apply Nat.leb_le in Hlen.
    destruct (bool_decide _); [|done]. simpl.
    destruct (Power.firstBallOf _ _).
    + by apply commitSelection_comboMeter.
    + destruct (0 <? _)%nat; simpl; lia.
  - done.
  - done.
  - done.
  - lia.
Qed.

Lemma run_comboMeter es : ∀ st,
  0 ≤ Power.comboMeter st < 100 → 0 ≤ Power.comboMeter (Power.run st es) < 100.
Proof.
  unfold Power.run. induction es as [|e es IH]; intros st Hcm; simpl; [done|].
  apply IH. by apply step_comboMeter.
Qed.
End combo_facts.

(** From the first render on, the meter is in [0, 100). *)
Lemma reachable_comboMeter (g0 : Grid) (procedural : LevelConfig)
  (es : list Power.Event) :
  0 ≤ Power.comboMeter (Power.run (Power.initialState g0 procedural) es) < 100.
Proof. apply run_comboMeter. simpl. lia. Qed.

(** C6. From a state with the combo meter in [0, 100), after any events of
    the board the meter is in [0, 100).  A commit adds
    [min(25, 10 + (removalCount - 3) * 5)] to it; when the sum reaches 100
    the meter is reset to 0 and the commit adds 500 to the score and 2 to
    the moves on top of its score delta and its moves. *)
Theorem comboMeter_bounded_and_breakout (st0 : Power.AppState)
  (es : list Power.Event) (rng : Rng) :
  stableState st0 → Forall validEvent es →
  0 ≤ Power.comboMeter st0 < 100 →
  let st := Power.run st0 es in
  let finalSelection :=
    Power.finalSelectionOf (Power.grid st) (Power.selection st) in
  let increment :=
    Z.min 25 (10 + (Z.of_nat (length finalSelection) - 3) * 5) in
  let delta :=
    Power.scoreDelta (Power.multiplierTurns st)
      (Power.collectPowerups (Power.grid st) (Power.selection st)).1.2
      finalSelection in
  let newMoves :=
    Power.newMovesOf (Power.moves st) (Power.grid st) (Power.selection st) in
  let st' := Power.handlePointerUp rng st in
  0 ≤ Power.comboMeter st < 100
  ∧ (commits st →
     (Power.comboMeter st + increment < 100 →
        Power.comboMeter st' = Power.comboMeter st + increment
        ∧ Power.score st' = Power.score st + delta
        ∧ Power.moves st' = newMoves)
     ∧ (100 ≤ Power.comboMeter st + increment →
        Power.comboMeter st' = 0
        ∧ Power.score st' = Power.score st + delta + 500
        ∧ Power.moves st' = newMoves + 2)).
Proof.
  intros _ _ Hcm st finalSelection increment delta newMoves st'.
  split; [by apply run_comboMeter|].
  intros Hc. unfold st'. rewrite handlePointerUp_commits by done.
  unfold Power.commitSelection, Power.comboBreakout, Power.comboIncrement.
  fold finalSelection. fold increment. fold newMoves. unfold delta.
  destruct (Power.collectPowerups _ _) as [[? activatedMultiplier] ?]. simpl.
  split; intros Hsum.
  - rewrite (proj2 (Z.leb_gt _ _)) by lia. split_and!; [done|lia|lia].
  - rewrite (proj2 (Z.leb_le _ _)) by lia. done.
Qed.

Lemma comboMeter_bounded_and_breakout_witness :
  stableState (sampleDrag sampleChain5 0 0 90)
  ∧ Forall validEvent [Power.PointerMove 1 3]
  ∧ 0 ≤ Power.comboMeter
          (Power.run (sampleDrag sampleChain5 0 0 90) [Power.PointerMove 1 3]) < 100.
Proof.
  assert (Hst : stableState (sampleDrag sampleChain5 0 0 90)).
  { split; [split; [reflexivity|]; vm_compute; repeat constructor|].
    repeat constructor; vm_compute; lia. }
  assert (Hes : Forall validEvent [Power.PointerMove 1 3]).
  { repeat constructor; vm_compute; lia. }
  split; [exact Hst|]. split; [exact Hes|].
  refine (proj1 (comboMeter_bounded_and_breakout
    (sampleDrag sampleChain5 0 0 90) [Power.PointerMove 1 3] sampleRng Hst Hes _)).
  simpl. lia.
Defined.

(** A release that fills the meter: 90 + 20 reaches 100. *)
Example combo_breakout_example :
  let st' := Power.handlePointerUp sampleRng (sampleDrag sampleChain5 0 0 90) in
  Power.comboMeter st' = 0 ∧ Power.score st' = 100 + 500
  ∧ Power.moves st' = 20 - 1 + 2.
Proof. by vm_compute. Qed.

(** * Phases *)

Section phase_facts.
Implicit Types (st : Power.AppState).

Lemma commitSelection_phase rng st :
  let st' := Power.commitSelection rng st in
  let newMoves :=
    Power.newMovesOf (Power.moves st) (Power.grid st) (Power.selection st) in
  Power.gameState st'
  = (if isWon (Power.targets st') then levelup
     else if newMoves <=? 0 then lost else Power.gameState st)
  ∧ (Power.moves st' = newMoves ∨ Power.moves st' = newMoves + 2).
Proof.
  unfold Power.commitSelection.
  destruct (Power.collectPowerups _ _) as [[? activatedMultiplier] ?]. simpl.
  split; [done|]. destruct (Power.comboBreakout _ _); [right|left]; lia.
Qed.

Lemma step_lost_only_by_commit st e :
  Power.gameState (Power.step st e) = lost → Power.gameState st ≠ lost →
  ∃ rng, e = Power.PointerUp rng ∧ commits st.
Proof.
  intros Hlost Hnot.
  destruct e as [r c|r c|rng| |newGrid cfg|newGrid cfg|newGrid cfg]; simpl in Hlost.
  - unfold Power.handlePointerDown in Hlost. by destruct (_ || _).
  - unfold Power.handlePointerMove, Power.handleCellEnter in Hlost.
    destruct (_ || _); [done|]. by case_bool_decide.
  - exists rng. split; [done|]. unfold Power.handlePointerUp in Hlost.
    destruct (Power.isDragging st) eqn:Hd; cbn [negb] in Hlost; [|done].
    destruct (MIN_MATCH <=? length (Power.selection st))%nat eqn:Hlen;
      cbn [andb] in Hlost; [|done].
    case_bool_decide as Hplay; [|done].
    destruct (Power.firstBallOf _ _) as [b|] eqn:Hb.
    + split_and!; [done|done|by apply Nat.leb_le|by eexists].
    + by destruct (0 <? _)%nat.
  - done.
  - done.
  - done.
  - done.
Qed.
End phase_facts.

(** The win test of the targets updater, [Object.values(newTargets).every
    (count => count === 0)], read on the targets themselves. *)
Lemma isWon_true (t : gmap BallColor Z) :
  isWon t = true ↔ ∀ k count, t !! k = Some count → count = 0.
Proof.
  unfold isWon. rewrite bool_decide_eq_true. apply map_Forall_lookup.
Qed.

Lemma isWon_false (t : gmap BallColor Z) :
  isWon t = false ↔ ∃ k count, t !! k = Some count ∧ count ≠ 0.
Proof.
  unfold isWon. rewrite bool_decide_eq_false, map_not_Forall by apply _.
  unfold map_Exists. naive_solver.
Qed.

(** C3. When a commit resolves, the win check comes first: if every target
    is 0 after the commit the phase becomes [levelup], whatever the moves;
    if some target is still above 0 and the commit leaves no move
    ([moves - 1 + addedMoves <= 0], in particular when the moves after the
    commit are 0) the phase becomes [lost]; if some target is left and a
    move is left the phase stays [playing].  No other event makes the phase
    [lost]. *)
Theorem commit_win_check_precedes_loss (rng : Rng) (st : Power.AppState) :
  stableState st → commits st →
  let st' := Power.handlePointerUp rng st in
  let newMoves :=
    Power.newMovesOf (Power.moves st) (Power.grid st) (Power.selection st) in
  let allZero := ∀ k count, Power.targets st' !! k = Some count → count = 0 in
  let someLeft := ∃ k count, Power.targets st' !! k = Some count ∧ count ≠ 0 in
  (allZero → Power.gameState st' = levelup)
  ∧ (someLeft → Power.moves st' = 0 → Power.gameState st' = lost)
  ∧ (someLeft → newMoves ≤ 0 → Power.gameState st' = lost)
  ∧ (someLeft → 0 < newMoves → Power.gameState st' = playing)
  ∧ (∀ (s : Power.AppState) (e : Power.Event),
       Power.gameState (Power.step s e) = lost → Power.gameState s ≠ lost →
       ∃ rng', e = Power.PointerUp rng' ∧ commits s).
Proof.
  intros _ Hc st' newMoves allZero someLeft. unfold allZero, someLeft, st'.
  rewrite handlePointerUp_commits by done.
  destruct (commitSelection_phase rng st) as [Hphase Hmoves].
  fold newMoves in Hphase, Hmoves. split_and!.
  - intros Hwon%isWon_true. by rewrite Hphase, Hwon.
  - intros Hwon%isWon_false Hzero. rewrite Hphase, Hwon.
    rewrite (proj2 (Z.leb_le _ _)); [done|]. lia.
  - intros Hwon%isWon_false Hle. rewrite Hphase, Hwon.
    by rewrite (proj2 (Z.leb_le _ _)).
  - intros Hwon%isWon_false Hlt. rewrite Hphase, Hwon.
    rewrite (proj2 (Z.leb_gt _ _)) by done. by destruct Hc as (_ & -> & _).
  - intros s e. apply step_lost_only_by_commit.
Qed.

Lemma commit_win_check_precedes_loss_witness :
  (stableState (sampleLastMove (<[yellow := 5]> (<[red := 1]> ∅)))
   ∧ commits (sampleLastMove (<[yellow := 5]> (<[red := 1]> ∅)))
   ∧ Power.targets
       (Power.handlePointerUp sampleRng
          (sampleLastMove (<[yellow := 5]> (<[red := 1]> ∅)))) !! red = Some 1
   ∧ Power.moves
       (Power.handlePointerUp sampleRng
          (sampleLastMove (<[yellow := 5]> (<[red := 1]> ∅)))) = 0
   ∧ Power.gameState
       (Power.handlePointerUp sampleRng
          (sampleLastMove (<[yellow := 5]> (<[red := 1]> ∅)))) = lost)
  ∧ (stableState (sampleLastMove (<[yellow := 5]> ∅))
     ∧ commits (sampleLastMove (<[yellow := 5]> ∅))
     ∧ Power.targets
         (Power.handlePointerUp sampleRng (sampleLastMove (<[yellow := 5]> ∅)))
       !! yellow = Some 0
     ∧ Power.moves
         (Power.handlePointerUp sampleRng (sampleLastMove (<[yellow := 5]> ∅))) = 0
     ∧ Power.gameState
         (Power.handlePointerUp sampleRng (sampleLastMove (<[yellow := 5]> ∅)))
       = levelup).
Proof.
  assert (Hst : ∀ t, stableState (sampleLastMove t)).
  { intros t. split; [split; [reflexivity|]; vm_compute; repeat constructor|].
    repeat constructor; vm_compute; lia. }
  assert (Hc : ∀ t, commits (sampleLastMove t)).
  { intros t. split_and!; [reflexivity..| |vm_compute; by eexists].
    vm_compute. lia. }
  split.
  - split_and!; [apply Hst|apply Hc|by vm_compute|by vm_compute|].
    refine (proj1 (proj2 (commit_win_check_precedes_loss sampleRng _
      (Hst _) (Hc _))) _ _).
    + exists red, 1. split; [by vm_compute|lia].
    + by vm_compute.
  - split_and!; [apply Hst|apply Hc|by vm_compute|by vm_compute|].
    refine (proj1 (commit_win_check_precedes_loss sampleRng _ (Hst _) (Hc _)) _).
    intros k count Hk.
    destruct k; vm_compute in Hk; congruence.
Defined.

(** On the last move with a target left, the same release loses. *)
Example last_move_with_targets_left_loses :
  let st' := Power.handlePointerUp sampleRng
               (sampleLastMove (<[yellow := 5]> (<[red := 1]> ∅))) in
  Power.moves st' = 0 ∧ Power.gameState st' = lost.
Proof. by vm_compute. Qed.

(** The same order in the variant of [src/App.tsx], where a win is
    [levelup] before the last level and [won] on it. *)
Lemma basic_commit_win_check_precedes_loss (rng : Rng) (st : Basic.AppState) :
  Basic.isDragging st = true → Basic.gameState st = playing →
  (MIN_MATCH ≤ length (Basic.selection st))%nat →
  is_Some (Basic.firstBallOf (Basic.grid st) (Basic.selection st)) →
  let st' := Basic.handlePointerUp rng st in
  let allZero := ∀ k count, Basic.targets st' !! k = Some count → count = 0 in
  let someLeft := ∃ k count, Basic.targets st' !! k = Some count ∧ count ≠ 0 in
  Basic.moves st' = Basic.moves st - 1
  ∧ (allZero →
     Basic.gameState st'
     = if (Basic.level st <? length LEVELS - 1)%nat then levelup else won)
  ∧ (someLeft → Basic.moves st' ≤ 0 → Basic.gameState st' = lost)
  ∧ (someLeft → 0 < Basic.moves st' → Basic.gameState st' = playing).
Proof.
  intros Hd Hplay Hlen [b Hb] st' allZero someLeft.
  unfold allZero, someLeft, st', Basic.handlePointerUp.
  rewrite Hd, (proj2 (Nat.leb_le _ _) Hlen), bool_decide_true, Hb by done.
  cbn [negb andb]. unfold Basic.commitSelection. simpl. split_and!.
  - done.
  - by intros ->%isWon_true.
  - intros ->%isWon_false Hle. by rewrite (proj2 (Z.leb_le _ _)).
  - intros ->%isWon_false Hlt. by rewrite (proj2 (Z.leb_gt _ _)).
Qed.

(** * Targets *)

Section target_facts.
Implicit Types (g : Grid) (st : Power.AppState) (m : gmap BallColor Z).

Lemma updateTargets_keptOrLowered g (fs : list Coord) (chainColor : option BallColor)
  m k :
  keptOrLowered m (Power.updateTargets g fs chainColor m) k.
Proof.
  unfold keptOrLowered, Power.updateTargets.
  destruct (Power.usedColor g rainbow fs).
  - rewrite lookup_fmap. destruct (m !! k) as [t|] eqn:Hk; simpl; [|by left].
    right. exists t, (Z.of_nat (length fs)). split_and!; [lia|done|done].
  - destruct chainColor as [k0|]; [|by left].
    destruct (m !! k0) as [t|] eqn:Hk0; [|by left].
    destruct (decide (k = k0)) as [->|Hne].
    + right. rewrite lookup_insert_eq. eexists t, _. split_and!; [|done|done].
      destruct (Power.usedColor g special fs); lia.
    + left. by rewrite lookup_insert_ne.
Qed.

Lemma step_keptOrLowered st e k :
  Power.isLevelEvent e = false →
  keptOrLowered (Power.targets st) (Power.targets (Power.step st e)) k.
Proof.
  intros He.
  destruct e as [r c|r c|rng| |newGrid cfg|newGrid cfg|newGrid cfg];
    simpl in *; try done.
  - left. unfold Power.handlePointerDown. by destruct (_ || _).
  - left. unfold Power.handlePointerMove, Power.handleCellEnter.
    destruct (_ || _); [done|]. by case_bool_decide.
  - unfold Power.handlePointerUp.
    destruct (negb (Power.isDragging st)); [by left|].
    destruct (_ && _); [|by left].
    destruct (Power.firstBallOf _ _).
    + unfold Power.commitSelection.
      destruct (Power.collectPowerups _ _) as [[? ?] ?]. simpl.
      apply updateTargets_keptOrLowered.
    + destruct (0 <? _)%nat; by left.
  - by left.
Qed.

Lemma targetsShrink_refl m : map_Forall (λ _ t, 0 ≤ t) m → targetsShrink m m.
Proof.
  intros Hm k. destruct (m !! k) as [t|] eqn:Hk; [|done].
  exists t. split; [done|]. specialize (Hm k t Hk). simpl in Hm. lia.
Qed.

Lemma targetsShrink_step m m' :
  map_Forall (λ _ t, 0 ≤ t) m → (∀ k, keptOrLowered m m' k) →
  targetsShrink m m' ∧ map_Forall (λ _ t, 0 ≤ t) m'.
Proof.
  intros Hm Hstep.
  assert (Hs : targetsShrink m m').
  { intros k. destruct (Hstep k) as [Heq|(t & d & Hd & Hk & Hk')].
    - rewrite Heq. by apply targetsShrink_refl.
    - rewrite Hk. eexists. split; [done|].
      specialize (Hm k t Hk). simpl in Hm. lia. }
  split; [done|]. intros k t' Hk'. specialize (Hs k).
  destruct (m !! k) as [t|]; [|congruence].
  destruct Hs as (t'' & Ht'' & Hb). simpl. assert (t' = t'') by congruence. lia.
Qed.

Lemma targetsShrink_trans m1 m2 m3 :
  targetsShrink m1 m2 → targetsShrink m2 m3 → targetsShrink m1 m3.
Proof.
  intros H12 H23 k. specialize (H12 k). specialize (H23 k).
  destruct (m1 !! k) as [t1|].
  - destruct H12 as (t2 & H2 & Hb2). rewrite H2 in H23.
    destruct H23 as (t3 & H3 & Hb3). exists t3. split; [done|lia].
  - by rewrite H12 in H23.
Qed.

Lemma run_targetsShrink es : ∀ st,
  Forall (λ e, Power.isLevelEvent e = false) es →
  map_Forall (λ _ t, 0 ≤ t) (Power.targets st) →
  targetsShrink (Power.targets st) (Power.targets (Power.run st es)).
Proof.
  unfold Power.run. induction es as [|e es IH]; intros st Hes Hm; simpl.
  - by apply targetsShrink_refl.
  - apply Forall_cons in Hes as [He Hes].
    destruct (targetsShrink_step (Power.targets st)
                (Power.targets (Power.step st e)) Hm) as [Hs Hm'].
    { intros k. by apply step_keptOrLowered. }
    eapply targetsShrink_trans; [done|]. by apply IH.
Qed.
End target_facts.

(** C9. Within a level (no event that starts or restarts a level), from
    targets that are not negative, every target stays a target, never
    becomes negative and never grows; each event keeps a target or sets it
    to [max(0, old - d)] for some [d >= 0]. *)
Theorem targets_never_increase (st : Power.AppState) (es : list Power.Event) :
  stableState st → Forall validEvent es →
  Forall (λ e, Power.isLevelEvent e = false) es →
  map_Forall (λ _ t, 0 ≤ t) (Power.targets st) →
  (∀ k, match Power.targets st !! k with
        | Some t =>
            ∃ t', Power.targets (Power.run st es) !! k = Some t' ∧ 0 ≤ t' ≤ t
        | None => Power.targets (Power.run st es) !! k = None
        end)
  ∧ (∀ (s : Power.AppState) (e : Power.Event) (k : BallColor),
       Power.isLevelEvent e = false →
       Power.targets (Power.step s e) !! k = Power.targets s !! k
       ∨ ∃ t d, 0 ≤ d ∧ Power.targets s !! k = Some t
                ∧ Power.targets (Power.step s e) !! k = Some (Z.max 0 (t - d))).
Proof.
  intros _ _ Hes Hm. split.
  - by apply run_targetsShrink.
  - intros s e k He. by apply step_keptOrLowered.
Qed.

Lemma targets_never_increase_witness :
  stableState (sampleDrag sampleChain5 0 0 0)
  ∧ Forall validEvent [Power.PointerMove 1 3; Power.PointerUp sampleRng]
  ∧ ∃ t', Power.targets
            (Power.run (sampleDrag sampleChain5 0 0 0)
               [Power.PointerMove 1 3; Power.PointerUp sampleRng]) !! yellow
          = Some t' ∧ 0 ≤ t' ≤ 10.
Proof.
  assert (Hst : stableState (sampleDrag sampleChain5 0 0 0)).
  { split; [split; [reflexivity|]; vm_compute; repeat constructor|].
    repeat constructor; vm_compute; lia. }
  assert (Hes : Forall validEvent [Power.PointerMove 1 3; Power.PointerUp sampleRng]).
  { repeat constructor; vm_compute; lia. }
  assert (Hlv : Forall (λ e, Power.isLevelEvent e = false)
                  [Power.PointerMove 1 3; Power.PointerUp sampleRng]).
  { repeat constructor. }
  assert (Hm : map_Forall (λ _ t, 0 ≤ t)
                 (Power.targets (sampleDrag sampleChain5 0 0 0))).
  { simpl. apply map_Forall_insert_2; [lia|].
    apply map_Forall_insert_2; [lia|]. apply map_Forall_empty. }
  split; [exact Hst|]. split; [exact Hes|].
  exact (proj1 (targets_never_increase _ _ Hst Hes Hlv Hm) yellow).
Defined.

(** The same update in the variant of [src/App.tsx] (and in the earlier
    variants, whose updater has the same body). *)
Lemma basic_updateTargets_keptOrLowered (k0 : BallColor) (sel : list Coord)
  (m : gmap BallColor Z) (k : BallColor) :
  keptOrLowered m (Basic.updateTargets k0 sel m) k.
Proof.
  unfold keptOrLowered, Basic.updateTargets.
  destruct (m !! k0) as [t|] eqn:Hk0; [|by left].
  destruct (decide (k = k0)) as [->|Hne].
  - right. rewrite lookup_insert_eq. exists t, (Z.of_nat (length sel)).
    split_and!; [lia|done|done].
  - left. by rewrite lookup_insert_ne.
Qed.

(** * A release that does not resolve a match *)

(** A release of a chain shorter than [MIN_MATCH] leaves the combo streak
    and the combo meter as they are. *)
Lemma short_release_keeps_combo (rng : Rng) (st : Power.AppState) :
  (length (Power.selection st) < MIN_MATCH)%nat →
  Power.combo (Power.handlePointerUp rng st) = Power.combo st
  ∧ Power.comboMeter (Power.handlePointerUp rng st) = Power.comboMeter st.
Proof.
  intros Hlen. unfold Power.handlePointerUp.
  destruct (negb (Power.isDragging st)); [done|].
  by rewrite (proj2 (Nat.leb_gt _ _) Hlen).
Qed.

(** C7, on the code.  The pointer is released over a chain of two cells
    while the streak is 3 and the meter 50: the selection is cleared, but
    the streak is still 3 and the meter still 50 (not 0 and 35). *)
Theorem short_release_is_not_penalized :
  let st := sampleDrag [mkCoord 0 1; mkCoord 0 2] 0 3 50 in
  let st' := Power.handlePointerUp sampleRng st in
  Power.selection st' = []
  ∧ Power.isDragging st' = false
  ∧ Power.combo st' = 3
  ∧ Power.comboMeter st' = 50.
Proof. by vm_compute. Qed.

(** The penalty is reached only by a chain of at least [MIN_MATCH] cells
    whose first cell is empty. *)
Lemma release_penalty_branch (rng : Rng) (st : Power.AppState) :
  Power.isDragging st = true → Power.gameState st = playing →
  (MIN_MATCH ≤ length (Power.selection st))%nat →
  Power.firstBallOf (Power.grid st) (Power.selection st) = None →
  Power.combo (Power.handlePointerUp rng st) = 0
  ∧ Power.comboMeter (Power.handlePointerUp rng st)
    = Z.max 0 (Power.comboMeter st - 15).
Proof.
  intros Hd Hplay Hlen Hb. unfold Power.handlePointerUp.
  rewrite Hd, (proj2 (Nat.leb_le _ _) Hlen), bool_decide_true, Hb by done.
  cbn [negb andb].
  assert (Hpos : (0 <? length (Power.selection st))%nat = true).
  { apply Nat.ltb_lt. unfold MIN_MATCH in Hlen. lia. }
  by rewrite Hpos.
Qed.

(** * Reward tiles and the rainbow *)

Section reward_facts.
Implicit Types (g : Grid) (sel fs : list Coord) (s : Coord).

Lemma cellAt_setCell_coord g s s' v :
  s ≠ s' → cellAt (setCell g (cr s) (cc s) v) (cr s') (cc s') = cellAt g (cr s') (cc s').
Proof.
  intros Hne. apply cellAt_setCell_other. destruct s, s'. simpl. congruence.
Qed.

Lemma cellAt_clearCells fs : ∀ g s,
  wfGrid g → inBounds s →
  s ∈ fs ∨ cellAt g (cr s) (cc s) = None →
  cellAt (clearCells g fs) (cr s) (cc s) = None.
Proof.
  unfold clearCells. induction fs as [|s0 fs IH]; intros g s Hwf Hs Hin; simpl.
  - destruct Hin as [Hin|Hnone]; [by apply elem_of_nil in Hin|done].
  - apply IH; [by apply wfGrid_setCell|done|].
    destruct (decide (s0 = s)) as [->|Hne].
    + right. destruct Hs. by apply cellAt_setCell_same.
    + destruct Hin as [[->|Hin]%elem_of_cons|Hnone]; [done|by left|].
      right. by rewrite cellAt_setCell_coord.
Qed.

Lemma bomb_fold_inBounds g k cells : ∀ acc,
  wfGrid g → Forall inBounds acc →
  Forall inBounds (foldl (Power.bombStep g k) acc cells).
Proof.
  induction cells as [|s cells IH]; intros acc Hwf Hacc; simpl; [done|].
  apply IH; [done|]. unfold Power.bombStep.
  destruct (cellAt g (cr s) (cc s)) as [b|] eqn:Hb; [|done].
  destruct (_ && _); [|done]. apply Forall_app. split; [done|].
  apply Forall_singleton. by eapply cellAt_Some_bounds.
Qed.

Lemma finalSelectionOf_inBounds g sel :
  wfGrid g → Forall inBounds sel → Forall inBounds (Power.finalSelectionOf g sel).
Proof.
  intros Hwf Hsel. unfold Power.finalSelectionOf.
  destruct (Power.collectPowerups g sel) as [[? ?] activatedBomb].
  destruct (Power.chainColorOf g sel); [|done].
  destruct activatedBomb; [|done]. by apply bomb_fold_inBounds.
Qed.

Lemma occupied_lookup (l : list (option Ball)) (r : nat) (b : Ball) :
  l !! r = Some (Some b) → b ∈ occupied l.
Proof.
  intros Hr. unfold occupied. apply list_elem_of_omap.
  exists (Some b). split; [|done]. by eapply list_elem_of_lookup_2.
Qed.

Lemma settled_keeps rng g r c b :
  wfGrid g → (c < COLS)%nat → cellAt g r c = Some b →
  Some b ∈ column (applyGravity rng g) c.
Proof.
  intros Hwf Hc Hb.
  destruct (applyGravity_columns rng g Hwf) as [_ Hcols].
  rewrite Hcols by done. unfold settledColumn.
  apply elem_of_app. right. apply list_elem_of_fmap_2.
  apply (occupied_lookup _ r). rewrite cellAt_column in Hb.
  destruct (column g c !! r) as [[b'|]|]; congruence.
Qed.
End reward_facts.

(** A chain through a [rainbow] tile lowers both targets by its length. *)
Example rainbow_chain_lowers_every_target :
  let st := sampleRainbowDrag in
  let st' := Power.handlePointerUp sampleRng st in
  Power.targets st' !! yellow = Some 7 ∧ Power.targets st' !! red = Some 7.
Proof. by vm_compute. Qed.

(** * The selection of the variant of [src/App.tsx] *)

Section basic_selection_facts.
Implicit Types (g : Grid) (sel prev : list Coord) (r c : nat).

Lemma firstBallOf_snoc g sel x :
  sel ≠ [] → Basic.firstBallOf g (sel ++ [x]) = Basic.firstBallOf g sel.
Proof. by destruct sel. Qed.

Lemma colorOfFirst_oneColor g sel : colorOfFirst g sel → oneColor g sel.
Proof.
  intros Hf s1 s2 b1 b2 H1 H2 Hb1 Hb2 _ _.
  destruct (Hf s1 b1 H1 Hb1) as (f1 & Hf1 & ->).
  destruct (Hf s2 b2 H2 Hb2) as (f2 & Hf2 & ->). congruence.
Qed.

Lemma basic_extendSelection_valid g prev r c :
  validChain g prev → colorOfFirst g prev →
  validChain g (Basic.extendSelection g prev r c)
  ∧ colorOfFirst g (Basic.extendSelection g prev r c).
Proof.
  intros Hv Hf. unfold Basic.extendSelection.
  destruct (last prev) as [lst|] eqn:Hlast; [|done].
  destruct (last_Some_snoc prev lst Hlast) as [init Hprev].
  destruct (isBacktrack prev r c).
  { subst prev. rewrite dropLast_snoc. split; [by eapply validChain_init|].
    destruct init as [|s0 init]; [by intros s b Hs; apply elem_of_nil in Hs|].
    intros s b Hs Hb. rewrite <- (firstBallOf_snoc g (s0 :: init) lst) by done.
    apply (Hf s b); [|done]. apply elem_of_app. by left. }
  destruct (inSelection prev r c) eqn:Hin; [done|].
  destruct (isAdjacent lst r c) eqn:Hadj; [|done].
  destruct (cellAt g r c) as [ball|] eqn:Hball; [|done].
  destruct (Basic.firstBallOf g prev) as [firstBall|] eqn:Hfirst; [|done].
  case_bool_decide as Hcol; [|done].
  assert (Hne : prev ≠ []) by (subst prev; by destruct init).
  assert (Hf' : colorOfFirst g (prev ++ [mkCoord r c])).
  { intros s b [Hs| ->%list_elem_of_singleton]%elem_of_app Hb;
      rewrite firstBallOf_snoc by done.
    - by apply (Hf s b).
    - simpl in Hb. rewrite Hball in Hb. injection Hb as <-. by exists firstBall. }
  split; [|done].
  eapply validChain_snoc; try done. intros _ s b Hs Hb _.
  destruct (Hf s b Hs Hb) as (fb & Hfb & ->). congruence.
Qed.

(** C5 in the variant of [src/App.tsx]: the chain stays valid, and all its
    tiles have one color. *)
Lemma basic_selection_is_valid_chain (cells : list Coord) : ∀ st : Basic.AppState,
  Basic.gameState st = playing →
  validChain (Basic.grid st) (Basic.selection st) →
  colorOfFirst (Basic.grid st) (Basic.selection st) →
  let st' := foldl (λ s x, Basic.handleCellEnter s (cr x) (cc x)) st cells in
  Basic.grid st' = Basic.grid st
  ∧ validChain (Basic.grid st) (Basic.selection st').
Proof.
  induction cells as [|x cells IH]; intros st Hplay Hv Hf; simpl; [done|].
  set (st1 := Basic.handleCellEnter st (cr x) (cc x)).
  assert (Hst1 : st1 = Basic.setSelection st
            (Basic.extendSelection (Basic.grid st) (Basic.selection st) (cr x) (cc x))).
  { unfold st1, Basic.handleCellEnter. rewrite bool_decide_false; [done|].
    intros Hn. by apply Hn. }
  destruct (basic_extendSelection_valid (Basic.grid st) (Basic.selection st)
              (cr x) (cc x) Hv Hf) as [Hv1 Hf1].
  destruct (IH st1) as (Hg & Hv'); try (by rewrite Hst1).
  cbv zeta in *. split.
  - rewrite Hg, Hst1. done.
  - rewrite Hst1 in Hv' at 1. done.
Qed.
End basic_selection_facts.

(** * Generated grids and full boards *)

Section full_facts.
Implicit Types (g : Grid) (r c : nat).

Lemma cellAt_generateGrid (src : GridSource) (rows cols r c : nat) :
  cellAt (generateGrid src rows cols) r c
  = if decide ((r < rows)%nat ∧ (c < cols)%nat)
    then Some {| ball_id := src_id src r c;
                 color := randomColor (src_color src r c);
                 powerup := src_powerup src r c |}
    else None.
Proof.
  unfold cellAt, generateGrid, cellOfRow. rewrite list_lookup_fmap.
  destruct (decide (r < rows)%nat) as [Hr|Hr].
  - rewrite lookup_seq_lt by done. simpl. rewrite list_lookup_fmap.
    destruct (decide (c < cols)%nat) as [Hc|Hc].
    + rewrite lookup_seq_lt by done. simpl. by rewrite decide_True.
    + rewrite lookup_seq_ge by lia. simpl. rewrite decide_False; [done|lia].
  - rewrite lookup_seq_ge by lia. simpl. rewrite decide_False; [done|lia].
Qed.

Lemma randomColor_base (draw : nat) : randomColor draw ∈ colors.
Proof.
  unfold randomColor. change (length colors) with 5%nat.
  pose proof (Nat.mod_upper_bound draw 5 ltac:(lia)) as Hlt.
  set (i := (draw `mod` 5)%nat) in *. clearbody i.
  destruct i as [|[|[|[|[|n]]]]]; [..|lia];
    unfold colors; cbn; rewrite !elem_of_cons; tauto.
Qed.

Lemma fullGrid_cellAt g :
  fullGrid g ↔
  wfGrid g ∧ ∀ r c, (r < ROWS)%nat → (c < COLS)%nat → is_Some (cellAt g r c).
Proof.
  split.
  - intros [Hwf Hfull]. split; [done|]. intros r c Hr Hc.
    destruct (lookup_lt_is_Some_2 g r) as [row Hrow]; [by rewrite (proj1 Hwf)|].
    pose proof (wfGrid_row g r row Hwf Hrow) as Hlen.
    destruct (lookup_lt_is_Some_2 row c) as [cell Hcell]; [by rewrite Hlen|].
    unfold cellAt, cellOfRow. rewrite Hrow, Hcell.
    rewrite Forall_lookup in Hfull. specialize (Hfull r row Hrow).
    rewrite Forall_lookup in Hfull. by apply (Hfull c).
  - intros [Hwf Hcells]. split; [done|].
    apply Forall_lookup. intros r row Hrow. apply Forall_lookup. intros c cell Hcell.
    pose proof (wfGrid_row g r row Hwf Hrow) as Hlen.
    assert (Hr : (r < ROWS)%nat).
    { rewrite <- (proj1 Hwf). by eapply lookup_lt_Some. }
    assert (Hc : (c < COLS)%nat).
    { rewrite <- Hlen. by eapply lookup_lt_Some. }
    specialize (Hcells r c Hr Hc). unfold cellAt, cellOfRow in Hcells.
    by rewrite Hrow, Hcell in Hcells.
Qed.

Lemma wfGrid_generateGrid (src : GridSource) : wfGrid (generateGrid src ROWS COLS).
Proof.
  split.
  - unfold generateGrid. by rewrite length_fmap, length_seq.
  - unfold generateGrid. apply Forall_fmap, Forall_forall. intros r _.
    unfold compose. by rewrite length_fmap, length_seq.
Qed.

Lemma compactColumn_full c n : ∀ g,
  (∀ r, (r < n)%nat → is_Some (cellAt g r c)) → compactColumn c n g 0 = (g, 0%nat).
Proof.
  induction n as [|n IH]; intros g Hfull; simpl; [done|].
  destruct (Hfull n) as [b Hb]; [lia|]. rewrite Hb. simpl.
  apply IH. intros r Hr. apply Hfull. lia.
Qed.

Lemma gravity_fold_full rng (cs : list nat) g :
  (∀ r c, (r < ROWS)%nat → is_Some (cellAt g r c) ∨ c ∉ cs) →
  foldl (gravityColumn rng) g cs = g.
Proof.
  induction cs as [|c cs IH]; intros Hfull; simpl; [done|].
  assert (Hc : gravityColumn rng g c = g).
  { unfold gravityColumn. rewrite compactColumn_full; [done|].
    intros r Hr. destruct (Hfull r c Hr) as [?|Hn]; [done|].
    exfalso. apply Hn. by left. }
  rewrite Hc. apply IH. intros r c' Hr.
  destruct (Hfull r c' Hr) as [?|Hn]; [by left|].
  right. intros Hin. apply Hn. by right.
Qed.

Lemma fullGrid_applyGravity rng g : wfGrid g → fullGrid (applyGravity rng g).
Proof.
  intros Hwf. destruct (applyGravity_columns rng g Hwf) as [Hwf' Hcols].
  apply fullGrid_cellAt. split; [done|]. intros r c Hr Hc.
  rewrite cellAt_column.
  destruct (column (applyGravity rng g) c !! r) as [x|] eqn:Hx.
  - rewrite Hcols in Hx by done. unfold settledColumn in Hx.
    apply lookup_app_Some in Hx as [Hx|[_ Hx]];
      apply list_lookup_fmap_Some in Hx as (y & -> & _); by eexists.
  - apply lookup_ge_None in Hx. rewrite length_column, (proj1 Hwf') in Hx. lia.
Qed.

Lemma handlePointerUp_full rng (st : Power.AppState) :
  fullGrid (Power.grid st) → fullGrid (Power.grid (Power.handlePointerUp rng st)).
Proof.
  intros Hfull. unfold Power.handlePointerUp.
  destruct (negb (Power.isDragging st)); [done|].
  destruct (_ && _); [|done].
  destruct (Power.firstBallOf _ _).
  - unfold Power.commitSelection.
    destruct (Power.collectPowerups _ _) as [[? ?] ?]. simpl.
    apply fullGrid_applyGravity, wfGrid_clearedGrid. apply Hfull.
  - by destruct (0 <? _)%nat.
Qed.

Lemma step_full (st : Power.AppState) (e : Power.Event) :
  fullGrid (Power.grid st) → fullEvent e → fullGrid (Power.grid (Power.step st e)).
Proof.
  intros Hfull He.
  destruct e as [r c|r c|rng| |newGrid cfg|newGrid cfg|newGrid cfg]; simpl in *;
    try done.
  - unfold Power.handlePointerDown. by destruct (_ || _).
  - unfold Power.handlePointerMove, Power.handleCellEnter.
    destruct (_ || _); [done|]. by case_bool_decide.
  - by apply handlePointerUp_full.
Qed.
End full_facts.

(** X1. [generateGrid(rows, cols)] puts a tile with one of the five base
    colors into each of the [rows x cols] cells and nothing elsewhere; the
    grid of the board, [generateGrid(ROWS, COLS)], is full. *)
Theorem generateGrid_is_full (src : GridSource) (rows cols : nat) :
  (∀ r c, (r < rows)%nat → (c < cols)%nat →
     ∃ b, cellAt (generateGrid src rows cols) r c = Some b
          ∧ color b ∈ colors
          ∧ powerup b = src_powerup src r c)
  ∧ (∀ r c, ¬ ((r < rows)%nat ∧ (c < cols)%nat) →
       cellAt (generateGrid src rows cols) r c = None)
  ∧ length (generateGrid src rows cols) = rows
  ∧ Forall (λ row, length row = cols) (generateGrid src rows cols)
  ∧ fullGrid (generateGrid src ROWS COLS).
Proof.
  split_and!.
  - intros r c Hr Hc. rewrite cellAt_generateGrid, decide_True by done.
    eexists. split; [done|]. split; [apply randomColor_base|done].
  - intros r c Hn. by rewrite cellAt_generateGrid, decide_False.
  - unfold generateGrid. by rewrite length_fmap, length_seq.
  - unfold generateGrid. apply Forall_fmap, Forall_forall. intros r _.
    unfold compose. by rewrite length_fmap, length_seq.
  - apply fullGrid_cellAt. split; [apply wfGrid_generateGrid|].
    intros r c Hr Hc. rewrite cellAt_generateGrid, decide_True by done.
    by eexists.
Qed.

(** X2. On a board without an empty cell, [applyGravity] changes nothing:
    no tile moves and no tile is generated. *)
Theorem applyGravity_full_board_unchanged (rng : Rng) (g : Grid) :
  fullGrid g → applyGravity rng g = g.
Proof.
  intros Hfull. apply fullGrid_cellAt in Hfull as [Hwf Hcells].
  unfold applyGravity. apply gravity_fold_full.
  intros r c Hr. destruct (decide (c < COLS)%nat) as [Hc|Hc].
  - left. by apply Hcells.
  - right. intros Hin%elem_of_seq. lia.
Qed.

Lemma applyGravity_full_board_unchanged_witness :
  fullGrid sampleGrid ∧ applyGravity sampleRng sampleGrid = sampleGrid.
Proof.
  assert (Hfull : fullGrid sampleGrid).
  { split; [split; [reflexivity|]; vm_compute; repeat constructor|].
    apply (bool_decide_unpack _). by vm_compute. }
  split; [exact Hfull|].
  exact (applyGravity_full_board_unchanged sampleRng sampleGrid Hfull).
Defined.

(** X3. The board never shows an empty cell: from a full board, after any
    events whose new grids are full (as [generateGrid] builds them), the
    grid of the state is full; every match is cleared and refilled within
    the one release that resolves it. *)
Theorem board_stays_full (st : Power.AppState) (es : list Power.Event) :
  fullGrid (Power.grid st) → Forall fullEvent es →
  fullGrid (Power.grid (Power.run st es)).
Proof.
  revert st. unfold Power.run.
  induction es as [|e es IH]; intros st Hfull Hes; simpl; [done|].
  apply Forall_cons in Hes as [He Hes]. apply IH; [|done]. by apply step_full.
Qed.

Lemma board_stays_full_witness :
  fullGrid sampleGrid
  ∧ Forall fullEvent
      [Power.PointerMove 1 3; Power.PointerUp sampleRng;
       Power.GoToHome (generateGrid sampleSource ROWS COLS) (mkLevel 12 ∅)]
  ∧ fullGrid (Power.grid (Power.run (sampleDrag sampleChain5 0 0 0)
      [Power.PointerMove 1 3; Power.PointerUp sampleRng;
       Power.GoToHome (generateGrid sampleSource ROWS COLS) (mkLevel 12 ∅)])).
Proof.
  assert (Hfull : fullGrid sampleGrid).
  { split; [split; [reflexivity|]; vm_compute; repeat constructor|].
    apply (bool_decide_unpack _). by vm_compute. }
  assert (Hes : Forall fullEvent
      [Power.PointerMove 1 3; Power.PointerUp sampleRng;
       Power.GoToHome (generateGrid sampleSource ROWS COLS) (mkLevel 12 ∅)]).
  { apply Forall_cons_2; [vm_compute; lia|].
    apply Forall_cons_2; [exact I|].
    apply Forall_cons_2; [|apply Forall_nil_2].
    split; [split; [reflexivity|]; vm_compute; repeat constructor|].
    apply (bool_decide_unpack _). by vm_compute. }
  split; [exact Hfull|]. split; [exact Hes|].
  exact (board_stays_full (sampleDrag sampleChain5 0 0 0) _ Hfull Hes).
Defined.

(** * The render helpers and the selection *)

Section helper_facts.
Implicit Types (g : Grid) (sel prev : list Coord) (r c : nat).

Lemma same_coord_true (s : Coord) r c :
  (cr s =? r)%nat && (cc s =? c)%nat = true ↔ s = mkCoord r c.
Proof.
  rewrite andb_true_iff, !Nat.eqb_eq. destruct s as [sr sc]. simpl.
  split; [intros [-> ->]; done|intros [= -> ->]; done].
Qed.

Lemma inSelection_true sel r c : inSelection sel r c = true ↔ mkCoord r c ∈ sel.
Proof.
  unfold inSelection. rewrite existsb_exists. split.
  - intros (s & Hin & Hs). apply same_coord_true in Hs as ->.
    by apply list_elem_of_In.
  - intros Hin. exists (mkCoord r c). split; [by apply list_elem_of_In|].
    by apply same_coord_true.
Qed.

Lemma findIndexFrom_spec sel r c : ∀ i,
  (findIndexFrom i sel r c = -1 ∧ mkCoord r c ∉ sel ∨
   ∃ n, findIndexFrom i sel r c = i + Z.of_nat n
        ∧ sel !! n = Some (mkCoord r c)
        ∧ ∀ m, (m < n)%nat → sel !! m ≠ Some (mkCoord r c)).
Proof.
  induction sel as [|s sel IH]; intros i; simpl.
  - left. split; [done|]. apply not_elem_of_nil.
  - destruct ((cr s =? r)%nat && (cc s =? c)%nat) eqn:Hs.
    + apply same_coord_true in Hs as ->. right. exists 0%nat.
      split_and!; [lia|done|intros m Hm; lia].
    + assert (Hne : s ≠ mkCoord r c).
      { intros Heq. apply same_coord_true in Heq. congruence. }
      destruct (IH (i + 1)) as [[Hnone Hnot]|(n & Hn & Hl & Hmin)].
      * left. split; [done|]. intros [?|?]%elem_of_cons; done.
      * right. exists (S n). split_and!; [lia|done|].
        intros [|m] Hm; simpl; [congruence|]. apply Hmin. lia.
Qed.

Lemma isBacktrack_inSelection prev r c :
  isBacktrack prev r c = true → inSelection prev r c = true.
Proof.
  unfold isBacktrack. intros [_ Hb]%andb_true_iff.
  destruct (prev !! (length prev - 2)%nat) as [secondLast|] eqn:Hsl; [|done].
  apply same_coord_true in Hb as ->. apply inSelection_true.
  by eapply list_elem_of_lookup_2.
Qed.

Lemma isBacktrack_snoc prev lst x :
  last prev = Some lst → isBacktrack (prev ++ [x]) (cr lst) (cc lst) = true.
Proof.
  intros Hlast. destruct (last_Some_snoc prev lst Hlast) as [init ->].
  unfold isBacktrack. rewrite !length_app. simpl.
  apply andb_true_iff. split; [apply Nat.ltb_lt; lia|].
  replace (length init + 1 + 1 - 2)%nat with (length init) by lia.
  rewrite <- app_assoc. simpl. rewrite list_lookup_middle by done.
  by rewrite !Nat.eqb_refl.
Qed.
End helper_facts.

(** X4. The number drawn on a selected tile: for a chain without
    duplicates, [getSelectionIndex(r, c)] is the position of [(r, c)] in
    the chain and [-1] exactly when the cell is not selected;
    [isSelected(r, c)] holds exactly when the index is not negative. *)
Theorem getSelectionIndex_round_trip (sel : list Coord) (r c : nat) :
  NoDup sel →
  (isSelected sel r c = true ↔ 0 ≤ getSelectionIndex sel r c)
  ∧ (isSelected sel r c = false ↔ getSelectionIndex sel r c = -1)
  ∧ (∀ i : nat, getSelectionIndex sel r c = Z.of_nat i ↔
               sel !! i = Some (mkCoord r c)).
Proof.
  intros Hnd. unfold isSelected, getSelectionIndex.
  destruct (findIndexFrom_spec sel r c 0) as [[Hnone Hnot]|(n & Hn & Hl & Hmin)].
  - assert (Hsel : inSelection sel r c = false).
    { destruct (inSelection sel r c) eqn:E; [|done].
      apply inSelection_true in E. done. }
    rewrite Hnone, Hsel. split_and!.
    + split; [done|lia].
    + done.
    + intros i. split; [lia|]. intros Hi. exfalso. apply Hnot.
      by eapply list_elem_of_lookup_2.
  - assert (Hsel : inSelection sel r c = true).
    { apply inSelection_true. by eapply list_elem_of_lookup_2. }
    rewrite Hn, Hsel. split_and!.
    + split; [lia|done].
    + split; [done|lia].
    + intros i. split.
      * intros Hi. assert (i = n) as -> by lia. done.
      * intros Hi. rewrite (NoDup_lookup sel i n (mkCoord r c) Hnd Hi Hl). lia.
Qed.

Lemma getSelectionIndex_round_trip_witness :
  NoDup sampleChain5
  ∧ (getSelectionIndex sampleChain5 0 3 = Z.of_nat 2 ↔
     sampleChain5 !! 2%nat = Some (mkCoord 0 3)).
Proof.
  assert (Hnd : NoDup sampleChain5).
  { apply (bool_decide_unpack _). by vm_compute. }
  split; [exact Hnd|].
  exact (proj2 (proj2 (getSelectionIndex_round_trip sampleChain5 0 3 Hnd)) 2%nat).
Defined.

(** X5. The ring around a tile tells the truth: during a drag in the
    playing phase, a cell that is not in the chain has the hint exactly
    when entering it appends it to the chain. *)
Theorem connectHint_agrees_with_handleCellEnter (st : Power.AppState) (r c : nat) :
  Power.gameState st = playing → Power.isDragging st = true →
  isSelected (Power.selection st) r c = false →
  (connectHint st r c = true ↔
   Power.selection (Power.handleCellEnter st r c)
   = Power.selection st ++ [mkCoord r c]).
Proof.
  intros Hplay Hdrag Hsel. unfold isSelected in Hsel.
  assert (Hback : isBacktrack (Power.selection st) r c = false).
  { destruct (isBacktrack _ r c) eqn:E; [|done].
    apply isBacktrack_inSelection in E. congruence. }
  assert (Hneq : ∀ x, Power.selection st ≠ Power.selection st ++ [x]).
  { intros x Heq. apply (f_equal length) in Heq. rewrite length_app in Heq.
    simpl in Heq. lia. }
  unfold Power.handleCellEnter, connectHint, isAdjacentToLast.
  rewrite bool_decide_false by (intros Hn; by apply Hn). simpl.
  unfold Power.extendSelection. rewrite Hdrag, Hback, Hsel.
  destruct (last (Power.selection st)) as [lst|].
  2:{ destruct (cellAt _ r c); simpl; split; try done; intros Hx; by apply Hneq in Hx. }
  destruct (cellAt (Power.grid st) r c) as [ball|]; simpl.
  2:{ destruct (isAdjacent lst r c); split; try done; intros Hx; by apply Hneq in Hx. }
  destruct (isAdjacent lst r c); simpl.
  2:{ split; [done|]. intros Hx; by apply Hneq in Hx. }
  destruct (Power.isWild (color ball)); simpl; [done|].
  destruct (Power.chainColorOf _ _) as [chainColor|]; [|done].
  case_bool_decide; [done|]. split; [done|]. intros Hx; by apply Hneq in Hx.
Qed.

Lemma connectHint_agrees_with_handleCellEnter_witness :
  connectHint (sampleDrag sampleChain5 0 0 0) 1 3 = true
  ∧ Power.selection (Power.handleCellEnter (sampleDrag sampleChain5 0 0 0) 1 3)
    = sampleChain5 ++ [mkCoord 1 3].
Proof.
  assert (Hh : connectHint (sampleDrag sampleChain5 0 0 0) 1 3 = true)
    by (by vm_compute).
  split; [exact Hh|].
  exact (proj1 (connectHint_agrees_with_handleCellEnter
    (sampleDrag sampleChain5 0 0 0) 1 3 eq_refl eq_refl eq_refl) Hh).
Defined.

(** X6. Sliding back retracts: when the pointer enters the cell before
    the last one, the last cell is dropped, whatever the colors; so
    entering a cell and then the previous end of the chain gives the
    chain back, in both variants of the updater. *)
Theorem backtrack_undoes_extension (g : Grid) (prev : list Coord)
  (lst x : Coord) :
  last prev = Some lst →
  Power.extendSelection g (prev ++ [x]) (cr lst) (cc lst) = prev
  ∧ Basic.extendSelection g (prev ++ [x]) (cr lst) (cc lst) = prev.
Proof.
  intros Hlast. unfold Power.extendSelection, Basic.extendSelection.
  rewrite last_snoc, (isBacktrack_snoc prev lst x Hlast), dropLast_snoc. done.
Qed.

Lemma backtrack_undoes_extension_witness :
  last sampleChain5 = Some (mkCoord 1 4)
  ∧ Power.extendSelection sampleGrid (sampleChain5 ++ [mkCoord 1 3]) 1 4
    = sampleChain5.
Proof.
  split; [reflexivity|].
  exact (proj1 (backtrack_undoes_extension sampleGrid sampleChain5
    (mkCoord 1 4) (mkCoord 1 3) eq_refl)).
Defined.

Lemma step_selection_dragging (st : Power.AppState) (e : Power.Event) :
  (Power.selection st ≠ [] → Power.isDragging st = true) →
  Power.selection (Power.step st e) ≠ [] →
  Power.isDragging (Power.step st e) = true.
Proof.
  intros Hinv.
  destruct e as [r c|r c|rng| |newGrid cfg|newGrid cfg|newGrid cfg]; simpl;
    try done.
  - unfold Power.handlePointerDown. by destruct (_ || _).
  - unfold Power.handlePointerMove, Power.handleCellEnter.
    destruct (Power.isDragging st) eqn:Hd; simpl.
    + repeat case_bool_decide; simpl; intros _; first [exact Hd|by rewrite Hd].
    + intros Hs. by specialize (Hinv Hs).
  - unfold Power.handlePointerUp.
    destruct (Power.isDragging st) eqn:Hd; simpl.
    2:{ intros Hs. by specialize (Hinv Hs). }
    destruct (_ && _); [|done].
    destruct (Power.firstBallOf _ _).
    + unfold Power.commitSelection.
      by destruct (Power.collectPowerups _ _) as [[? ?] ?].
    + by destruct (0 <? _)%nat.
Qed.

(** X7. A chain exists only during a drag: from the first render on,
    whenever the selection is not empty, [isDragging] is set. *)
Theorem selection_only_while_dragging (g0 : Grid) (procedural : LevelConfig)
  (es : list Power.Event) :
  let st := Power.run (Power.initialState g0 procedural) es in
  Power.selection st ≠ [] → Power.isDragging st = true.
Proof.
  induction es as [|e es IH] using rev_ind; [done|].
  rewrite run_snoc. by apply step_selection_dragging.
Qed.

Lemma selection_only_while_dragging_witness :
  Power.selection
    (Power.run (Power.initialState sampleGrid (mkLevel 12 ∅))
       [Power.StartGame; Power.PointerDown 0 1; Power.PointerMove 0 2]) ≠ []
  ∧ Power.isDragging
      (Power.run (Power.initialState sampleGrid (mkLevel 12 ∅))
         [Power.StartGame; Power.PointerDown 0 1; Power.PointerMove 0 2]) = true.
Proof.
  assert (Hne : Power.selection
    (Power.run (Power.initialState sampleGrid (mkLevel 12 ∅))
       [Power.StartGame; Power.PointerDown 0 1; Power.PointerMove 0 2]) ≠ [])
    by (by vm_compute).
  split; [exact Hne|].
  exact (selection_only_while_dragging sampleGrid (mkLevel 12 ∅) _ Hne).
Defined.

(** * Score, moves and the multiplier *)

Section numeric_facts.
Implicit Types (g : Grid) (sel fs : list Coord) (st : Power.AppState).

Lemma scoreDelta_lower (m : Z) (activated : bool) fs :
  Z.of_nat (length fs) * 10 ≤ Power.scoreDelta m activated fs.
Proof.
  unfold Power.scoreDelta.
  destruct (Power.isSuperBonus fs), (Power.isBonus fs), (_ || _); lia.
Qed.

Lemma commitSelection_score rng st :
  Power.score st
  + Z.of_nat (length (Power.finalSelectionOf (Power.grid st) (Power.selection st))) * 10
  ≤ Power.score (Power.commitSelection rng st).
Proof.
  unfold Power.commitSelection.
  destruct (Power.collectPowerups _ _) as [[? activated] ?]. simpl.
  pose proof (scoreDelta_lower (Power.multiplierTurns st) activated
    (Power.finalSelectionOf (Power.grid st) (Power.selection st))).
  destruct (Power.comboBreakout _ _); lia.
Qed.

Lemma step_score st e :
  resetsScore e = false → Power.score st ≤ Power.score (Power.step st e).
Proof.
  intros He.
  destruct e as [r c|r c|rng| |newGrid cfg|newGrid cfg|newGrid cfg]; simpl in *;
    try done.
  - unfold Power.handlePointerDown. by destruct (_ || _).
  - unfold Power.handlePointerMove, Power.handleCellEnter.
    destruct (_ || _); [done|]. by case_bool_decide.
  - unfold Power.handlePointerUp.
    destruct (negb (Power.isDragging st)); [done|].
    destruct (_ && _); [|done].
    destruct (Power.firstBallOf _ _).
    + pose proof (commitSelection_score rng st). lia.
    + by destruct (0 <? _)%nat.
Qed.

Lemma run_score es : ∀ st,
  Forall (λ e, resetsScore e = false) es →
  Power.score st ≤ Power.score (Power.run st es).
Proof.
  unfold Power.run. induction es as [|e es IH]; intros st Hes; simpl; [done|].
  apply Forall_cons in Hes as [He Hes].
  etrans; [by apply (step_score st e)|by apply IH].
Qed.

Lemma step_multiplierTurns st e :
  0 ≤ Power.multiplierTurns st ≤ 3 →
  0 ≤ Power.multiplierTurns (Power.step st e) ≤ 3.
Proof.
  intros Hm.
  destruct e as [r c|r c|rng| |newGrid cfg|newGrid cfg|newGrid cfg]; simpl;
    try done; try lia.
  - unfold Power.handlePointerDown. by destruct (_ || _).
  - unfold Power.handlePointerMove, Power.handleCellEnter.
    destruct (_ || _); [done|]. by case_bool_decide.
  - unfold Power.handlePointerUp.
    destruct (negb (Power.isDragging st)); [done|].
    destruct (_ && _); [|done].
    destruct (Power.firstBallOf _ _).
    + unfold Power.commitSelection.
      destruct (Power.collectPowerups _ _) as [[? activated] ?]. simpl.
      destruct activated; [lia|]. destruct (0 <? _) eqn:E; [|done].
      apply Z.ltb_lt in E. lia.
    + by destruct (0 <? _)%nat.
Qed.

Lemma countPowerup_cons g (p : PowerupType) (s : Coord) sel :
  countPowerup g p (s :: sel)
  = ((if Power.hasPowerup g p s then 1 else 0) + countPowerup g p sel)%nat.
Proof.
  unfold countPowerup. rewrite filter_cons.
  destruct (Power.hasPowerup g p s); case_decide; done.
Qed.

Lemma collectPowerups_fold g sel : ∀ (a : Z) (m b : bool),
  foldl (λ '(addedMoves, activatedMultiplier, activatedBomb) s,
           (if Power.hasPowerup g pmoves s then addedMoves + 3 else addedMoves,
            if Power.hasPowerup g pmultiplier s then true else activatedMultiplier,
            if Power.hasPowerup g pbomb s then true else activatedBomb))
        (a, m, b) sel
  = (a + 3 * Z.of_nat (countPowerup g pmoves sel),
     m || bool_decide (0 < countPowerup g pmultiplier sel)%nat,
     b || bool_decide (0 < countPowerup g pbomb sel)%nat).
Proof.
  induction sel as [|s sel IH]; intros a m b.
  - unfold countPowerup. simpl. rewrite Z.add_0_r. by rewrite !orb_false_r.
  - cbn [foldl]. rewrite IH, !countPowerup_cons.
    destruct (Power.hasPowerup g pmoves s), (Power.hasPowerup g pmultiplier s),
      (Power.hasPowerup g pbomb s); cbn [Nat.add];
      repeat match goal with
             | |- context [bool_decide (0 < S ?n)%nat] =>
                 rewrite (bool_decide_true (0 < S n)%nat) by lia
             end;
      rewrite ?orb_true_r; cbn [orb];
      repeat first [done | lia | f_equal].
Qed.

Lemma collectPowerups_counts g sel :
  Power.collectPowerups g sel
  = (3 * Z.of_nat (countPowerup g pmoves sel),
     bool_decide (0 < countPowerup g pmultiplier sel)%nat,
     bool_decide (0 < countPowerup g pbomb sel)%nat).
Proof. unfold Power.collectPowerups. by rewrite collectPowerups_fold. Qed.
End numeric_facts.

(** X8. The score never decreases except by [resetGame] and [goToHome]:
    over any other events it only grows, and a release that resolves a
    match adds at least 10 points per removed tile. *)
Theorem score_never_decreases (st0 : Power.AppState) (es : list Power.Event)
  (rng : Rng) :
  Forall (λ e, resetsScore e = false) es →
  let st := Power.run st0 es in
  Power.score st0 ≤ Power.score st
  ∧ (commits st →
     Power.score st
     + 10 * Z.of_nat (length (Power.finalSelectionOf (Power.grid st)
                                (Power.selection st)))
     ≤ Power.score (Power.handlePointerUp rng st)
     ∧ Power.score st + 30 ≤ Power.score (Power.handlePointerUp rng st)).
Proof.
  intros Hes st. split; [by apply run_score|].
  intros Hc. rewrite handlePointerUp_commits by done.
  pose proof (commitSelection_score rng st) as Hs.
  pose proof (finalSelectionOf_length (Power.grid st) (Power.selection st)) as Hl.
  destruct Hc as (_ & _ & Hlen & _). unfold MIN_MATCH in Hlen. lia.
Qed.

Lemma score_never_decreases_witness :
  Forall (λ e, resetsScore e = false)
    [Power.PointerMove 1 3; Power.PointerUp sampleRng]
  ∧ 0 ≤ Power.score (Power.run (sampleDrag sampleChain5 0 0 0)
                       [Power.PointerMove 1 3; Power.PointerUp sampleRng]).
Proof.
  assert (Hes : Forall (λ e, resetsScore e = false)
    [Power.PointerMove 1 3; Power.PointerUp sampleRng]) by (by repeat constructor).
  split; [exact Hes|].
  exact (proj1 (score_never_decreases (sampleDrag sampleChain5 0 0 0) _
    sampleRng Hes)).
Defined.

(** X9. The score multiplier lasts at most three turns: from a count in
    [0, 3] the count stays in [0, 3] after any events; a commit sets it to
    3 when the chain holds a multiplier tile and otherwise takes one off,
    not below 0; the next level, a reset and the return to the home screen
    set it to 0. *)
Theorem multiplierTurns_bounded (st0 : Power.AppState) (es : list Power.Event)
  (rng : Rng) :
  0 ≤ Power.multiplierTurns st0 ≤ 3 →
  let st := Power.run st0 es in
  0 ≤ Power.multiplierTurns st ≤ 3
  ∧ (commits st →
     Power.multiplierTurns (Power.handlePointerUp rng st)
     = if bool_decide (0 < countPowerup (Power.grid st) pmultiplier
                              (Power.selection st))%nat
       then 3 else Z.max 0 (Power.multiplierTurns st - 1))
  ∧ (∀ (s : Power.AppState) (e : Power.Event),
       Power.isLevelEvent e = true →
       Power.multiplierTurns (Power.step s e) = 0).
Proof.
  intros Hm st.
  assert (Hst : 0 ≤ Power.multiplierTurns st ≤ 3).
  { unfold st. clear st. unfold Power.run. revert st0 Hm.
    induction es as [|e es IH]; intros st0 Hm; simpl; [done|].
    apply IH. by apply step_multiplierTurns. }
  split; [done|]. split; [|by intros s []].
  intros Hc. rewrite handlePointerUp_commits by done.
  unfold Power.commitSelection. rewrite collectPowerups_counts. simpl.
  case_bool_decide; [done|]. destruct (0 <? _) eqn:E.
  - apply Z.ltb_lt in E. lia.
  - apply Z.ltb_ge in E. lia.
Qed.

Lemma multiplierTurns_bounded_witness :
  0 ≤ Power.multiplierTurns (sampleDrag sampleChain5 2 0 0) ≤ 3
  ∧ 0 ≤ Power.multiplierTurns
          (Power.run (sampleDrag sampleChain5 2 0 0) [Power.PointerUp sampleRng]) ≤ 3.
Proof.
  assert (Hm : 0 ≤ Power.multiplierTurns (sampleDrag sampleChain5 2 0 0) ≤ 3)
    by (simpl; lia).
  split; [exact Hm|].
  exact (proj1 (multiplierTurns_bounded (sampleDrag sampleChain5 2 0 0)
    [Power.PointerUp sampleRng] sampleRng Hm)).
Defined.

(** X10. What a commit does to the moves: it costs one move and gives
    back 3 for every tile with the moves powerup in the chain as it was
    drawn (tiles removed only by a bomb give nothing), 1 for a removal of
    ten or more and 2 on a combo breakout. *)
Theorem commit_moves_formula (rng : Rng) (st : Power.AppState) :
  commits st →
  let g := Power.grid st in
  let sel := Power.selection st in
  let finalSelection := Power.finalSelectionOf g sel in
  Power.moves (Power.handlePointerUp rng st)
  = Power.moves st - 1
    + 3 * Z.of_nat (countPowerup g pmoves sel)
    + (if Power.isSuperBonus finalSelection then 1 else 0)
    + (if Power.comboBreakout (Power.comboMeter st) finalSelection then 2 else 0)
  ∧ Power.moves st - 1 ≤ Power.moves (Power.handlePointerUp rng st).
Proof.
  intros Hc g sel finalSelection. rewrite handlePointerUp_commits by done.
  unfold Power.commitSelection, Power.newMovesOf.
  rewrite collectPowerups_counts. simpl. fold g sel finalSelection.
  destruct (Power.isSuperBonus finalSelection), (Power.comboBreakout _ _); lia.
Qed.

Lemma commit_moves_formula_witness :
  commits (sampleDrag sampleChain5 0 0 0)
  ∧ 20 - 1 ≤ Power.moves (Power.handlePointerUp sampleRng (sampleDrag sampleChain5 0 0 0)).
Proof.
  assert (Hc : commits (sampleDrag sampleChain5 0 0 0)).
  { split_and!; [reflexivity..| |vm_compute; by eexists]. vm_compute. lia. }
  split; [exact Hc|].
  exact (proj2 (commit_moves_formula sampleRng _ Hc)).
Defined.

(** * The bomb and the cleared grid *)

Section bomb_facts.
Implicit Types (g : Grid) (sel fs acc : list Coord) (s : Coord) (k : BallColor).

Lemma coord_eta s : mkCoord (cr s) (cc s) = s.
Proof. by destruct s. Qed.

Lemma elem_of_allCells s : s ∈ Power.allCells ↔ inBounds s.
Proof.
  unfold Power.allCells, inBounds. rewrite list_elem_of_bind. split.
  - intros (r & Hs & Hr). apply list_elem_of_bind in Hs as (c & Hs & Hc).
    apply list_elem_of_singleton in Hs as ->. simpl.
    apply elem_of_seq in Hr, Hc. lia.
  - intros [Hr Hc]. exists (cr s). split; [|apply elem_of_seq; lia].
    apply list_elem_of_bind. exists (cc s). split; [|apply elem_of_seq; lia].
    apply list_elem_of_singleton. by rewrite coord_eta.
Qed.

Lemma bombStep_cases g k acc s :
  (Power.bombStep g k acc s = acc ++ [s] ∧ (s ∉ acc)
   ∧ ∃ b, cellAt g (cr s) (cc s) = Some b ∧ color b = k)
  ∨ (Power.bombStep g k acc s = acc
     ∧ (s ∈ acc ∨ ¬ ∃ b, cellAt g (cr s) (cc s) = Some b ∧ color b = k)).
Proof.
  unfold Power.bombStep. destruct (cellAt g (cr s) (cc s)) as [b|] eqn:Hb.
  - case_bool_decide as Hk; simpl.
    + destruct (inSelection acc (cr s) (cc s)) eqn:Hin; simpl.
      * right. split; [done|]. left. apply inSelection_true in Hin.
        by rewrite coord_eta in Hin.
      * left. split_and!; [done| |by exists b].
        apply inSelection_false in Hin. by rewrite coord_eta in Hin.
    + right. split; [done|]. right. intros (b' & [= <-] & Hk'). done.
  - right. split; [done|]. right. by intros (b' & ? & _).
Qed.

Lemma bomb_fold_spec g k (cells : list Coord) : ∀ acc,
  NoDup acc →
  NoDup (foldl (Power.bombStep g k) acc cells)
  ∧ (∃ extra, foldl (Power.bombStep g k) acc cells = acc ++ extra)
  ∧ ∀ s, s ∈ foldl (Power.bombStep g k) acc cells ↔
         s ∈ acc ∨ (s ∈ cells ∧ ∃ b, cellAt g (cr s) (cc s) = Some b ∧ color b = k).
Proof.
  induction cells as [|s0 cells IH]; intros acc Hnd; simpl.
  - split_and!; [done|exists []; by rewrite app_nil_r|].
    intros s. split; [by left|]. intros [?|[Hin _]]; [done|].
    by apply elem_of_nil in Hin.
  - destruct (bombStep_cases g k acc s0) as [(-> & Hnot & Hq)|(-> & Hor)].
    + destruct (IH (acc ++ [s0])) as (Hnd' & [extra Hex] & Hmem).
      { apply NoDup_app. split_and!; [done| |apply NoDup_singleton].
        intros x Hx ->%list_elem_of_singleton. done. }
      split_and!; [done| |].
      * exists (s0 :: extra). rewrite Hex, <- app_assoc. done.
      * intros s. rewrite Hmem, elem_of_app, list_elem_of_singleton, elem_of_cons.
        split.
        -- intros [[?| ->]|[? ?]]; [by left|right; split; [by left|done]|].
           right. split; [by right|done].
        -- intros [?|[[->|?] ?]]; [by left; left|by left; right|by right].
    + destruct (IH acc Hnd) as (Hnd' & Hex & Hmem).
      split_and!; [done|done|].
      intros s. rewrite Hmem, elem_of_cons. split.
      * intros [?|[? ?]]; [by left|]. right. split; [by right|done].
      * intros [?|[[->|?] Hq]]; [by left| |by right].
        destruct Hor as [?|Hn]; [by left|]. by destruct Hn.
Qed.

Lemma finalSelectionOf_prefix g sel :
  ∃ extra, Power.finalSelectionOf g sel = sel ++ extra.
Proof.
  unfold Power.finalSelectionOf.
  destruct (Power.collectPowerups g sel) as [[? ?] activatedBomb].
  destruct (Power.chainColorOf g sel) as [k|]; [|exists []; by rewrite app_nil_r].
  destruct activatedBomb; [|exists []; by rewrite app_nil_r].
  revert sel. generalize Power.allCells as cells.
  induction cells as [|s0 cells IH]; intros acc; simpl.
  - exists []. by rewrite app_nil_r.
  - destruct (bombStep_cases g k acc s0) as [(-> & _)|(-> & _)]; [|apply IH].
    destruct (IH (acc ++ [s0])) as [extra ->]. exists (s0 :: extra).
    by rewrite <- app_assoc.
Qed.

Lemma last_in_finalSelection g sel lastSelected :
  last sel = Some lastSelected → lastSelected ∈ Power.finalSelectionOf g sel.
Proof.
  intros Hlast. destruct (finalSelectionOf_prefix g sel) as [extra ->].
  destruct (last_Some_snoc sel lastSelected Hlast) as [init ->].
  rewrite !elem_of_app, list_elem_of_singleton. by left; right.
Qed.

Lemma cellAt_clearCells_other fs : ∀ g s,
  s ∉ fs → cellAt (clearCells g fs) (cr s) (cc s) = cellAt g (cr s) (cc s).
Proof.
  unfold clearCells. induction fs as [|s0 fs IH]; intros g s Hs; simpl; [done|].
  apply not_elem_of_cons in Hs as [Hne Hs].
  rewrite IH by done. by apply cellAt_setCell_coord.
Qed.

Lemma occupied_full (l : list (option Ball)) :
  Forall is_Some l → Some <$> occupied l = l ∧ length (occupied l) = length l.
Proof.
  unfold occupied. induction l as [|x l IH]; intros Hl; [done|].
  apply Forall_cons in Hl as [[b ->] Hl]. destruct (IH Hl) as [IH1 IH2].
  cbn. rewrite IH2. split; [|done]. f_equal. exact IH1.
Qed.

Lemma column_ext g g' c :
  length g = length g' → (∀ r, cellAt g r c = cellAt g' r c) →
  column g c = column g' c.
Proof.
  intros Hlen Hcells. apply list_eq. intros r.
  specialize (Hcells r). rewrite !cellAt_column in Hcells.
  destruct (column g c !! r) as [x|] eqn:Hx, (column g' c !! r) as [y|] eqn:Hy.
  - by rewrite Hcells.
  - apply lookup_lt_Some in Hx. apply lookup_ge_None in Hy.
    rewrite length_column in Hx, Hy. lia.
  - apply lookup_lt_Some in Hy. apply lookup_ge_None in Hx.
    rewrite length_column in Hx, Hy. lia.
  - done.
Qed.
End bomb_facts.

(** X11. What a release removes.  The removal set begins with the chain
    as drawn and has no duplicates; with a bomb in the chain and a chain
    color, it holds exactly the cells of the chain and every cell of the
    board whose tile has the chain color; without a bomb, or without a
    chain color, it is the chain. *)
Theorem bomb_removes_every_tile_of_the_chain_color (g : Grid) (sel : list Coord) :
  wfGrid g → NoDup sel →
  let finalSelection := Power.finalSelectionOf g sel in
  (∃ extra, finalSelection = sel ++ extra)
  ∧ NoDup finalSelection
  ∧ (∀ k, (0 < countPowerup g pbomb sel)%nat →
          Power.chainColorOf g sel = Some k →
          ∀ s, s ∈ finalSelection ↔
               s ∈ sel ∨ ∃ b, cellAt g (cr s) (cc s) = Some b ∧ color b = k)
  ∧ (countPowerup g pbomb sel = 0%nat ∨ Power.chainColorOf g sel = None →
     finalSelection = sel).
Proof.
  intros Hwf Hnd finalSelection. split; [apply finalSelectionOf_prefix|].
  unfold finalSelection, Power.finalSelectionOf.
  rewrite collectPowerups_counts.
  destruct (Power.chainColorOf g sel) as [k0|] eqn:Hcc.
  2:{ split_and!; [done|intros k _ [=]|done]. }
  case_bool_decide as Hbomb.
  - destruct (bomb_fold_spec g k0 Power.allCells sel Hnd) as (Hnd' & _ & Hmem).
    split_and!; [done| |].
    + intros k _ [= <-] s. rewrite Hmem. split.
      * intros [?|[_ ?]]; [by left|by right].
      * intros [?|(b & Hb & Hk)]; [by left|]. right. split; [|by exists b].
        apply elem_of_allCells. rewrite <- (coord_eta s).
        by eapply cellAt_Some_bounds.
    + intros [Hz|[=]]. lia.
  - split_and!; [done| |done]. intros k Hpos. lia.
Qed.

Lemma bomb_removes_every_tile_of_the_chain_color_witness :
  wfGrid sampleBombGrid ∧ NoDup sampleChain5
  ∧ length (Power.finalSelectionOf sampleBombGrid sampleChain5) = 39%nat
  ∧ NoDup (Power.finalSelectionOf sampleBombGrid sampleChain5).
Proof.
  assert (Hwf : wfGrid sampleBombGrid).
  { split; [reflexivity|]. vm_compute. repeat constructor. }
  assert (Hnd : NoDup sampleChain5).
  { apply (bool_decide_unpack _). by vm_compute. }
  split; [exact Hwf|]. split; [exact Hnd|]. split; [by vm_compute|].
  exact (proj1 (proj2 (bomb_removes_every_tile_of_the_chain_color
    sampleBombGrid sampleChain5 Hwf Hnd))).
Defined.

Lemma cellAt_clearedGrid_outside (rng : Rng) (g : Grid) (sel : list Coord)
  (s : Coord) :
  s ∉ Power.finalSelectionOf g sel →
  cellAt (Power.clearedGrid rng g sel) (cr s) (cc s) = cellAt g (cr s) (cc s).
Proof.
  intros Hs. unfold Power.clearedGrid.
  destruct (last sel) as [lastSelected|] eqn:Hlast.
  - assert (Hne : lastSelected ≠ s).
    { intros ->. apply Hs. by apply last_in_finalSelection. }
    destruct (Power.isSuperBonus _); [|destruct (Power.isBonus _)];
      rewrite ?cellAt_setCell_coord by done; by apply cellAt_clearCells_other.
  - by apply cellAt_clearCells_other.
Qed.

(** X12. What the removal leaves behind, before gravity: every cell
    outside the removal set keeps its tile; below five removed tiles every
    cell of the removal set is empty; from five to nine the last cell of the
    chain holds a new [special] tile and the others are empty. *)
Theorem clearedGrid_frame (rng : Rng) (g : Grid) (sel : list Coord) :
  wfGrid g → Forall inBounds sel →
  let finalSelection := Power.finalSelectionOf g sel in
  let cleared := Power.clearedGrid rng g sel in
  (∀ s, s ∉ finalSelection →
        cellAt cleared (cr s) (cc s) = cellAt g (cr s) (cc s))
  ∧ ((length finalSelection < 5)%nat →
     ∀ s, s ∈ finalSelection → cellAt cleared (cr s) (cc s) = None)
  ∧ ((5 ≤ length finalSelection < 10)%nat →
     ∀ lastSelected, last sel = Some lastSelected →
       cellAt cleared (cr lastSelected) (cc lastSelected)
       = Some (Power.specialBall rng)
       ∧ ∀ s, s ∈ finalSelection → s ≠ lastSelected →
              cellAt cleared (cr s) (cc s) = None).
Proof.
  intros Hwf Hsel finalSelection cleared.
  assert (Hfs : Forall inBounds finalSelection)
    by (by apply finalSelectionOf_inBounds).
  rewrite Forall_forall in Hfs.
  assert (Hwfc : wfGrid (clearCells g finalSelection))
    by (by apply wfGrid_clearCells).
  unfold cleared, Power.clearedGrid. fold finalSelection.
  unfold Power.isSuperBonus, Power.isBonus. split_and!.
  - intros s Hs. by apply (cellAt_clearedGrid_outside rng g sel s).
  - intros Hlt s Hs.
    rewrite (proj2 (Nat.leb_gt 10 _)), (proj2 (Nat.leb_gt 5 _)) by lia.
    assert (Hclr : cellAt (clearCells g finalSelection) (cr s) (cc s) = None).
    { apply cellAt_clearCells; [done|by apply Hfs|by left]. }
    by destruct (last sel).
  - intros [H5 H10] lastSelected Hlast. rewrite Hlast.
    rewrite (proj2 (Nat.leb_gt 10 _)), (proj2 (Nat.leb_le 5 _)) by lia.
    assert (Hin : inBounds lastSelected).
    { apply Hfs. by apply last_in_finalSelection. }
    split.
    + destruct Hin. by apply cellAt_setCell_same.
    + intros s Hs Hne. rewrite cellAt_setCell_coord by done.
      apply cellAt_clearCells; [done|by apply Hfs|by left].
Qed.

Lemma clearedGrid_frame_witness :
  wfGrid sampleGrid ∧ Forall inBounds sampleChain5
  ∧ cellAt (Power.clearedGrid sampleRng sampleGrid sampleChain5) 1 4
    = Some (Power.specialBall sampleRng).
Proof.
  assert (Hwf : wfGrid sampleGrid).
  { split; [reflexivity|]. vm_compute. repeat constructor. }
  assert (Hb : Forall inBounds sampleChain5).
  { repeat constructor; vm_compute; lia. }
  split; [exact Hwf|]. split; [exact Hb|].
  refine (proj1 (proj2 (proj2 (clearedGrid_frame sampleRng sampleGrid
    sampleChain5 Hwf Hb)) _ (mkCoord 1 4) eq_refl)).
  vm_compute. lia.
Defined.

(** X13. A release changes only the columns it removes tiles from: on a
    full board, a column that holds no cell of the removal set is the same
    after the commit. *)
Theorem commit_keeps_untouched_columns (rng : Rng) (st : Power.AppState)
  (c : nat) :
  fullGrid (Power.grid st) → Forall inBounds (Power.selection st) →
  commits st → (c < COLS)%nat →
  (∀ s, s ∈ Power.finalSelectionOf (Power.grid st) (Power.selection st) →
        cc s ≠ c) →
  column (Power.grid (Power.handlePointerUp rng st)) c
  = column (Power.grid st) c.
Proof.
  intros Hfull Hsel Hc Hlt Hcol.
  apply fullGrid_cellAt in Hfull as [Hwf Hcells].
  rewrite handlePointerUp_commits by done.
  assert (Hgrid : Power.grid (Power.commitSelection rng st)
                  = applyGravity rng (Power.clearedGrid rng (Power.grid st)
                                        (Power.selection st))).
  { unfold Power.commitSelection.
    by destruct (Power.collectPowerups _ _) as [[? ?] ?]. }
  rewrite Hgrid.
  pose proof (wfGrid_clearedGrid rng _ (Power.selection st) Hwf) as Hwfc.
  destruct (applyGravity_columns rng _ Hwfc) as [_ Hcols].
  rewrite Hcols by done.
  assert (Hsame : column (Power.clearedGrid rng (Power.grid st) (Power.selection st)) c
                  = column (Power.grid st) c).
  { apply column_ext; [by rewrite (proj1 Hwfc), (proj1 Hwf)|].
    intros r.
    apply (cellAt_clearedGrid_outside rng _ _ (mkCoord r c)).
    intros Hin. by apply (Hcol _ Hin). }
  rewrite Hsame. unfold settledColumn.
  destruct (occupied_full (column (Power.grid st) c)) as [Hocc Hlen].
  { apply Forall_lookup. intros r x Hx.
    assert (Hr : (r < ROWS)%nat).
    { apply lookup_lt_Some in Hx. by rewrite length_column, (proj1 Hwf) in Hx. }
    specialize (Hcells r c Hr Hlt). rewrite cellAt_column, Hx in Hcells. done. }
  rewrite Hlen, Nat.sub_diag, Hocc. done.
Qed.

Lemma commit_keeps_untouched_columns_witness :
  fullGrid sampleGrid ∧ commits (sampleDrag sampleChain5 0 0 0)
  ∧ column (Power.grid (Power.handlePointerUp sampleRng
                          (sampleDrag sampleChain5 0 0 0))) 0
    = column sampleGrid 0.
Proof.
  assert (Hfull : fullGrid sampleGrid).
  { split; [split; [reflexivity|]; vm_compute; repeat constructor|].
    apply (bool_decide_unpack _). by vm_compute. }
  assert (Hb : Forall inBounds sampleChain5).
  { repeat constructor; vm_compute; lia. }
  assert (Hc : commits (sampleDrag sampleChain5 0 0 0)).
  { split_and!; [reflexivity..| |vm_compute; by eexists]. vm_compute. lia. }
  split; [exact Hfull|]. split; [exact Hc|].
  refine (commit_keeps_untouched_columns sampleRng
    (sampleDrag sampleChain5 0 0 0) 0 Hfull Hb Hc _ _).
  - vm_compute. lia.
  - intros s Hs.
    change (s ∈ Power.finalSelectionOf sampleGrid sampleChain5) in Hs.
    rewrite (finalSelectionOf_plain _ yellow _ plainChain_sample5) in Hs.
    unfold sampleChain5 in Hs.
    repeat (apply elem_of_cons in Hs as [->|Hs]; [simpl; lia|]).
    by apply elem_of_nil in Hs.
Defined.

(** * Phases and releases, continued *)

Section release_facts.
Implicit Types (g : Grid) (sel : list Coord) (st : Power.AppState).

Lemma step_not_won st e :
  Power.gameState st ≠ won → Power.gameState (Power.step st e) ≠ won.
Proof.
  intros Hn.
  destruct e as [r c|r c|rng| |newGrid cfg|newGrid cfg|newGrid cfg]; simpl;
    try done.
  - unfold Power.handlePointerDown. by destruct (_ || _).
  - unfold Power.handlePointerMove, Power.handleCellEnter.
    destruct (_ || _); [done|]. by case_bool_decide.
  - unfold Power.handlePointerUp.
    destruct (negb (Power.isDragging st)); [done|].
    destruct (_ && _); [|done].
    destruct (Power.firstBallOf _ _).
    + destruct (commitSelection_phase rng st) as [-> _].
      destruct (isWon _); [done|]. by destruct (_ <=? 0).
    + by destruct (0 <? _)%nat.
Qed.

Lemma chainColorOf_all_wild g sel :
  Forall (λ s, ∃ b, cellAt g (cr s) (cc s) = Some b ∧ color b = special) sel →
  Power.chainColorOf g sel = None ∧ Power.usedColor g rainbow sel = false.
Proof.
  induction sel as [|s sel IH]; intros Hall; simpl; [done|].
  apply Forall_cons in Hall as [(b & Hb & Hk) Hall].
  destruct (IH Hall) as [IH1 IH2]. rewrite Hb, Hk. simpl. by split.
Qed.
End release_facts.

(** X14. The variant with powerups never shows the final win: from the
    first render on, the phase is never [won] (a finished level is always
    [levelup]). *)
Theorem power_never_reaches_won (g0 : Grid) (procedural : LevelConfig)
  (es : list Power.Event) :
  Power.gameState (Power.run (Power.initialState g0 procedural) es) ≠ won.
Proof.
  induction es as [|e es IH] using rev_ind; [done|].
  rewrite run_snoc. by apply step_not_won.
Qed.

(** X15. The loss is decided on the moves before the refund of a combo
    breakout: a commit that leaves targets open and brings
    [moves - 1 + addedMoves] to 0 or less ends in [lost] even when the
    breakout of the same commit adds 2 moves. *)
Theorem loss_ignores_breakout_refund (rng : Rng) (st : Power.AppState) :
  commits st →
  let finalSelection :=
    Power.finalSelectionOf (Power.grid st) (Power.selection st) in
  let newMoves :=
    Power.newMovesOf (Power.moves st) (Power.grid st) (Power.selection st) in
  let st' := Power.handlePointerUp rng st in
  Power.comboBreakout (Power.comboMeter st) finalSelection = true →
  newMoves ≤ 0 → isWon (Power.targets st') = false →
  Power.gameState st' = lost ∧ Power.moves st' = newMoves + 2.
Proof.
  intros Hc finalSelection newMoves st' Hb Hle Hwon. unfold st' in *.
  rewrite handlePointerUp_commits in * by done.
  destruct (commitSelection_phase rng st) as [Hphase _].
  rewrite Hphase, Hwon. fold newMoves.
  rewrite (proj2 (Z.leb_le _ _)) by done. split; [done|].
  unfold Power.commitSelection.
  destruct (Power.collectPowerups _ _) as [[? ?] ?]. simpl.
  fold finalSelection. by rewrite Hb.
Qed.

Lemma loss_ignores_breakout_refund_witness :
  commits (sampleState sampleGrid sampleChain5 1
             (<[yellow := 10]> (<[red := 10]> ∅)) 90)
  ∧ Power.gameState (Power.handlePointerUp sampleRng
      (sampleState sampleGrid sampleChain5 1
         (<[yellow := 10]> (<[red := 10]> ∅)) 90)) = lost
  ∧ Power.moves (Power.handlePointerUp sampleRng
      (sampleState sampleGrid sampleChain5 1
         (<[yellow := 10]> (<[red := 10]> ∅)) 90)) = 2.
Proof.
  assert (Hc : commits (sampleState sampleGrid sampleChain5 1
                          (<[yellow := 10]> (<[red := 10]> ∅)) 90)).
  { split_and!; [reflexivity..| |vm_compute; by eexists]. vm_compute. lia. }
  split; [exact Hc|].
  refine (loss_ignores_breakout_refund sampleRng _ Hc _ _ _).
  - by vm_compute.
  - by vm_compute.
  - by vm_compute.
Defined.

(** X16. A chain of [special] tiles only has no chain color: its commit
    removes just the chain, and leaves every target as it is. *)
Theorem special_only_chain_leaves_targets (rng : Rng) (st : Power.AppState) :
  commits st →
  Forall (λ s, ∃ b, cellAt (Power.grid st) (cr s) (cc s) = Some b
                    ∧ color b = special) (Power.selection st) →
  Power.finalSelectionOf (Power.grid st) (Power.selection st) = Power.selection st
  ∧ Power.targets (Power.handlePointerUp rng st) = Power.targets st.
Proof.
  intros Hc Hall.
  destruct (chainColorOf_all_wild _ _ Hall) as [Hcc Hused].
  assert (Hfs : Power.finalSelectionOf (Power.grid st) (Power.selection st)
                = Power.selection st).
  { unfold Power.finalSelectionOf. rewrite Hcc.
    by destruct (Power.collectPowerups _ _) as [[? ?] ?]. }
  split; [done|]. rewrite handlePointerUp_commits by done.
  unfold Power.commitSelection.
  destruct (Power.collectPowerups _ _) as [[? ?] ?]. simpl.
  unfold Power.updateTargets. by rewrite Hfs, Hused, Hcc.
Qed.

Lemma special_only_chain_leaves_targets_witness :
  commits (sampleState sampleSpecialGrid sampleSpecialChain 20
             (<[yellow := 10]> (<[red := 10]> ∅)) 0)
  ∧ Power.targets (Power.handlePointerUp sampleRng
      (sampleState sampleSpecialGrid sampleSpecialChain 20
         (<[yellow := 10]> (<[red := 10]> ∅)) 0))
    = <[yellow := 10]> (<[red := 10]> ∅).
Proof.
  assert (Hc : commits (sampleState sampleSpecialGrid sampleSpecialChain 20
                          (<[yellow := 10]> (<[red := 10]> ∅)) 0)).
  { split_and!; [reflexivity..| |vm_compute; by eexists]. vm_compute. lia. }
  split; [exact Hc|].
  refine (proj2 (special_only_chain_leaves_targets sampleRng _ Hc _)).
  repeat (constructor; [exists (mkBall "t" special None); by vm_compute|]).
  constructor.
Defined.

(** X17. A release always ends the drag, and a release that resolves no
    match changes nothing else but the combo: the selection is cleared and
    [isDragging] unset, while grid, score, moves, targets, phase, level
    and multiplier turns stay as they are. *)
Theorem release_without_match_keeps_the_game (rng : Rng) (st : Power.AppState) :
  Power.isDragging st = true →
  let st' := Power.handlePointerUp rng st in
  Power.selection st' = [] ∧ Power.isDragging st' = false
  ∧ (¬ commits st →
     Power.grid st' = Power.grid st ∧ Power.score st' = Power.score st
     ∧ Power.moves st' = Power.moves st ∧ Power.targets st' = Power.targets st
     ∧ Power.gameState st' = Power.gameState st
     ∧ Power.level st' = Power.level st
     ∧ Power.multiplierTurns st' = Power.multiplierTurns st).
Proof.
  intros Hd st'. unfold st', Power.handlePointerUp. rewrite Hd. cbn [negb].
  destruct (MIN_MATCH <=? length (Power.selection st))%nat eqn:Hlen;
    cbn [andb]; [|by split_and!].
  case_bool_decide as Hplay; [|by split_and!].
  destruct (Power.firstBallOf _ _) as [b|] eqn:Hb.
  - unfold Power.commitSelection.
    destruct (Power.collectPowerups _ _) as [[? ?] ?]. simpl.
    split_and!; [done|done|]. intros Hn. exfalso. apply Hn.
    split_and!; [done|done|by apply Nat.leb_le|]. rewrite Hb. by eexists.
  - destruct (0 <? _)%nat; by split_and!.
Qed.

Lemma release_without_match_keeps_the_game_witness :
  Power.isDragging (sampleDrag [mkCoord 0 1; mkCoord 0 2] 0 3 50) = true
  ∧ Power.selection (Power.handlePointerUp sampleRng
      (sampleDrag [mkCoord 0 1; mkCoord 0 2] 0 3 50)) = [].
Proof.
  split; [reflexivity|].
  exact (proj1 (release_without_match_keeps_the_game sampleRng
    (sampleDrag [mkCoord 0 1; mkCoord 0 2] 0 3 50) eq_refl)).
Defined.

(** * Level configurations *)

Section level_facts.
Implicit Types (cs : list BallColor) (k : BallColor).

Lemma assignTargets_spec (levelIndex : nat) (draw : nat → nat) cs :
  ∀ (i : nat) (acc : gmap BallColor Z * Z),
  let q := baseTargetsOf levelIndex / Z.of_nat (numColorsOf levelIndex) in
  let res := assignTargets levelIndex draw i cs acc in
  (∀ k t, res.1 !! k = Some t →
          acc.1 !! k = Some t ∨ (k ∈ cs ∧ q ≤ t ≤ q + 4))
  ∧ (∀ k, k ∈ cs → is_Some (res.1 !! k))
  ∧ dom res.1 = dom acc.1 ∪ list_to_set cs.
Proof.
  induction cs as [|k0 cs IH]; intros i acc q res.
  - split_and!; [by left|by intros k ?%elem_of_nil|]. unfold res. simpl.
    by rewrite (right_id_L ∅ (∪)).
  - unfold res. cbn [assignTargets]. fold q.
    set (count := q + Z.of_nat (draw i `mod` 5)).
    destruct (IH (S i) (<[k0 := count]> acc.1, acc.2 + count))
      as (Hval & Hin & Hdom).
    assert (Hcount : q ≤ count ≤ q + 4).
    { unfold count. pose proof (Nat.mod_upper_bound (draw i) 5 ltac:(lia)). lia. }
    cbn [fst] in *. split_and!.
    + intros k t Hk. destruct (Hval k t Hk) as [Hacc|[Hkin Ht]].
      * destruct (decide (k = k0)) as [->|Hne].
        -- rewrite lookup_insert_eq in Hacc. injection Hacc as <-.
           right. split; [by left|done].
        -- rewrite lookup_insert_ne in Hacc by done. by left.
      * right. split; [by right|done].
    + intros k [->|Hk]%elem_of_cons; [|by apply Hin].
      apply elem_of_dom. rewrite Hdom. apply elem_of_union. left.
      apply elem_of_dom. rewrite lookup_insert_eq. by eexists.
    + rewrite Hdom, dom_insert_L. simpl.
      rewrite (comm_L (∪) {[k0]} (dom acc.1)). by rewrite (assoc_L (∪)).
Qed.

Lemma numColorsOf_bounds (levelIndex : nat) :
  (length LEVELS ≤ levelIndex)%nat →
  (4 ≤ numColorsOf levelIndex ≤ 5)%nat.
Proof.
  unfold numColorsOf. change (length LEVELS) with 5%nat. intros Hle.
  assert (1 ≤ levelIndex / 3)%nat.
  { apply Nat.div_le_lower_bound; lia. }
  lia.
Qed.

Lemma quota_lower (levelIndex : nat) :
  (length LEVELS ≤ levelIndex)%nat →
  5 ≤ baseTargetsOf levelIndex / Z.of_nat (numColorsOf levelIndex).
Proof.
  intros Hle. pose proof (numColorsOf_bounds levelIndex Hle) as Hn.
  unfold baseTargetsOf. change (length LEVELS) with 5%nat in *.
  apply Z.div_le_lower_bound; lia.
Qed.

Lemma authored_levels_sound :
  Forall (λ config,
            12 ≤ cfg_moves config
            ∧ map_Forall (λ k t, 0 < t ∧ k ∈ colors) (cfg_targets config)
            ∧ isWon (cfg_targets config) = false) LEVELS.
Proof.
  unfold LEVELS.
  repeat (apply Forall_cons_2;
    [split_and!; [simpl; lia|apply (bool_decide_unpack _); by vm_compute
                 |by vm_compute]|]).
  apply Forall_nil_2.
Qed.
End level_facts.

(** X18. Every level can be played: for every level index
    [generateLevelConfig] gives at least 12 moves and targets that are all
    positive and on base colors, so the level is not won when it starts;
    past the authored levels there is one target for each of the
    [min(5, 3 + floor(levelIndex / 3))] drawn colors, each between the
    quota [floor(baseTargets / numColors)] and the quota plus 4. *)
Theorem generateLevelConfig_is_playable (levelIndex : nat)
  (shuffled : list BallColor) (draw : nat → nat) :
  shuffled ≡ₚ colors →
  let config :=
    Power.generateLevelConfig levelIndex
      (proceduralConfig levelIndex shuffled draw) in
  let quota := baseTargetsOf levelIndex / Z.of_nat (numColorsOf levelIndex) in
  12 ≤ cfg_moves config
  ∧ map_Forall (λ k t, 0 < t ∧ k ∈ colors) (cfg_targets config)
  ∧ isWon (cfg_targets config) = false
  ∧ ((length LEVELS ≤ levelIndex)%nat →
     size (cfg_targets config) = numColorsOf levelIndex
     ∧ map_Forall (λ _ t, quota ≤ t ≤ quota + 4) (cfg_targets config)).
Proof.
  intros Hperm config quota. unfold config, Power.generateLevelConfig.
  destruct (LEVELS !! levelIndex) as [authored|] eqn:Hlv.
  { pose proof authored_levels_sound as Hall. rewrite Forall_lookup in Hall.
    destruct (Hall levelIndex authored Hlv) as (Hm & Ht & Hw).
    split_and!; [done..|]. intros Hle. apply lookup_lt_Some in Hlv. lia. }
  apply lookup_ge_None in Hlv.
  pose proof (numColorsOf_bounds levelIndex Hlv) as Hn.
  pose proof (quota_lower levelIndex Hlv) as Hq. fold quota in Hq.
  unfold proceduralConfig.
  set (cs := take (numColorsOf levelIndex) shuffled).
  destruct (assignTargets_spec levelIndex draw cs 0 (∅, 0))
    as (Hval & Hin & Hdom). fold quota in Hval.
  destruct (assignTargets levelIndex draw 0 cs (∅, 0)) as [targets total].
  cbn [fst cfg_moves cfg_targets] in *.
  assert (Hlen : length shuffled = 5%nat) by (by rewrite Hperm).
  assert (Hnd : NoDup cs).
  { unfold cs. eapply sublist_NoDup; [|apply sublist_take]. rewrite Hperm.
    apply (bool_decide_unpack _). by vm_compute. }
  assert (Hsub : ∀ k, k ∈ cs → k ∈ colors).
  { intros k Hk. rewrite <- Hperm. unfold cs in Hk.
    by apply (subseteq_take (numColorsOf levelIndex) shuffled). }
  assert (Hrange : map_Forall (λ _ t, quota ≤ t ≤ quota + 4) targets).
  { intros k t Hk. destruct (Hval k t Hk) as [He|[_ ?]]; [|done].
    by rewrite lookup_empty in He. }
  split_and!.
  - lia.
  - intros k t Hk. specialize (Hrange k t Hk). simpl in Hrange.
    split; [lia|]. destruct (Hval k t Hk) as [He|[Hkin _]];
      [by rewrite lookup_empty in He|by apply Hsub].
  - unfold isWon. apply bool_decide_eq_false. intros Hall.
    destruct cs as [|k0 cs'] eqn:Hcs.
    { apply (f_equal length) in Hcs. unfold cs in Hcs.
      rewrite length_take, Hlen in Hcs. simpl in Hcs. lia. }
    destruct (Hin k0) as [t Ht]; [by left|].
    specialize (Hall k0 t Ht). specialize (Hrange k0 t Ht). simpl in *. lia.
  - intros _. split; [|done].
    rewrite <- size_dom, Hdom, dom_empty_L, (left_id_L ∅ (∪)).
    rewrite size_list_to_set by done. unfold cs. rewrite length_take, Hlen. lia.
Qed.

Lemma generateLevelConfig_is_playable_witness :
  [purple; green; yellow; blue; red] ≡ₚ colors
  ∧ 12 ≤ cfg_moves (Power.generateLevelConfig 7
            (proceduralConfig 7 [purple; green; yellow; blue; red] (λ i, i))).
Proof.
  assert (Hp : [purple; green; yellow; blue; red] ≡ₚ colors).
  { exact (reverse_Permutation colors). }
  split; [exact Hp|].
  exact (proj1 (generateLevelConfig_is_playable 7 _ (λ i, i) Hp)).
Defined.

Lemma basic_step_levelup (st : Basic.AppState) (e : Basic.Event) :
  (Basic.gameState st = levelup → (Basic.level st < length LEVELS - 1)%nat) →
  Basic.gameState (Basic.step st e) = levelup →
  (Basic.level (Basic.step st e) < length LEVELS - 1)%nat.
Proof.
  intros Hinv.
  destruct e as [r c|r c|rng| |newGrid|newGrid|newGrid]; simpl; try done.
  - unfold Basic.handlePointerDown. by destruct (_ || _).
  - unfold Basic.handlePointerMove, Basic.handleCellEnter.
    destruct (_ || _); [done|]. by case_bool_decide.
  - unfold Basic.handlePointerUp.
    destruct (negb (Basic.isDragging st)); [done|].
    destruct (MIN_MATCH <=? _)%nat; cbn [andb]; [|done].
    case_bool_decide as Hplay; [|done].
    destruct (Basic.firstBallOf _ _); [|done].
    unfold Basic.commitSelection. cbn [Basic.gameState Basic.level].
    destruct (isWon _).
    + destruct (Basic.level st <? length LEVELS - 1)%nat eqn:E; [|done].
      intros _. by apply Nat.ltb_lt.
    + destruct (_ <=? 0); [done|]. rewrite Hplay. done.
  - unfold Basic.startNextLevel.
    destruct (LEVELS !! S (Basic.level st)) as [config|] eqn:Hl; simpl; [done|].
    intros Hup. specialize (Hinv Hup). apply lookup_ge_None in Hl. lia.
Qed.

(** X19. In the variant of [src/App.tsx] the NEXT LEVEL screen always has
    a next level: whenever the phase is [levelup], [LEVELS[level + 1]]
    exists, so [startNextLevel] loads it and returns to [playing]. *)
Theorem basic_levelup_has_next_level (st0 : Basic.AppState)
  (es : list Basic.Event) (newGrid : Grid) :
  (Basic.gameState st0 = levelup → (Basic.level st0 < length LEVELS - 1)%nat) →
  let st := foldl Basic.step st0 es in
  Basic.gameState st = levelup →
  ∃ config, LEVELS !! S (Basic.level st) = Some config
    ∧ Basic.moves (Basic.startNextLevel newGrid st) = cfg_moves config
    ∧ Basic.targets (Basic.startNextLevel newGrid st) = cfg_targets config
    ∧ Basic.gameState (Basic.startNextLevel newGrid st) = playing.
Proof.
  intros Hinv st Hup.
  assert (Hlt : (Basic.level st < length LEVELS - 1)%nat).
  { unfold st in *. clear st. revert Hup.
    induction es as [|e es IH] using rev_ind; [done|].
    rewrite foldl_app. simpl. by apply basic_step_levelup. }
  destruct (lookup_lt_is_Some_2 LEVELS (S (Basic.level st))) as [config Hc]; [lia|].
  exists config. unfold Basic.startNextLevel. by rewrite Hc.
Qed.

Lemma basic_levelup_has_next_level_witness :
  Basic.gameState
    (foldl Basic.step (sampleBasicWin sampleChain5) [Basic.PointerUp sampleRng])
  = levelup
  ∧ ∃ config, LEVELS !! 1%nat = Some config.
Proof.
  assert (Hinv : Basic.gameState (sampleBasicWin sampleChain5) = levelup →
                 (Basic.level (sampleBasicWin sampleChain5) < length LEVELS - 1)%nat).
  { intros H. discriminate H. }
  assert (Hup : Basic.gameState
    (foldl Basic.step (sampleBasicWin sampleChain5) [Basic.PointerUp sampleRng])
    = levelup) by (by vm_compute).
  split; [exact Hup|].
  destruct (basic_levelup_has_next_level (sampleBasicWin sampleChain5)
              [Basic.PointerUp sampleRng] sampleGrid Hinv Hup)
    as (config & Hc & _).
  exists config. exact Hc.
Defined.

(** X20. In the variant with [COLOR_REQS] the check mark of the selection
    overlay tells what a release does: when [isValidSelection] holds, the
    release removes the chain, adds 10 points per tile and lowers the
    target of the chain's color; when it does not, the release changes
    neither grid, score nor targets.  Either way the drag ends. *)
Theorem reqs_indicator_agrees_with_release (rng : Rng) (st : Reqs.AppState) :
  Reqs.isDragging st = true →
  let st' := Reqs.handlePointerUp rng st in
  let L := Z.of_nat (length (Reqs.selection st)) in
  Reqs.selection st' = [] ∧ Reqs.isDragging st' = false
  ∧ (Reqs.isValidSelection st = true →
     ∃ firstBall req,
       Basic.firstBallOf (Reqs.grid st) (Reqs.selection st) = Some firstBall
       ∧ Reqs.COLOR_REQS (color firstBall) = Some req
       ∧ (req ≤ length (Reqs.selection st))%nat
       ∧ Reqs.score st' = Reqs.score st + L * 10
       ∧ Reqs.grid st'
         = applyGravity rng (clearCells (Reqs.grid st) (Reqs.selection st))
       ∧ (∀ t, Reqs.targets st !! color firstBall = Some t →
               Reqs.targets st' !! color firstBall = Some (t - Z.min t L)))
  ∧ (Reqs.isValidSelection st = false →
     Reqs.grid st' = Reqs.grid st ∧ Reqs.score st' = Reqs.score st
     ∧ Reqs.targets st' = Reqs.targets st).
Proof.
  intros Hd st' L. unfold st', Reqs.handlePointerUp, Reqs.isValidSelection.
  rewrite Hd. cbn [negb].
  destruct (Reqs.selection st) as [|s0 sel] eqn:Hsel; [by split_and!|].
  cbn [length Nat.ltb Nat.leb].
  destruct (Basic.firstBallOf (Reqs.grid st) (s0 :: sel)) as [firstBall|] eqn:Hb;
    [|by split_and!].
  destruct (Reqs.meetsReq (color firstBall) (s0 :: sel)) eqn:Hreq;
    [|by split_and!].
  split_and!; [done|done| |done]. intros _.
  unfold Reqs.meetsReq in Hreq.
  destruct (Reqs.COLOR_REQS (color firstBall)) as [req|] eqn:Hcr; [|done].
  apply Nat.leb_le in Hreq.
  exists firstBall, req. split_and!; try done.
  intros t Ht. simpl. unfold Basic.updateTargets. rewrite Ht, lookup_insert_eq.
  f_equal. unfold L. try rewrite Hsel. cbn [length]. lia.
Qed.

Lemma reqs_indicator_agrees_with_release_witness :
  Reqs.isDragging (sampleReqsDrag sampleChain5) = true
  ∧ Reqs.isValidSelection (sampleReqsDrag sampleChain5) = false
  ∧ Reqs.score (Reqs.handlePointerUp sampleRng (sampleReqsDrag sampleChain5)) = 0.
Proof.
  split; [reflexivity|]. split; [by vm_compute|].
  exact (proj1 (proj2 (proj2 (proj2 (proj2
    (reqs_indicator_agrees_with_release sampleRng (sampleReqsDrag sampleChain5)
       eq_refl))) eq_refl))).
Defined.

(** * Where the reward tile lands *)

Section reward_position.
Implicit Types (g : Grid) (sel fs : list Coord) (s : Coord)
  (l pre post : list (option Ball)).

Lemma occupied_app l1 l2 : occupied (l1 ++ l2) = occupied l1 ++ occupied l2.
Proof. unfold occupied. apply omap_app. Qed.

Lemma occupied_le l : (length (occupied l) ≤ length l)%nat.
Proof.
  induction l as [|[b|] l IH]; [done| |].
  - change (occupied (Some b :: l)) with (b :: occupied l). simpl. lia.
  - change (occupied (None :: l)) with (occupied l). simpl. lia.
Qed.

(** A tile of a column comes to rest as many rows lower as there are empty
    cells below it. *)
Lemma settledColumn_middle rng c pre post b :
  settledColumn rng c (pre ++ Some b :: post)
    !! (length pre + (length post - length (occupied post)))%nat
  = Some (Some b).
Proof.
  unfold settledColumn.
  rewrite occupied_app. change (occupied (Some b :: post)) with (b :: occupied post).
  pose proof (occupied_le pre) as Hpre. pose proof (occupied_le post) as Hpost.
  rewrite lookup_app_r; rewrite length_fmap, length_seq, !length_app; simpl;
    [|lia].
  rewrite fmap_app, fmap_cons.
  replace (_ - _)%nat with (length (Some <$> occupied pre) + 0)%nat
    by (rewrite length_fmap; lia).
  by rewrite lookup_app_r, Nat.add_comm, Nat.add_sub by lia.
Qed.

Lemma settledColumn_lookup rng c l r b :
  l !! r = Some (Some b) →
  settledColumn rng c l
    !! (r + (length (drop (S r) l) - length (occupied (drop (S r) l))))%nat
  = Some (Some b).
Proof.
  intros Hr. pose proof (take_drop_middle l r (Some b) Hr) as Hl.
  pose proof (settledColumn_middle rng c (take r l) (drop (S r) l) b) as Hs.
  rewrite Hl, length_take_le in Hs; [done|].
  apply lookup_lt_Some in Hr. lia.
Qed.

Lemma column_rows g c : column g c = (λ r, cellAt g r c) <$> seq 0 (length g).
Proof.
  apply list_eq. intros r. rewrite list_lookup_fmap.
  destruct (decide (r < length g)%nat) as [Hlt|Hge].
  - rewrite lookup_seq_lt by done. simpl. rewrite cellAt_column.
    destruct (column g c !! r) as [x|] eqn:Hx; [done|].
    apply lookup_ge_None in Hx. rewrite length_column in Hx. lia.
  - rewrite lookup_seq_ge by lia. simpl. apply lookup_ge_None.
    rewrite length_column. lia.
Qed.

(** Counting the empty cells of a stretch of rows. *)
Lemma occupied_rows_count (f : nat → option Ball) (p : nat → bool) (rows : list nat) :
  (∀ r, r ∈ rows → f r = None ↔ p r = true) →
  (length (occupied (f <$> rows)) + length (filter (λ r, p r = true) rows)
   = length rows)%nat.
Proof.
  induction rows as [|r rows IH]; intros Hrows; [done|].
  rewrite fmap_cons, filter_cons.
  assert (IH' := IH (λ r' Hr', Hrows r' (list_elem_of_further _ _ _ Hr'))).
  pose proof (Hrows r (list_elem_of_here _ _)) as Hr.
  destruct (f r) as [b|] eqn:Hf.
  - change (occupied (Some b :: (f <$> rows))) with (b :: occupied (f <$> rows)).
    destruct (decide (p r = true)) as [Hp|Hp].
    + apply Hr in Hp. done.
    + simpl. lia.
  - change (occupied (None :: (f <$> rows))) with (occupied (f <$> rows)).
    destruct (decide (p r = true)) as [Hp|Hp].
    + simpl. lia.
    + destruct Hp. by apply Hr.
Qed.

(** The [existsb] of [usedRainbow] and of the chain color, read on the
    board: some cell of the removal set holds a tile of color [k]. *)
Lemma usedColor_true g k fs :
  Power.usedColor g k fs = true
  ↔ ∃ s b, s ∈ fs ∧ cellAt g (cr s) (cc s) = Some b ∧ color b = k.
Proof.
  unfold Power.usedColor. rewrite existsb_exists. split.
  - intros (s & Hin & Hs). apply list_elem_of_In in Hin.
    destruct (cellAt g (cr s) (cc s)) as [b|] eqn:Hb; [|done].
    apply bool_decide_eq_true in Hs. by exists s, b.
  - intros (s & b & Hin & Hb & Hk). exists s.
    split; [by apply list_elem_of_In|]. rewrite Hb.
    by apply bool_decide_eq_true.
Qed.

(** On a full board, the reward tile written at the last cell of the chain
    comes to rest [removedBelow] rows lower. *)
Lemma reward_tile_lands rng g sel lastSelected reward :
  fullGrid g → inBounds lastSelected →
  let fs := Power.finalSelectionOf g sel in
  let cleared := setCell (clearCells g fs) (cr lastSelected) (cc lastSelected)
                   (Some reward) in
  cellAt (applyGravity rng cleared)
    (cr lastSelected + removedBelow fs (cr lastSelected) (cc lastSelected))
    (cc lastSelected)
  = Some reward.
Proof.
  intros Hfull [Hr Hc] fs cleared.
  apply fullGrid_cellAt in Hfull as [Hwf Hfull].
  assert (Hwfc : wfGrid cleared)
    by (by apply wfGrid_setCell, wfGrid_clearCells).
  destruct (applyGravity_columns rng cleared Hwfc) as [_ Hcols].
  rewrite cellAt_column, Hcols by done.
  assert (Hcell : cellAt cleared (cr lastSelected) (cc lastSelected) = Some reward).
  { unfold cleared. apply cellAt_setCell_same; [by apply wfGrid_clearCells|done..]. }
  assert (Hlook : column cleared (cc lastSelected) !! cr lastSelected
                  = Some (Some reward)).
  { rewrite cellAt_column in Hcell.
    destruct (column cleared (cc lastSelected) !! cr lastSelected) as [x|] eqn:Hx;
      [by subst|].
    apply lookup_ge_None in Hx. rewrite length_column, (proj1 Hwfc) in Hx. lia. }
  pose proof (settledColumn_lookup rng (cc lastSelected) _ _ _ Hlook) as Hs.
  assert (Hrows : ∀ r,
    r ∈ seq (S (cr lastSelected)) (ROWS - S (cr lastSelected)) →
    cellAt cleared r (cc lastSelected) = None
    ↔ inSelection fs r (cc lastSelected) = true).
  { intros r [Hlo Hhi]%elem_of_seq.
    assert (Hne : lastSelected ≠ mkCoord r (cc lastSelected)).
    { destruct lastSelected as [r0 c0]. simpl in *. intros [= ->]. lia. }
    unfold cleared.
    rewrite (cellAt_setCell_coord _ lastSelected (mkCoord r (cc lastSelected)))
      by done.
    destruct (inSelection fs r (cc lastSelected)) eqn:Hin.
    - split; [done|]. intros _.
      apply (cellAt_clearCells fs g (mkCoord r (cc lastSelected))); [done| |].
      + split; simpl; [lia|done].
      + left. by apply inSelection_true.
    - apply inSelection_false in Hin.
      rewrite (cellAt_clearCells_other fs g (mkCoord r (cc lastSelected))) by done.
      simpl. destruct (Hfull r (cc lastSelected)) as [b Hb]; [lia|done|].
      rewrite Hb. split; intros; done. }
  apply occupied_rows_count in Hrows. rewrite length_seq in Hrows.
  assert (Hcount :
    (length (drop (S (cr lastSelected)) (column cleared (cc lastSelected)))
     - length (occupied (drop (S (cr lastSelected))
                           (column cleared (cc lastSelected))))
     = removedBelow fs (cr lastSelected) (cc lastSelected))%nat).
  { rewrite column_rows, (proj1 Hwfc), <- fmap_drop, drop_seq, length_fmap,
      length_seq, Nat.add_0_l.
    unfold removedBelow. lia. }
  by rewrite <- Hcount, Hs.
Qed.
End reward_position.

(** C8. A commit whose final removal set has at least ten cells writes a
    [rainbow] tile into the last cell of the chain as it was drawn and
    empties every other cell of the removal set; gravity then runs over
    that grid, so on the board after the commit the tile lies in the column
    of that cell, as many rows below it as the removal set has cells below
    it in that column, and at that cell itself when there is none.  A
    commit whose removal set has a cell that holds a [rainbow] tile sets
    every target [t] to [max(0, t - removalCount)]; a commit whose removal
    set has no such cell leaves every target but the chain color's as it
    was. *)
Theorem super_chain_places_rainbow (rng : Rng) (st : Power.AppState) :
  stableState st → fullGrid (Power.grid st) → commits st →
  let g := Power.grid st in
  let sel := Power.selection st in
  let finalSelection := Power.finalSelectionOf g sel in
  let cleared := Power.clearedGrid rng g sel in
  let st' := Power.handlePointerUp rng st in
  ((10 ≤ length finalSelection)%nat →
   ∃ lastSelected,
     let fell := removedBelow finalSelection (cr lastSelected) (cc lastSelected) in
     last sel = Some lastSelected
     ∧ cellAt cleared (cr lastSelected) (cc lastSelected)
       = Some (Power.rainbowBall rng)
     ∧ (∀ s, s ∈ finalSelection → s ≠ lastSelected →
          cellAt cleared (cr s) (cc s) = None)
     ∧ cellAt (Power.grid st') (cr lastSelected + fell) (cc lastSelected)
       = Some (Power.rainbowBall rng)
     ∧ (fell = 0%nat →
        cellAt (Power.grid st') (cr lastSelected) (cc lastSelected)
        = Some (Power.rainbowBall rng)))
  ∧ ((∃ s b, s ∈ finalSelection ∧ cellAt g (cr s) (cc s) = Some b
             ∧ color b = rainbow) →
     Power.targets st'
     = (λ t, Z.max 0 (t - Z.of_nat (length finalSelection))) <$> Power.targets st)
  ∧ (¬ (∃ s b, s ∈ finalSelection ∧ cellAt g (cr s) (cc s) = Some b
               ∧ color b = rainbow) →
     ∀ k, Power.chainColorOf g sel ≠ Some k →
          Power.targets st' !! k = Power.targets st !! k).
Proof.
  intros [Hwf Hsel] Hfull Hc g sel finalSelection cleared st'.
  assert (Hgrid : Power.grid st' = applyGravity rng cleared).
  { unfold st'. rewrite handlePointerUp_commits by done.
    unfold Power.commitSelection.
    by destruct (Power.collectPowerups _ _) as [[? ?] ?]. }
  split_and!.
  - intros Hten.
    destruct (last sel) as [lastSelected|] eqn:Hlast.
    2:{ destruct Hc as (_ & _ & Hlen & _). apply last_None in Hlast.
        fold sel in Hlen. rewrite Hlast in Hlen. simpl in Hlen.
        unfold MIN_MATCH in Hlen. lia. }
    assert (Hin : inBounds lastSelected).
    { rewrite Forall_forall in Hsel. apply Hsel. fold sel.
      destruct (last_Some_snoc sel lastSelected Hlast) as [init ->].
      apply elem_of_app. right. by apply list_elem_of_singleton. }
    assert (Hfs : Forall inBounds finalSelection)
      by (by apply finalSelectionOf_inBounds).
    assert (Hcl : cleared = setCell (clearCells g finalSelection)
                    (cr lastSelected) (cc lastSelected) (Some (Power.rainbowBall rng))).
    { unfold cleared, Power.clearedGrid. fold finalSelection. rewrite Hlast.
      unfold Power.isSuperBonus. by rewrite (proj2 (Nat.leb_le _ _) Hten). }
    assert (Hwfc : wfGrid (clearCells g finalSelection))
      by (by apply wfGrid_clearCells).
    assert (Hland : cellAt (Power.grid st')
                      (cr lastSelected
                       + removedBelow finalSelection (cr lastSelected) (cc lastSelected))
                      (cc lastSelected)
                    = Some (Power.rainbowBall rng)).
    { rewrite Hgrid, Hcl. by apply reward_tile_lands. }
    exists lastSelected. split_and!.
    + done.
    + rewrite Hcl. destruct Hin. by apply cellAt_setCell_same.
    + intros s Hs Hne. rewrite Hcl, cellAt_setCell_coord by done.
      apply cellAt_clearCells; [done| |by left].
      rewrite Forall_forall in Hfs. by apply Hfs.
    + done.
    + intros Hzero. rewrite Hzero, Nat.add_0_r in Hland. done.
  - intros Hused%usedColor_true. unfold st'.
    rewrite handlePointerUp_commits by done.
    unfold Power.commitSelection.
    destruct (Power.collectPowerups _ _) as [[? ?] ?]. simpl.
    unfold Power.updateTargets. fold g sel finalSelection. by rewrite Hused.
  - intros Hnone k Hk. unfold st'.
    rewrite handlePointerUp_commits by done.
    unfold Power.commitSelection.
    destruct (Power.collectPowerups _ _) as [[? ?] ?]. simpl.
    unfold Power.updateTargets. fold g sel finalSelection.
    destruct (Power.usedColor g rainbow finalSelection) eqn:Hused.
    { by apply usedColor_true in Hused. }
    destruct (Power.chainColorOf g sel) as [k0|]; [|done].
    destruct (Power.targets st !! k0); [|done].
    apply lookup_insert_ne. congruence.
Qed.

Lemma super_chain_places_rainbow_witness :
  (stableState (sampleDrag sampleChainFalling 0 0 0)
   ∧ fullGrid sampleGrid
   ∧ commits (sampleDrag sampleChainFalling 0 0 0)
   ∧ cellAt (Power.grid (Power.handlePointerUp sampleRng
                           (sampleDrag sampleChainFalling 0 0 0))) 7 2
     = Some (Power.rainbowBall sampleRng)
   ∧ Power.targets (Power.handlePointerUp sampleRng
                      (sampleDrag sampleChainFalling 0 0 0)) !! red
     = Some 10)
  ∧ (stableState sampleRainbowDrag
     ∧ fullGrid (Power.grid sampleRainbowDrag)
     ∧ commits sampleRainbowDrag
     ∧ Power.targets (Power.handlePointerUp sampleRng sampleRainbowDrag)
       = (λ t, Z.max 0 (t - 3)) <$> Power.targets sampleRainbowDrag).
Proof.
  split.
  - assert (Hst : stableState (sampleDrag sampleChainFalling 0 0 0)).
    { split; [split; [reflexivity|]; vm_compute; repeat constructor|].
      repeat constructor; vm_compute; lia. }
    assert (Hfull : fullGrid sampleGrid).
    { split; [split; [reflexivity|]; vm_compute; repeat constructor|].
      apply (bool_decide_unpack _). by vm_compute. }
    assert (Hc : commits (sampleDrag sampleChainFalling 0 0 0)).
    { split_and!; [reflexivity..| |vm_compute; by eexists]. vm_compute. lia. }
    split; [exact Hst|]. split; [exact Hfull|]. split; [exact Hc|].
    destruct (super_chain_places_rainbow sampleRng _ Hst Hfull Hc)
      as (Hplace & _ & Hkeep).
    split.
    + destruct Hplace as (lastSelected & Hlast & _ & _ & Hland & _).
      * vm_compute. lia.
      * injection Hlast as <-. exact Hland.
    + refine (eq_trans (Hkeep _ red _) _).
      * intros Hr%usedColor_true. vm_compute in Hr. discriminate Hr.
      * vm_compute. congruence.
      * by vm_compute.
  - assert (Hst : stableState sampleRainbowDrag).
    { split; [split; [reflexivity|]; vm_compute; repeat constructor|].
      repeat constructor; vm_compute; lia. }
    assert (Hfull : fullGrid (Power.grid sampleRainbowDrag)).
    { split; [split; [reflexivity|]; vm_compute; repeat constructor|].
      apply (bool_decide_unpack _). by vm_compute. }
    assert (Hc : commits sampleRainbowDrag).
    { split_and!; [reflexivity..| |vm_compute; by eexists]. vm_compute. lia. }
    split; [exact Hst|]. split; [exact Hfull|]. split; [exact Hc|].
    refine (proj1 (proj2 (super_chain_places_rainbow sampleRng _ Hst Hfull Hc)) _).
    exists (mkCoord 0 0), (mkBall "t" rainbow None).
    split; [|split; reflexivity].
    apply (bool_decide_unpack _). by vm_compute.
Defined.

(** The cell where the chain ended need not hold the [rainbow] tile after
    the commit: the chain that runs down column 1 and ends at [(6, 2)],
    right above its ninth cell [(7, 2)], is drawn cell by cell and commits
    with ten cells; afterwards the tile that was at [(5, 2)] is at [(6, 2)]
    and the [rainbow] tile is at [(7, 2)]. *)
Lemma rainbow_falls_below_last_cell :
  let st := sampleDrag sampleChainFalling 0 0 0 in
  let st' := Power.handlePointerUp sampleRng st in
  Power.run (Power.initialStateOf sampleGrid playing)
    (Power.PointerDown 0 1
     :: ((λ s, Power.PointerMove (cr s) (cc s)) <$> tail sampleChainFalling))
  = st
  ∧ commits st
  ∧ length (Power.finalSelectionOf sampleGrid sampleChainFalling) = 10%nat
  ∧ last sampleChainFalling = Some (mkCoord 6 2)
  ∧ cellAt (Power.grid st') 6 2 = tile yellow
  ∧ cellAt (Power.grid st') 6 2 ≠ Some (Power.rainbowBall sampleRng)
  ∧ cellAt (Power.grid st') 7 2 = Some (Power.rainbowBall sampleRng).
Proof.
  split_and!; try by vm_compute.
  split_and!; [reflexivity..| |vm_compute; by eexists]. vm_compute. lia.
Qed.
